(** * Gcrane: ACR to GAR image migration and inventory verification

    A shallow embedding of the two scripts of the repository,

    - [azure-to-gcp-migration.py]  (module [Migration], with the ledger in
      module [Ledger] and the retry decorator in module [Retry]),
    - [gcp-to-azure-image-verify.py] (modules [Verify] and [Enumeration]),

    together with the properties of the reconciliation engine: the
    idempotency ledger, the retry decorator, the inventory difference, the
    chunked dispatch and the two drivers.

    The block structure of the scripts is read from their statements: the
    two lines whose indentation is off by one column ([with
    ThreadPoolExecutor() as executor:] in [copy_images_to_gcr] and
    [write_images_to_file(all_images, gcr_output_file)] in [get_gar]) are
    taken at the level of the statements around them.

    How the scripts are modelled:

    - a function of the scripts is a function from the state it starts in
      to its outcome (a value, an exception, or [SystemExit]), the state it
      leaves and the events it emitted (module [Runtime]); [try]/[except]
      catches exceptions and lets [SystemExit] through;
    - the state is the ledger (the table of [processed.db], or no table),
      the regular files (each the list of its lines) and a count of the
      calls made to the outside; child processes and the Azure client
      answer through an [external], whose answers may change from call to
      call;
    - strings are sequences of code points below 256; the environment
      variables are set, and the two numeric ones are integers;
    - a task given to a thread pool runs when it is submitted, which is one
      of the schedules of the pool; the scheduling of the chunks of
      registries is also described for all schedules (module [Dispatch]);
    - in module [Verify], [get_acr] and [get_gar] of the verification
      script are taken after their enumeration of the registries; the
      enumerations are in module [Enumeration], where what the functions
      read through [json.loads] in the text printed by a command is a
      parameter. *)

From Stdlib Require Import ZArith Ascii String List Lia.
From stdpp Require Import base decidable option list sets gmap strings.

Set Warnings "-clear-no-such-hyp".

Local Open Scope string_scope.
Local Open Scope Z_scope.

(** ** Python values and control flow *)

Module Py.

(** *** Strings *)

(** [str.isspace] on the code points below 256: TAB, LF, VT, FF, CR, the
    four separators FS, GS, RS, US, SPACE, NEL and NBSP. *)
Definition isspace (c : ascii) : bool :=
  let n := nat_of_ascii c in
  ((9 <=? n) && (n <=? 13) || (28 <=? n) && (n <=? 32)
   || (n =? 133) || (n =? 160))%nat.

(** [s.lstrip()] *)
Fixpoint lstrip (s : string) : string :=
  match s with
  | EmptyString => EmptyString
  | String c r => if isspace c then lstrip r else s
  end.

(** [s.rstrip()] *)
Fixpoint rstrip (s : string) : string :=
  match s with
  | EmptyString => EmptyString
  | String c r =>
      match rstrip r with
      | EmptyString => if isspace c then EmptyString else String c EmptyString
      | r' => String c r'
      end
  end.

(** [s.strip()] *)
Definition strip (s : string) : string := rstrip (lstrip s).

(** [s.split(sep)] for a separator of one character: never empty, and
    [k] separators give [k+1] fields. *)
Fixpoint split (sep : ascii) (s : string) : list string :=
  match s with
  | EmptyString => [EmptyString]
  | String c r =>
      if Ascii.eqb c sep then EmptyString :: split sep r
      else match split sep r with
           | h :: t => String c h :: t
           | [] => [String c EmptyString]
           end
  end.

(** [s.split()]: the maximal runs of characters that are not white space. *)
Fixpoint split_ws_go (cur : option string) (s : string) : list string :=
  match s with
  | EmptyString => match cur with Some w => [String.rev w] | None => [] end
  | String c r =>
      if isspace c
      then match cur with
           | Some w => String.rev w :: split_ws_go None r
           | None => split_ws_go None r
           end
      else split_ws_go (Some (String c (default EmptyString cur))) r
  end.
Definition split_ws (s : string) : list string := split_ws_go None s.

(** [sub in s] *)
Fixpoint contains (sub s : string) : bool :=
  String.prefix sub s ||
  match s with
  | EmptyString => false
  | String _ r => contains sub r
  end.

(** Truth value of a string: [if s:] *)
Definition truthy (s : string) : bool :=
  match s with EmptyString => false | _ => true end.

(** *** Exceptions *)

(** The classes that the scripts and the libraries they call can raise.
    All of them derive from [Exception]; [SystemExit], which does not, is a
    separate outcome below. *)
Inductive exn : Type :=
| CalledProcessError   (* subprocess: non-zero status under check *)
| OSError              (* the program could not be started, a file not opened *)
| UnicodeDecodeError   (* bytes.decode *)
| TypeError
| ValueError
| IndexError
| NameError
| OperationalError     (* sqlite3 *)
| RemoteError (msg : string).  (* Azure SDK *)

(** How a call ends: it returns, it raises an [Exception], or the
    interpreter is leaving through [SystemExit] ([sys.exit], [exit]),
    which [except Exception] does not catch. *)
Inductive outcome (A : Type) : Type :=
| Ret (a : A)
| Raise (e : exn)
| Exit (code : Z).
Arguments Ret {A} a.
Arguments Raise {A} e.
Arguments Exit {A} code.

(** Exit status of the interpreter for a script that ended with the given
    outcome: 0 at the end of the script, 1 on an uncaught exception, the
    argument of [sys.exit] otherwise. *)
Definition exit_status {A} (o : outcome A) : Z :=
  match o with
  | Ret _ => 0
  | Raise _ => 1
  | Exit c => c
  end.

End Py.
Export Py.

(** ** The idempotency ledger: table [processed_entries] of [processed.db] *)

Module Ledger.

(** A row [(acr_name, repository, tag, digest)], four TEXT columns. *)
Definition row : Type := string * string * string * string.

(** The primary key is the whole row, so the table is a finite set of rows.
    [None] is a database file in which the table has not been created. *)
Definition db : Type := option (gset row).

(** [CREATE TABLE IF NOT EXISTS processed_entries (...)] *)
Definition init_db (d : db) : outcome unit * db :=
  match d with
  | None => (Ret tt, Some ∅)
  | Some t => (Ret tt, Some t)
  end.

(** [INSERT OR IGNORE INTO processed_entries ... VALUES (?, ?, ?, ?)] *)
Definition insert_processed (acr_name repo tag digest : string) (d : db)
  : outcome unit * db :=
  match d with
  | None => (Raise OperationalError, None)
  | Some t => (Ret tt, Some ({[ (acr_name, repo, tag, digest) ]} ∪ t))
  end.

(** [SELECT EXISTS(SELECT 1 ... WHERE acr_name = ? AND repository = ? AND
    tag = ? AND digest = ?)], compared with 1. *)
Definition check_if_processed (acr_name repo tag digest : string) (d : db)
  : outcome bool * db :=
  match d with
  | None => (Raise OperationalError, None)
  | Some t => (Ret (bool_decide ((acr_name, repo, tag, digest) ∈ t)), Some t)
  end.

(** [SELECT * FROM processed_entries], in the order the store yields. *)
Definition get_all_processed (d : db) : outcome (list row) * db :=
  match d with
  | None => (Raise OperationalError, None)
  | Some t => (Ret (elements t), Some t)
  end.

(** [DELETE FROM processed_entries] *)
Definition clear_all_processed (d : db) : outcome unit * db :=
  match d with
  | None => (Raise OperationalError, None)
  | Some _ => (Ret tt, Some ∅)
  end.

End Ledger.

(** ** Processes, files and the state the scripts run in *)

Module Runtime.

(** A command line: an argument vector, or a string for the shell. *)
Inductive cmd : Type :=
| Argv (argv : list string)
| Shell (line : string).

(** A finished child process. The two streams are bytes; [None] stands for
    bytes that are not valid UTF-8, on which [decode] raises. *)
Record completed : Type := Completed {
  returncode : Z;
  stdout : option string;
  stderr : option string;
}.

(** What a call to the outside answers: a value, or an exception. *)
Inductive answer (A : Type) : Type :=
| Answer (a : A)
| Fails (e : exn).
Arguments Answer {A} a.
Arguments Fails {A} e.

(** The outside of the process. Each answer may depend on how many calls
    to the outside were made before it (the [nat]), so that a call can
    fail once and succeed later. *)
Record external : Type := External {
  ext_run : cmd → nat → answer completed;        (* subprocess.run *)
  ext_registries : nat → answer (list string);   (* client.registries.list() *)
}.

(** The environment variables read at start-up. *)
Record config : Type := Config {
  GCR_PROJECT_ID : string;
  GCR_REGION : string;
  MAX_CONCURRENT_JOBS : Z;
  RETRY_LIMIT : Z;
}.

(** Arguments of a formatted message. *)
Inductive arg : Type :=
| AStr (s : string)
| AInt (z : Z)
| AExn (e : exn)
| ARow (r : Ledger.row).

(** What the process does that can be observed from outside. A message is
    its format string with the values of its fields. *)
Inductive event : Type :=
| LogInfo (fmt : string) (args : list arg)
| LogWarning (fmt : string) (args : list arg)
| LogError (fmt : string) (args : list arg)
| Print (fmt : string) (args : list arg)
| Sleep (seconds : Z)
| Spawn (c : cmd)           (* a child process was started *)
| ListRegistries.           (* a request of the Azure client *)

(** The mutable state: the ledger, the number of calls made to the outside,
    and the regular files, each as the list of its lines. *)
Record world : Type := World {
  ledger : Ledger.db;
  clock : nat;
  files : gmap string (list string);
}.

(** The result of running a piece of the script from a state. *)
Record result (A : Type) : Type := Result {
  out : outcome A;
  post : world;
  trace : list event;
}.
Arguments Result {A} out post trace.
Arguments out {A} r.
Arguments post {A} r.
Arguments trace {A} r.

Definition M (A : Type) : Type := world → result A.

Definition ret {A} (a : A) : M A := fun w => Result (Ret a) w [].
Definition raise {A} (e : exn) : M A := fun w => Result (Raise e) w [].
Definition sys_exit {A} (code : Z) : M A := fun w => Result (Exit code) w [].

Definition bind {A B} (m : M A) (f : A → M B) : M B := fun w =>
  let r := m w in
  match out r with
  | Ret a => let r' := f a (post r) in
             Result (out r') (post r') (trace r ++ trace r')
  | Raise e => Result (Raise e) (post r) (trace r)
  | Exit c => Result (Exit c) (post r) (trace r)
  end.

(** [try: m except Exception as e: h e] *)
Definition try_except {A} (m : M A) (h : exn → M A) : M A := fun w =>
  let r := m w in
  match out r with
  | Raise e => let r' := h e (post r) in
               Result (out r') (post r') (trace r ++ trace r')
  | _ => r
  end.

Definition emit (e : event) : M unit := fun w => Result (Ret tt) w [e].

(** Lift an operation of the ledger. *)
Definition with_ledger {A} (op : Ledger.db → outcome A * Ledger.db) : M A :=
  fun w => let '(o, d) := op (ledger w) in
           Result o (World d (clock w) (files w)) [].

Definition tick : M nat := fun w =>
  Result (Ret (clock w)) (World (ledger w) (S (clock w)) (files w)) [].

Definition of_answer {A} (a : answer A) : M A :=
  match a with
  | Answer v => ret v
  | Fails e => raise e
  end.

End Runtime.
Export Runtime.

Notation "x <- m ;; k" := (bind m (fun x => k))
  (at level 100, m at next level, right associativity).
Notation "m ;; k" := (bind m (fun _ => k))
  (at level 100, right associativity).

(** ** [azure-to-gcp-migration.py] *)

Module Retry.

(** [range(n)] *)
Definition range (n : Z) : list Z := Z.of_nat <$> seq 0 (Z.to_nat n).

(** [time.sleep(d)]: a negative length is a [ValueError]. *)
Definition time_sleep (d : Z) : M unit :=
  if d <? 0 then raise ValueError else emit (Sleep d).

Section wrapper.
Context {A : Type}.
Variables (retries delay : Z).
Variable name : string.    (* func.__name__ *)
Variable func : M A.       (* the call of func on its arguments *)

(** The [except] clause of the loop body. *)
Definition handler (e : exn) (i : Z) : M unit :=
  emit (LogWarning "Retrying due to: {e}, attempt {i+1}/{retries}"
          [AExn e; AInt (i + 1); AInt retries]) ;;
  time_sleep delay.

(** The loop of [wrapper] over the values of [i] still to come, from the
    state [w]. Next to the result it reports how many times [func] was
    called: the count goes up exactly where [func] is applied. *)
Fixpoint wrapper_run (js : list Z) (w : world) : result (option A) * nat :=
  match js with
  | [] =>
      ((emit (LogError "Function {func.__name__} failed after {retries} retries"
                [AStr name; AInt retries]) ;;
        ret None) w, 0%nat)
  | i :: js' =>
      let r := func w in
      match out r with
      | Ret a => (Result (Ret (Some a)) (post r) (trace r), 1%nat)
      | Exit c => (Result (Exit c) (post r) (trace r), 1%nat)
      | Raise e =>
          let h := handler e i (post r) in
          match out h with
          | Ret _ =>
              let '(r', n) := wrapper_run js' (post h) in
              (Result (out r') (post r') (trace r ++ trace h ++ trace r'), S n)
          | Raise e' => (Result (Raise e') (post h) (trace r ++ trace h), 1%nat)
          | Exit c => (Result (Exit c) (post h) (trace r ++ trace h), 1%nat)
          end
      end
  end.

(** [retry(retries, delay)(func)]: the value of [func], or [None] when
    every attempt raised. *)
Definition wrapper : M (option A) := fun w => fst (wrapper_run (range retries) w).

(** Number of calls of [func] made by [wrapper] from [w]. *)
Definition invocations (w : world) : nat := snd (wrapper_run (range retries) w).
End wrapper.

Arguments handler : simpl never.

End Retry.

Module Migration.
Import Retry.


Section script.
Context (cfg : config) (ext : external).

(** [@retry()]: the defaults [retries=RETRY_LIMIT], [delay=2]. *)
Definition retry {A} (name : string) (func : M A) : M (option A) :=
  wrapper (RETRY_LIMIT cfg) 2 name func.

(** [try: m except subprocess.CalledProcessError as e: h] *)
Definition except_CalledProcessError {A} (m : M A) (h : M A) : M A :=
  try_except m (fun e => match e with CalledProcessError => h | _ => raise e end).

(** [subprocess.run(c, ...)] without [check]. *)
Definition subprocess_run (c : cmd) : M completed :=
  n <- tick ;; emit (Spawn c) ;; of_answer (ext_run ext c n).

(** [subprocess.check_output(c)] and [subprocess.run(c, check=True)]. *)
Definition subprocess_check (c : cmd) : M completed :=
  p <- subprocess_run c ;;
  if returncode p =? 0 then ret p else raise CalledProcessError.

(** [b.decode()] *)
Definition decode (b : option string) : M string :=
  match b with Some s => ret s | None => raise UnicodeDecodeError end.

Definition check_output (c : cmd) : M string :=
  p <- subprocess_check c ;; decode (stdout p).

Definition get_azure_subscription_id : M (option string) :=
  except_CalledProcessError
    (s <- check_output
            (Argv ["az"; "account"; "list"; "--query"; "[?isDefault].id"; "-o"; "tsv"]) ;;
     ret (Some (strip s)))
    (emit (LogError "Failed to fetch the Azure subscription ID: {e}"
             [AExn CalledProcessError]) ;;
     ret None).

Definition list_acr_registries : M (option (list string)) :=
  retry "list_acr_registries"
    (n <- tick ;; emit ListRegistries ;; of_answer (ext_registries ext n)).

Definition get_resource_group_name (acr_name : string) : M (option string) :=
  r <- retry "get_resource_group_name"
    (except_CalledProcessError
       (s <- check_output
               (Argv ["az"; "acr"; "show"; "--name"; acr_name; "--query";
                      "resourceGroup"; "--output"; "tsv"]) ;;
        ret (Some (strip s)))
       (emit (LogError "Failed to fetch the resource group name for ACR {acr_name}: {e}"
                [AStr acr_name; AExn CalledProcessError]) ;;
        ret None)) ;;
  ret (mjoin r).

Definition list_repositories (acr_name : string) : M (option (list string)) :=
  retry "list_repositories"
    (s <- check_output
            (Argv ["az"; "acr"; "repository"; "list"; "--name"; acr_name;
                   "--output"; "tsv"]) ;;
     ret (split_ws s)).

Definition list_tags (acr_name repo : string) : M (option (list string)) :=
  retry "list_tags"
    (s <- check_output
            (Argv ["az"; "acr"; "repository"; "show-tags"; "--name"; acr_name;
                   "--repository"; repo; "--output"; "tsv"]) ;;
     ret (split_ws s)).

Definition get_tag_digest (acr_name repo tag : string) : M (option string) :=
  r <- retry "get_tag_digest"
    (except_CalledProcessError
       (s <- check_output
               (Argv ["az"; "acr"; "manifest"; "list-metadata"; "-r"; acr_name;
                      "-n"; repo; "--query";
                      "[?tags[?contains(@, '" +:+ tag +:+ "')]].digest";
                      "--output"; "tsv"; "--only-show-errors"]) ;;
        ret (Some (strip s)))
       (emit (LogError "Failed to get digest for {acr_name}/{repo}:{tag}: {e}"
                [AStr acr_name; AStr repo; AStr tag; AExn CalledProcessError]) ;;
        ret None)) ;;
  ret (mjoin r).

(** The body of [create_gcr_repository], before decoration. *)
Definition create_gcr_repository_body (repo_name : string) : M unit :=
  result <- subprocess_run
    (Argv ["gcloud"; "artifacts"; "repositories"; "create"; repo_name;
           "--repository-format=docker"; "--location=us";
           "--description"; "Repository for " +:+ repo_name]) ;;
  if returncode result =? 0 then
    emit (LogInfo "Successfully created repository {repo_name}" [AStr repo_name])
  else
    err <- decode (stderr result) ;;
    if contains "ALREADY_EXISTS" err then
      emit (LogInfo "Repository {repo_name} already exists. Skipping creation."
              [AStr repo_name])
    else
      err' <- decode (stderr result) ;;
      emit (LogError "Failed to create repository {repo_name}: {result.stderr.decode()}"
              [AStr repo_name; AStr err']).

(** The decorated function. Its value is Python's [None] both when the
    body returned and when the attempts ran out. *)
Definition create_gcr_repository (repo_name : string) : M unit :=
  retry "create_gcr_repository" (create_gcr_repository_body repo_name) ;; ret tt.

(** The body of [copy_image], before decoration. *)
Definition copy_image_body (source_image dest_image : string) : M unit :=
  result <- subprocess_run
    (Shell ("gcrane cp " +:+ source_image +:+ " " +:+ dest_image)) ;;
  if returncode result =? 0 then
    emit (LogInfo "Successfully copied {source_image} to {dest_image}"
            [AStr source_image; AStr dest_image])
  else
    err <- decode (stderr result) ;;
    emit (LogError "Failed to copy {source_image} to {dest_image}: {result.stderr.decode()}"
            [AStr source_image; AStr dest_image; AStr err]).

(** The decorated function; its value is [None] in every case. *)
Definition copy_image (source_image dest_image : string) : M unit :=
  retry "copy_image" (copy_image_body source_image dest_image) ;; ret tt.

(** *** Loops and thread pools *)

(** [for x in l: body x] *)
Fixpoint for_each {A} (l : list A) (body : A → M unit) : M unit :=
  match l with
  | [] => ret tt
  | x :: l' => body x ;; for_each l' body
  end.

(** The value of a decorated listing function where a list is needed
    ([for x in v], [len(v)]): [None], the value after the attempts ran
    out, is a [TypeError] there. *)
Definition the_list {A} (v : option (list A)) : M (list A) :=
  match v with Some l => ret l | None => raise TypeError end.

(** [ThreadPoolExecutor(max_workers=n)] *)
Definition ThreadPoolExecutor (max_workers : Z) : M unit :=
  if max_workers <=? 0 then raise ValueError else ret tt.

(** [executor.submit(task)]. The task runs when it is submitted, which is
    one of the schedules of the pool; the future keeps how it ended. *)
Definition submit {A} (task : M A) : M (outcome A) := fun w =>
  let r := task w in Result (Ret (out r)) (post r) (trace r).

(** [future.result()] *)
Definition future_result {A} (f : outcome A) : M A :=
  match f with
  | Ret a => ret a
  | Raise e => raise e
  | Exit c => sys_exit c
  end.

(** *** Full scan *)

(** The body of [for tag in tags:] in [process_repository]. *)
Definition process_tag (acr_name repo tag : string) : M unit :=
  digest <- get_tag_digest acr_name repo tag ;;
  match digest with
  | Some d =>
      if truthy d then
        seen <- with_ledger (Ledger.check_if_processed acr_name repo tag d) ;;
        if seen : bool then
          emit (LogInfo "Skipping {acr_name}/{repo}:{tag}:{digest} as it has been processed before."
                  [AStr acr_name; AStr repo; AStr tag; AStr d])
        else
          ThreadPoolExecutor (MAX_CONCURRENT_JOBS cfg) ;;
          future <- submit
            (copy_image
               (acr_name +:+ ".azurecr.io/" +:+ repo +:+ ":" +:+ tag)
               (GCR_REGION cfg +:+ "-docker.pkg.dev/" +:+ GCR_PROJECT_ID cfg +:+ "/"
                  +:+ acr_name +:+ "/" +:+ repo +:+ ":" +:+ tag)) ;;
          future_result future ;;
          with_ledger (Ledger.insert_processed acr_name repo tag d)
      else
        emit (LogError "Skipping {acr_name}/{repo}:{tag} due to missing digest."
                [AStr acr_name; AStr repo; AStr tag])
  | None =>
      emit (LogError "Skipping {acr_name}/{repo}:{tag} due to missing digest."
              [AStr acr_name; AStr repo; AStr tag])
  end.

Definition process_repository (acr_name repo : string) : M unit :=
  try_except
    (tags <- list_tags acr_name repo ;;
     create_gcr_repository acr_name ;;
     tags' <- the_list tags ;;
     for_each tags' (process_tag acr_name repo))
    (fun exc =>
       emit (LogError "Error processing repository {repo}: {exc}"
               [AStr repo; AExn exc])).

Definition process_acr (acr_name : string) : M unit :=
  resource_group_name <- get_resource_group_name acr_name ;;
  if from_option truthy false resource_group_name then
    repositories <- list_repositories acr_name ;;
    repositories' <- the_list repositories ;;
    for_each repositories' (process_repository acr_name)
  else
    emit (LogError "Skipping ACR {acr_name} due to missing resource group name"
            [AStr acr_name]).

(** [lst[i:j]] for [0 <= i]. *)
Definition slice {A} (lst : list A) (i j : Z) : list A :=
  take (Z.to_nat (j - i)) (drop (Z.to_nat i) lst).

(** [range(0, stop, step)] for [0 <= stop]: a zero step is a
    [ValueError], a negative one gives no value. *)
Fixpoint range_from (fuel : nat) (i stop step : Z) : list Z :=
  match fuel with
  | O => []
  | S fuel' => if i <? stop then i :: range_from fuel' (i + step) stop step else []
  end.
Definition range_step (stop step : Z) : answer (list Z) :=
  if step =? 0 then Fails ValueError
  else if step <? 0 then Answer []
  else Answer (range_from (Z.to_nat stop) 0 stop step).

(** [chunkify(lst, n)] *)
Definition chunkify {A} (lst : list A) (n : Z) : answer (list (list A)) :=
  match range_step (Z.of_nat (length lst)) n with
  | Answer starts => Answer ((fun i => slice lst i (i + n)) <$> starts)
  | Fails e => Fails e
  end.

(** *** Targeted replay *)

(** [print(...)] *)
Definition print (fmt : string) (args : list arg) : M unit := emit (Print fmt args).

(** [l[k]] *)
Definition index {A} (l : list A) (k : nat) : M A :=
  match l !! k with Some x => ret x | None => raise IndexError end.

(** Reading a local variable that may not have been assigned. *)
Definition local {A} (v : option A) : M A :=
  match v with Some x => ret x | None => raise NameError end.

(** The global [location]: the script never assigns it. *)
Definition location : M string := raise NameError.

(** [subprocess.run(c, capture_output=True, text=True, check=True)]: both
    streams are decoded before the status is looked at. *)
Definition subprocess_run_text_check (c : cmd) : M (string * string) :=
  p <- subprocess_run c ;;
  o <- decode (stdout p) ;;
  e <- decode (stderr p) ;;
  if returncode p =? 0 then ret (o, e) else raise CalledProcessError.

Definition ensure_gar_repository (project_id repository_name : string) : M unit :=
  except_CalledProcessError
    (result <- subprocess_run_text_check
       (Argv ["gcloud"; "artifacts"; "repositories"; "list";
              "--project"; project_id; "--location"; GCR_REGION cfg;
              "--filter"; "name:projects/" +:+ project_id +:+ "/locations/"
                            +:+ GCR_REGION cfg +:+ "/repositories/" +:+ repository_name;
              "--format"; "value(name)"]) ;;
     if truthy (strip (fst result)) then
       print "Repository {repository_name} already exists." [AStr repository_name]
     else
       print "Creating repository {repository_name} in project {project_id}."
         [AStr repository_name; AStr project_id] ;;
       loc <- location ;;
       subprocess_check
         (Argv ["gcloud"; "artifacts"; "repositories"; "create"; repository_name;
                "--repository-format=docker"; "--location"; loc;
                "--project"; project_id]) ;;
       print "Repository {repository_name} created." [AStr repository_name])
    (print "An error occurred while checking or creating the repository: {e}"
       [AExn CalledProcessError]).

(** [with open(path, 'r') as f: f.readlines()] *)
Definition readlines (path : string) : M (list string) := fun w =>
  match files w !! path with
  | Some ls => Result (Ret ls) w []
  | None => Result (Raise OSError) w []
  end.

(** The variables that the loop over the lines assigns and that are read
    once it is over. *)
Record replay_vars : Type := ReplayVars {
  original_image : option string;
  parts : option (list string);
  futures : list (outcome unit);
}.

(** [for original_image in original_images: ...] of [copy_images_to_gcr]. *)
Fixpoint replay_loop (original_images : list string) (v : replay_vars)
  : M replay_vars :=
  match original_images with
  | [] => ret v
  | line :: rest =>
      let original_image := strip line in
      let parts := split ":" original_image in
      if (3 <=? length parts)%nat then
        repo_name <- index parts 0 ;;
        ensure_gar_repository (GCR_PROJECT_ID cfg) repo_name ;;
        p0 <- index parts 0 ;;
        let azure_registry := p0 +:+ ".azurecr.io" in
        p1 <- index parts 1 ;;
        p2 <- index parts 2 ;;
        let image_path_with_tag := p1 +:+ ":" +:+ p2 in
        let source_image := azure_registry +:+ "/" +:+ image_path_with_tag in
        p0' <- index parts 0 ;;
        let destination_image :=
          GCR_REGION cfg +:+ "-docker.pkg.dev/" +:+ GCR_PROJECT_ID cfg +:+ "/"
            +:+ p0' +:+ "/" +:+ image_path_with_tag in
        future <- submit (copy_image source_image destination_image) ;;
        replay_loop rest
          (ReplayVars (Some original_image) (Some parts) (futures v ++ [future]))
      else
        replay_loop rest (ReplayVars (Some original_image) (Some parts) (futures v))
  end.

Definition copy_images_to_gcr (difference_file : string) : M unit :=
  try_except
    (original_images <- readlines difference_file ;;
     match original_images with
     | [] => print "No images to copy." []
     | _ =>
         v <- replay_loop original_images (ReplayVars None None []) ;;
         for_each (futures v) (fun future =>
           try_except (future_result future)
             (fun e => print "An error occurred during image copy: {e}" [AExn e])) ;;
         last_image <- local (original_image v) ;;
         let Image := split ":" last_image in
         (if (3 <=? length Image)%nat then
            acr_name <- index Image 0 ;;
            repo <- index Image 1 ;;
            tag <- index Image 2 ;;
            ps <- local (parts v) ;;
            p3 <- index ps 3 ;;
            p4 <- index ps 4 ;;
            let digest := p3 +:+ ":" +:+ p4 in
            with_ledger (Ledger.insert_processed acr_name repo tag digest)
          else ret tt) ;;
         processed_entries <- with_ledger Ledger.get_all_processed ;;
         for_each processed_entries (fun entry => print "Processed: {entry}" [ARow entry])
     end)
    (fun e => print "An error occurred: {e}" [AExn e]).

(** *** The script *)

(** [os.path.isfile(path)], for a path other than that of the database:
    [processed.db], which [sqlite3.connect] creates, is not among the
    files of the state. *)
Definition isfile (path : string) : M bool := fun w =>
  Result (Ret (bool_decide (is_Some (files w !! path)))) w [].

(** [[executor.submit(f, x) for x in l]] *)
Fixpoint submit_all {A B} (f : A → M B) (l : list A) : M (list (outcome B)) :=
  match l with
  | [] => ret []
  | x :: l' => future <- submit (f x) ;; rest <- submit_all f l' ;; ret (future :: rest)
  end.

(** One chunk of registries: the body of [for chunk in chunks]. *)
Definition process_chunk (chunk : list string) : M unit :=
  ThreadPoolExecutor (MAX_CONCURRENT_JOBS cfg) ;;
  futures <- submit_all process_acr chunk ;;
  for_each futures (fun future =>
    try_except (future_result future)
      (fun exc => emit (LogError "Error processing ACR: {exc}" [AExn exc]))).

(** The [else] branch of the script: no usable [--diff-file]. *)
Definition full_scan : M unit :=
  with_ledger Ledger.init_db ;;
  acr_names <- list_acr_registries ;;
  acr_names' <- the_list acr_names ;;     (* len(lst) in chunkify *)
  chunks <- of_answer (chunkify acr_names' (MAX_CONCURRENT_JOBS cfg)) ;;
  for_each chunks process_chunk ;;
  emit (LogInfo "Finished processing all ACRs" []) ;;
  processed_entries <- with_ledger Ledger.get_all_processed ;;
  for_each processed_entries (fun entry => print "Processed: {entry}" [ARow entry]).

(** The branch [if args.diff_file:] for a path that is not empty. *)
Definition targeted_replay (path : string) : M unit :=
  is_file <- isfile path ;;
  if is_file : bool then
    copy_images_to_gcr path
  else
    print "Error: The path provided is not a valid file: {args.diff_file}" [AStr path] ;;
    sys_exit 1.

(** The statements of the script from top to bottom, for the value
    [diff_file] of [--diff-file] ([None] when the option is absent). The
    credential and the client are built without any call to the outside. *)
Definition main (diff_file : option string) : M unit :=
  subscription_id <- get_azure_subscription_id ;;
  (if from_option truthy false subscription_id then ret tt else sys_exit 1) ;;
  match diff_file with
  | Some path => if truthy path then targeted_replay path else full_scan
  | None => full_scan
  end.

End script.
End Migration.

(** ** [gcp-to-azure-image-verify.py] *)

Module Verify.

Definition acr_output_file : string := "acr_all_images.txt".
Definition gcr_output_file : string := "gar_all_images.txt".
Definition difference_output_file : string := "difference_images.txt".

Definition print (fmt : string) (args : list arg) : M unit := emit (Print fmt args).

(** [os.path.exists(path)] *)
Definition exists_ (path : string) : M bool := fun w =>
  Result (Ret (bool_decide (is_Some (files w !! path)))) w [].

(** [os.remove(path)] *)
Definition remove (path : string) : M unit := fun w =>
  match files w !! path with
  | Some _ => Result (Ret tt) (World (ledger w) (clock w) (delete path (files w))) []
  | None => Result (Raise OSError) w []
  end.

(** [open(path, 'w')] followed by the writes of [lines]. A file is the
    list of the strings written, which is the list of the lines read back
    when each string written is one line: it ends with its only line
    break. *)
Definition write_lines (path : string) (lines : list string) : M unit := fun w =>
  Result (Ret tt) (World (ledger w) (clock w) (<[path := lines]> (files w))) [].

Definition remove_if_exists (path : string) : M unit :=
  e <- exists_ path ;;
  if e : bool then
    remove path ;; print "Removed old file: {path}" [AStr path]
  else ret tt.

Definition remove_old_files : M unit :=
  remove_if_exists acr_output_file ;;
  remove_if_exists gcr_output_file ;;
  remove_if_exists difference_output_file.

(** The lines written for a list of images: [f"{image}\n"] for each. *)
Definition file_lines (image_list : list string) : list string :=
  (fun image => image +:+ "
") <$> image_list.

(** [write_images_to_file]: one line per image. *)
Definition write_images_to_file (image_list : list string) (filename : string) : M unit :=
  write_lines filename (file_lines image_list) ;;
  print "Image list has been written to {filename}" [AStr filename].

(** [get_acr] and [get_gar], after the enumeration: [all_images] is the
    list gathered from the registries, which is then written out. *)
Definition get_acr (all_images : list string) : M unit :=
  write_images_to_file all_images acr_output_file.
Definition get_gar (all_images : list string) : M unit :=
  write_images_to_file all_images gcr_output_file.

(** The identifier of an image in the inventory of the source:
    [f"{registry_name}:{repo}:{tag}:-{digest}"] in
    [list_acr_images_with_digests]. *)
Definition image_identifier (id : Ledger.row) : string :=
  let '(registry_name, repo, tag, digest) := id in
  registry_name +:+ ":" +:+ repo +:+ ":" +:+ tag +:+ ":-" +:+ digest.

(** The set read from the lines of a file: [set(line.strip() for line in
    f.readlines())]. *)
Definition images_of_lines (lines : list string) : gset string :=
  list_to_set (strip <$> lines).

(** [read_images_from_file], the second definition, which is the one in
    force: a file that cannot be opened raises. *)
Definition read_images_from_file (file_path : string) : M (gset string) := fun w =>
  match files w !! file_path with
  | Some lines => Result (Ret (images_of_lines lines)) w []
  | None => Result (Raise OSError) w []
  end.

(** The difference of the two inventories: [acr_images - gcr_images]. *)
Definition diff (acr_images gcr_images : gset string) : gset string :=
  acr_images ∖ gcr_images.

(** The loop over [missing_in_acr] goes through a Python set, in an order
    that the language does not fix; [elements] stands for one such order,
    and what is stated of the lines of the difference file is stated up
    to their order. *)
Definition compare_registries (acr_file gcr_file difference_file : string) : M bool :=
  acr_images <- read_images_from_file acr_file ;;
  gcr_images <- read_images_from_file gcr_file ;;
  let missing_in_acr := diff acr_images gcr_images in
  if bool_decide (missing_in_acr ≠ ∅) then
    print "Images missing in Google Container Registry:" [] ;;
    write_lines difference_file (file_lines (elements missing_in_acr)) ;;
    Migration.for_each (elements missing_in_acr) (fun image => print "{image}" [AStr image]) ;;
    ret true
  else
    print "No images are missing from Azure Container Registry compared to Google Artifact Registry." [] ;;
    e <- exists_ difference_output_file ;;
    (if e : bool then remove difference_output_file else ret tt) ;;
    ret false.

(** [os.path.getsize(path)], in characters. *)
Definition getsize (path : string) : M nat := fun w =>
  match files w !! path with
  | Some lines => Result (Ret (sum_list (String.length <$> lines))) w []
  | None => Result (Raise OSError) w []
  end.

(** The script, for the lists that the two enumerations gather. *)
Definition main (acr_all_images gar_all_images : list string) : M unit :=
  remove_old_files ;;
  get_acr acr_all_images ;;
  get_gar gar_all_images ;;
  difference_created <- compare_registries acr_output_file gcr_output_file
                          difference_output_file ;;
  nonempty <- (if difference_created : bool
               then n <- getsize difference_output_file ;; ret (0 <? n)%nat
               else ret false) ;;
  if nonempty : bool then
    print "
**** Difference in ACR to GAR Found. Content stored in {difference_output_file}"
      [AStr difference_output_file]
  else
    print "No images to copy. The difference file was not created or is empty." [].

End Verify.

(** ** Scheduling of the registry chunks *)

Module Dispatch.

(** What the main thread and the pool do with the registry at position
    [item] of chunk number [batch]. *)
Inductive step : Type :=
| Dispatched (batch item : nat) (acr_name : string)  (* executor.submit *)
| Finished (batch item : nat).                       (* the future is done *)

(** The runs of one [with ThreadPoolExecutor(...) as executor:] block of
    the script, for chunk number [k]: the registries still to submit (the
    next one has position [i]) are submitted in order, a task that is in
    flight finishes at any time, and the block is left only when nothing
    is left to submit and nothing is in flight. *)
Inductive chunk_run (k : nat) : nat → list string → list nat → list step → Prop :=
| run_end i : chunk_run k i [] [] []
| run_submit i x todo flying tr :
    chunk_run k (S i) todo (i :: flying) tr →
    chunk_run k i (x :: todo) flying (Dispatched k i x :: tr)
| run_finish i j todo fl1 fl2 tr :
    chunk_run k i todo (fl1 ++ fl2) tr →
    chunk_run k i todo (fl1 ++ j :: fl2) (Finished k j :: tr).

(** The runs of [for chunk in chunks:], chunk after chunk. *)
Inductive main_run : nat → list (list string) → list step → Prop :=
| main_end k : main_run k [] []
| main_chunk k chunk chunks tr1 tr2 :
    chunk_run k 0 chunk [] tr1 →
    main_run (S k) chunks tr2 →
    main_run k (chunk :: chunks) (tr1 ++ tr2).

Definition batch_of (s : step) : nat :=
  match s with Dispatched k _ _ => k | Finished k _ => k end.

End Dispatch.

(** ** Vocabulary of the statements *)

Module Replay.

(** The colon-delimited fields of a line of the difference file, as the
    loop of [copy_images_to_gcr] computes them. *)
Definition fields (line : string) : list string := split ":" (strip line).


(** The command line of [copy_image] for the fields [parts[0]],
    [parts[1]], [parts[2]] of a line. *)
Definition copy_command (cfg : config) (p0 p1 p2 : string) : string :=
  "gcrane cp "
    +:+ ((p0 +:+ ".azurecr.io") +:+ "/" +:+ (p1 +:+ ":" +:+ p2))
    +:+ " "
    +:+ (GCR_REGION cfg +:+ "-docker.pkg.dev/" +:+ GCR_PROJECT_ID cfg +:+ "/"
           +:+ p0 +:+ "/" +:+ (p1 +:+ ":" +:+ p2)).

(** A copy command that stems from an accepted line of [lines]. *)
Definition copy_of_line (cfg : config) (lines : list string) (command : string) : Prop :=
  ∃ line p0 p1 p2 rest,
    line ∈ lines ∧ fields line = p0 :: p1 :: p2 :: rest ∧
    command = copy_command cfg p0 p1 p2.

(** A ledger row that stems from an accepted line of [lines]: its first
    three fields, and the next two joined by a colon. *)
Definition row_of_line (lines : list string) (r : Ledger.row) : Prop :=
  ∃ line p0 p1 p2 p3 p4 rest,
    line ∈ lines ∧ fields line = p0 :: p1 :: p2 :: p3 :: p4 :: rest ∧
    r = (p0, p1, p2, p3 +:+ ":" +:+ p4).

(** The ledger [d'] is the ledger [d] with, perhaps, more rows, each of
    them allowed; a table is neither created nor dropped. *)
Definition grows_by (allowed : Ledger.row → Prop) (d d' : Ledger.db) : Prop :=
  match d, d' with
  | Some t, Some t' => t ⊆ t' ∧ ∀ r, r ∈ t' → r ∈ t ∨ allowed r
  | None, None => True
  | _, _ => False
  end.

End Replay.

(** ** Vocabulary of the proofs *)

(** An operation that always raises, for the witness: a connection that
    is refused at every call. *)
Definition always_refused : M unit :=
  raise (RemoteError "connection refused").

(** Inserting a list of identities, one [insert_processed] after the
    other, as long as none raises. *)
Fixpoint insert_all (rows : list Ledger.row) (d : Ledger.db) : outcome unit * Ledger.db :=
  match rows with
  | [] => (Ret tt, d)
  | (acr_name, repo, tag, digest) :: rows' =>
      match Ledger.insert_processed acr_name repo tag digest d with
      | (Ret _, d') => insert_all rows' d'
      | r => r
      end
  end.

(** Number of records of a listing that are equal to [id]. *)
Definition matching (id : Ledger.row) (listing : list Ledger.row) : nat :=
  length (filter (λ r, r = id) listing).

(** Calls to the outside, as opposed to messages and sleeps. *)
Definition is_call (e : event) : bool :=
  match e with Spawn _ | ListRegistries => true | _ => false end.

(** The outcome [o] is not a [SystemExit], and a value it returns
    satisfies [Q]. *)
Definition post_ok {A} (Q : A → Prop) (o : outcome A) : Prop :=
  match o with Ret a => Q a | Raise _ => True | Exit _ => False end.

(** [sound R E Q m]: from any state, [m] takes the ledger to one related
    to it by [R], emits only events satisfying [E], does not leave through
    [SystemExit], and the value it returns satisfies [Q]. *)
Definition sound (R : Ledger.db → Ledger.db → Prop) (E : event → Prop)
    {A} (Q : A → Prop) (m : M A) : Prop :=
  ∀ w, R (ledger w) (ledger (post (m w))) ∧ Forall E (trace (m w)) ∧
       post_ok Q (out (m w)).

(** The events allowed in a replay of [lines]: a shell command line is
    the copy command of an accepted line. *)
Definition replay_event (cfg : config) (lines : list string) (e : event) : Prop :=
  ∀ command, e = Spawn (Shell command) → Replay.copy_of_line cfg lines command.

(** What holds of the variables of the loop of the replay, at every
    iteration: the line last read is a line of the file, [parts] are its
    fields, and no future holds a [SystemExit]. *)
Definition replay_inv (lines : list string) (v : Migration.replay_vars) : Prop :=
  (∀ image, Migration.original_image v = Some image →
            ∃ line, line ∈ lines ∧ image = strip line) ∧
  Migration.parts v = split ":" <$> Migration.original_image v ∧
  Forall (post_ok (A := unit) (λ _, True)) (Migration.futures v).

(** An outside in which every child process ends with the given status
    and streams. *)
Definition every_process (rc : Z) (o e : string) : external :=
  External (λ _ _, Answer (Completed rc (Some o) (Some e))) (λ _, Answer []).

(** The state after one call to the outside. *)
Definition after_call (w : world) : world := World (ledger w) (S (clock w)) (files w).

(** Does the string hold a colon? *)
Fixpoint has_colon (s : string) : bool :=
  match s with
  | EmptyString => false
  | String c r => Ascii.eqb c ":" || has_colon r
  end.

(** An identity whose registry, repository and tag hold no colon (the
    digest, which comes last, may). *)
Definition colon_free (id : Ledger.row) : Prop :=
  let '(registry_name, repo, tag, digest) := id in
  has_colon registry_name = false ∧ has_colon repo = false ∧ has_colon tag = false.

(** The inventory that the comparison reads back from the file written
    for a list of images. *)
Definition inventory (all_images : list string) : gset string :=
  Verify.images_of_lines (Verify.file_lines all_images).

Module Scenarios.

(** The configuration of the [.env] file at the end of the script. *)
Definition env : config := Config "abc-2" "us" 5 3.

(** Does the argument vector begin with these words? *)
Fixpoint starts_with (words argv : list string) : bool :=
  match words, argv with
  | [], _ => true
  | x :: words', y :: argv' => String.eqb x y && starts_with words' argv'
  | _ :: _, [] => false
  end.

(** A child process that ends with status 0 and the given output. *)
Definition succeeds (output : string) : answer completed :=
  Answer (Completed 0 (Some output) (Some "")).

(** An outside with one registry [acr1], in resource group [rg1], with
    one repository [app] and one tag [v1] of digest [sha256:d1]; the
    repository [acr1] exists at the destination; every [gcrane] ends with
    the status [gcrane_status], and the Azure client answers [listing]. *)
Definition outside (gcrane_status : Z) (listing : answer (list string)) : external :=
  External
    (λ c _,
       match c with
       | Shell _ =>
           Answer (Completed gcrane_status (Some "")
                     (Some (if gcrane_status =? 0 then "" else "UNAUTHORIZED")))
       | Argv argv =>
           if starts_with ["az"; "account"; "list"] argv then succeeds "sub-0001
"
           else if starts_with ["az"; "acr"; "show"] argv then succeeds "rg1
"
           else if starts_with ["az"; "acr"; "repository"; "list"] argv then succeeds "app
"
           else if starts_with ["az"; "acr"; "repository"; "show-tags"] argv then succeeds "v1
"
           else if starts_with ["az"; "acr"; "manifest"] argv then succeeds "sha256:d1
"
           else if starts_with ["gcloud"; "artifacts"; "repositories"; "list"] argv
           then succeeds "projects/abc-2/locations/us/repositories/acr1
"
           else succeeds ""
       end)
    (λ _, listing).

(** What [copy_image] logged about its transfers. *)
Definition is_copy_report (e : event) : bool :=
  match e with
  | LogInfo fmt _ => String.eqb fmt "Successfully copied {source_image} to {dest_image}"
  | LogError fmt _ =>
      String.eqb fmt "Failed to copy {source_image} to {dest_image}: {result.stderr.decode()}"
  | _ => false
  end.
Definition copy_reports (tr : list event) : list event := List.filter is_copy_report tr.

(** A first run: no database yet, no file. *)
Definition fresh : world := World None 0 ∅.

(** A difference file of two lines, and a state with this file and an
    empty ledger. *)
Definition two_lines : list string :=
  ["acr1:app:v1:-sha256:aaa
"; "acr1:app:v2:-sha256:bbb
"].
Definition with_difference_file : world :=
  World (Some ∅) 0 {[ "diff.txt" := two_lines ]}.


(** A state in which an earlier run of the verification left a
    difference file. *)
Definition with_stale_difference : world :=
  World None 0 {[ Verify.difference_output_file := ["acr1:app:v0:-sha256:d0
"] ]}.

End Scenarios.

(** ** [gcp-to-azure-image-verify.py]: the two enumerations *)

Module Enumeration.
Import Migration.

(** The double quote of a command line. *)
Definition quote : string := String "034" "".

(** [l[-1]] for the list of a [split], which is never empty. *)
Definition last_of (l : list string) : string := List.last l "".

(** [subprocess.run(cmd, shell=True, capture_output=True, text=True,
    check=True)]: the two streams of a process that ended with status 0. *)
Definition run (ext : external) (cmd : string) : M (string * string) :=
  subprocess_run_text_check ext (Shell cmd).

(** [print(e.stderr)] in the handlers; the text is that of the error
    stream of the process that failed. *)
Definition print_stderr : M unit := Verify.print "{e.stderr}" [AExn CalledProcessError].

(** The loops that append to [image_list]: the list built by the
    iterations, in order. An iteration that raises ends the loop, and the
    list is lost with it. *)
Fixpoint gather {A} (l : list A) (body : A → M (list string)) : M (list string) :=
  match l with
  | [] => ret []
  | x :: l' =>
      here <- body x ;;
      rest <- gather l' body ;;
      ret (here ++ rest)%list
  end.

(** Reading the results of [executor.map] in order: the first task that
    raised raises here. *)
Fixpoint results {B} (futures : list (outcome B)) : M (list B) :=
  match futures with
  | [] => ret []
  | future :: futures' =>
      x <- future_result future ;;
      rest <- results futures' ;;
      ret (x :: rest)
  end.

(** [list(tqdm(executor.map(f, l), ...))] in [with ThreadPoolExecutor()]:
    every task is submitted, then the results are read. *)
Definition executor_map {A B} (f : A → M B) (l : list A) : M (list B) :=
  futures <- submit_all f l ;;
  results futures.

Section script.
Context (ext : external).

(** What the functions read in the text that a command prints, through
    [json.loads] and the operations they apply to the parsed value. Each
    is the exception of the first operation that raises, if any; nothing
    else happens between [json.loads] and these operations.

    [items s]: [str(x)] for the [x] that a [for] over [json.loads(s)]
    goes through.
    [first_item s]: for [v = json.loads(s)], nothing when [v] is falsy and
    [str(v[0])] otherwise.
    [registry_names s]: for every registry that a [for] over
    [json.loads(s)] goes through, [registry.get('name')] as the string
    that [split] is called on.
    [images s]: for every [image] that a [for] over [json.loads(s)] goes
    through, the string [image.get('package', '')], [str] of
    [image.get('version', '')], and [str(tag)] for the [tag] of a [for]
    over [image.get('tags', [])], none when that value is falsy. *)
Context (items : string → answer (list string)).
Context (first_item : string → answer (option string)).
Context (registry_names : string → answer (list (answer string))).
Context (images : string → answer (list (answer (string * string * list string)))).

(** *** Azure *)

Definition get_all_acr_names : M (list string) :=
  except_CalledProcessError
    (proc <- run ext "az acr list --query '[].name' --output json" ;;
     of_answer (items (fst proc)))
    (Verify.print "Error listing Azure Container Registries:" [] ;;
     print_stderr ;;
     ret []).

(** The body of [for tag in tags]. *)
Definition tag_images (registry_name repo tag : string) : M (list string) :=
  proc_manifest <- run ext
    ("az acr repository show-manifests --name " +:+ registry_name
       +:+ " --repository " +:+ repo
       +:+ " --query " +:+ quote +:+ "[?tags && contains(@.tags, '" +:+ tag
       +:+ "')].digest" +:+ quote +:+ " --output json") ;;
  digests <- of_answer (first_item (fst proc_manifest)) ;;
  match digests with
  | Some digest => ret [Verify.image_identifier (registry_name, repo, tag, digest)]
  | None => ret []
  end.

(** The body of [for repo in repositories]. *)
Definition repo_images (registry_name repo : string) : M (list string) :=
  proc_tags <- run ext
    ("az acr repository show-tags --name " +:+ registry_name
       +:+ " --repository " +:+ repo +:+ " --output json") ;;
  tags <- of_answer (items (fst proc_tags)) ;;
  gather tags (tag_images registry_name repo).

Definition list_acr_images_with_digests (registry_name : string) : M (list string) :=
  except_CalledProcessError
    (proc_repos <- run ext
       ("az acr repository list --name " +:+ registry_name +:+ " --output json") ;;
     repositories <- of_answer (items (fst proc_repos)) ;;
     gather repositories (repo_images registry_name))
    (Verify.print "Error accessing registry '{registry_name}':" [AStr registry_name] ;;
     print_stderr ;;
     ret []).

Definition get_acr : M unit :=
  acr_names <- get_all_acr_names ;;
  all_images <- executor_map list_acr_images_with_digests acr_names ;;
  Verify.get_acr (concat all_images).

(** *** Google *)

Definition get_all_artifact_registries : M (list (answer string)) :=
  except_CalledProcessError
    (proc <- run ext "gcloud artifacts repositories list --format=json" ;;
     of_answer (registry_names (strip (fst proc))))
    (Verify.print "Error listing Artifact Registries:" [] ;;
     print_stderr ;;
     ret []).

Definition get_tags_for_digest (location project_id repository_id image_name digest : string)
  : M (list string) :=
  except_CalledProcessError
    (let repository_path :=
       location +:+ "-docker.pkg.dev/" +:+ project_id +:+ "/" +:+ repository_id
         +:+ "/" +:+ image_name in
     proc_tags <- run ext
       ("gcloud container images list-tags " +:+ repository_path
          +:+ " --filter='digest:" +:+ digest +:+ "' --format='get(tags)'") ;;
     let tags_output := strip (fst proc_tags) in
     ret (if truthy tags_output then split ";" tags_output else []))
    (Verify.print "Error retrieving tags for digest '{digest}' in image '{image_name}':"
       [AStr digest; AStr image_name] ;;
     print_stderr ;;
     ret []).

(** The two forms of an entry of the inventory of the destination. *)
Definition tagged (repository_id image_name tag digest : string) : string :=
  repository_id +:+ "/" +:+ image_name +:+ ":" +:+ tag +:+ ":-" +:+ digest.
Definition untagged (repository_id image_name digest : string) : string :=
  repository_id +:+ ":" +:+ image_name +:+ ":<no-tag>:-" +:+ digest.

(** The body of [for image in images]. *)
Definition image_entries (location project_id repository_id : string)
    (image : answer (string * string * list string)) : M (list string) :=
  fields <- of_answer image ;;
  let '(package_path, digest, tags) := fields in
  let image_name := last_of (split "/" package_path) in
  tags' <- (match tags with
            | [] => get_tags_for_digest location project_id repository_id image_name digest
            | _ => ret tags
            end) ;;
  match tags' with
  | [] => ret [untagged repository_id image_name digest]
  | _ => ret ((fun tag => tagged repository_id image_name tag digest) <$> tags')
  end.

Definition list_docker_images_for_repository (location project_id repository_id : string)
  : M (list string) :=
  except_CalledProcessError
    (let repository_path :=
       location +:+ "-docker.pkg.dev/" +:+ project_id +:+ "/" +:+ repository_id in
     proc_images <- run ext
       ("gcloud artifacts docker images list " +:+ repository_path +:+ " --format=json") ;;
     imgs <- of_answer (images (strip (fst proc_images))) ;;
     gather imgs (image_entries location project_id repository_id))
    (Verify.print "Error listing images for repository '{repository_id}':"
       [AStr repository_id] ;;
     print_stderr ;;
     ret []).

(** [process_registry] of [get_gar]. *)
Definition process_registry (registry : answer string) : M (list string) :=
  name <- of_answer registry ;;
  location <- index (split "/" name) 3 ;;
  project_id <- index (split "/" name) 1 ;;
  let repository_id := last_of (split "/" name) in
  list_docker_images_for_repository location project_id repository_id.

Definition get_gar : M unit :=
  registries <- get_all_artifact_registries ;;
  all_images <- executor_map process_registry registries ;;
  Verify.get_gar (concat all_images).

(** The script with its enumerations. *)
Definition main : M unit :=
  Verify.remove_old_files ;;
  get_acr ;;
  get_gar ;;
  difference_created <- Verify.compare_registries Verify.acr_output_file
                          Verify.gcr_output_file Verify.difference_output_file ;;
  nonempty <- (if difference_created : bool
               then n <- Verify.getsize Verify.difference_output_file ;; ret (0 <? n)%nat
               else ret false) ;;
  if nonempty : bool then
    Verify.print "
**** Difference in ACR to GAR Found. Content stored in {difference_output_file}"
      [AStr Verify.difference_output_file]
  else
    Verify.print "No images to copy. The difference file was not created or is empty." [].

End script.
End Enumeration.

(** ** Vocabulary of the further properties *)

Module More.

(** The state in which [wrapper] makes its call number [k + 1] of [func],
    when the [k] calls before it raised (the [except] clause leaves the
    state as it finds it). *)
Fixpoint after_failures {A} (func : M A) (k : nat) (w : world) : world :=
  match k with
  | O => w
  | S k' => after_failures func k' (post (func w))
  end.

(** An operation that is refused as long as fewer than two calls were
    made to the outside, and answers after that. *)
Definition busy_twice : M string :=
  n <- tick ;;
  if (n <? 2)%nat then raise (RemoteError "busy") else ret "ready".

(** Number of child processes started in a trace. *)
Definition spawned (tr : list event) : nat :=
  length (List.filter (λ e, match e with Spawn _ => true | _ => false end) tr).

(** An outside in which every child process ends with status 1. *)
Definition every_process_fails : external :=
  External (λ _ _, Answer (Completed 1 (Some "") (Some "ERROR")))
           (λ _, Answer []).

(** The command line of [copy_image] in [process_repository] for a tag. *)
Definition scan_copy_command (cfg : config) (acr_name repo tag : string) : string :=
  "gcrane cp "
    +:+ (acr_name +:+ ".azurecr.io/" +:+ repo +:+ ":" +:+ tag)
    +:+ " "
    +:+ (GCR_REGION cfg +:+ "-docker.pkg.dev/" +:+ GCR_PROJECT_ID cfg +:+ "/"
           +:+ acr_name +:+ "/" +:+ repo +:+ ":" +:+ tag).

(** No shell command line is started by the event. *)
Definition no_shell (e : event) : Prop := ∀ line, e ≠ Spawn (Shell line).

(** A shell command line started by the event is the copy of a tag of
    the repository. *)
Definition copies_of (cfg : config) (acr_name repo : string) (e : event) : Prop :=
  ∀ line, e = Spawn (Shell line) → ∃ tag, line = scan_copy_command cfg acr_name repo tag.

(** The row is an identity of the repository. *)
Definition row_of (acr_name repo : string) (r : Ledger.row) : Prop :=
  ∃ tag digest, r = (acr_name, repo, tag, digest).

(** An outside in which every [az] and [gcloud] process prints
    [sha256:d1], and the state with the identity
    [(acr1, app, v1, sha256:d1)] in the ledger. *)
Definition digest_d1 : external := every_process 0 "sha256:d1" "".
Definition known_d1 : world :=
  World (snd (Ledger.insert_processed "acr1" "app" "v1" "sha256:d1" (Some ∅))) 0 ∅.
Definition initialised : world := World (Some ∅) 0 ∅.

(** A shell command line started by the event is the copy of a tag of
    some repository of the registry. *)
Definition copies_from (cfg : config) (acr_name : string) (e : event) : Prop :=
  ∀ line, e = Spawn (Shell line) →
          ∃ repo tag, line = scan_copy_command cfg acr_name repo tag.

(** The row is an identity of the registry. *)
Definition row_from (acr_name : string) (r : Ledger.row) : Prop :=
  ∃ repo tag digest, r = (acr_name, repo, tag, digest).

(** No child process is started by the event. *)
Definition no_spawn (e : event) : Prop := ∀ c, e ≠ Spawn c.

(** The limits of a run that cannot scan: no concurrent job at all, and
    a negative number of them. *)
Definition no_jobs : config := Config "abc-2" "us" 0 3.
Definition negative_jobs : config := Config "abc-2" "us" (-1) 3.

(** An outside with the two registries [acr1] and [acr2], in which every
    child process succeeds and prints nothing. *)
Definition two_registries : external :=
  External (λ _ _, Answer (Completed 0 (Some "") (Some "")))
           (λ _, Answer ["acr1"; "acr2"]).
(** The command line with which [ensure_gar_repository] looks for the
    repository. *)
Definition gar_listing (cfg : config) (project_id repository_name : string) : cmd :=
  Argv ["gcloud"; "artifacts"; "repositories"; "list";
        "--project"; project_id; "--location"; GCR_REGION cfg;
        "--filter"; "name:projects/" +:+ project_id +:+ "/locations/"
                      +:+ GCR_REGION cfg +:+ "/repositories/" +:+ repository_name;
        "--format"; "value(name)"].

(** An outside in which every child process succeeds and prints nothing:
    no repository is listed. *)
Definition nothing_listed : external := every_process 0 "" "".

(** The string holds neither a line feed nor a carriage return: written
    on a line of its own, it is read back as one line. *)
Fixpoint one_line (s : string) : bool :=
  match s with
  | EmptyString => true
  | String c r => negb (Ascii.eqb c "010") && negb (Ascii.eqb c "013") && one_line r
  end.

(** The three files of the verification script. *)
Definition output_files : list string :=
  [Verify.acr_output_file; Verify.gcr_output_file; Verify.difference_output_file].

(** Two inventories of the source and of the destination, for the
    witnesses. *)
Definition acr_two : list string := ["acr1:app:v1:-sha256:aaa"; "acr1:app:v2:-sha256:bbb"].
Definition gar_one : list string := ["acr1:app:v1:-sha256:aaa"].

(** Does the string hold a slash? *)
Fixpoint has_slash (s : string) : bool :=
  match s with
  | EmptyString => false
  | String c r => Ascii.eqb c "/" || has_slash r
  end.

(** An entry of the inventory of the source for the registry. *)
Definition acr_entry (registry_name : string) (x : string) : Prop :=
  ∃ repo tag digest, x = Verify.image_identifier (registry_name, repo, tag, digest).

(** An entry of the inventory of the destination for the repository: an
    image without tag, or one of its tags; the name of the image is the
    last segment of its path. *)
Definition gar_entry (repository_id : string) (y : string) : Prop :=
  ∃ image_name digest,
    has_slash image_name = false ∧
    (y = Enumeration.untagged repository_id image_name digest ∨
     ∃ tag, y = Enumeration.tagged repository_id image_name tag digest).

(** The event starts a command line of the shell. *)
Definition shell_only (e : event) : Prop := ∃ line, e = Spawn (Shell line).

(** The piece of script leaves the files as they are. *)
Definition keeps_files {A} (m : M A) : Prop := ∀ w, files (post (m w)) = files w.

(** A reading of the printed lists for the witnesses: the words of the
    text; the first word, if any. *)
Definition printed_words (s : string) : answer (list string) := Answer (split_ws s).
Definition first_printed_word (s : string) : answer (option string) :=
  Answer (head (split_ws s)).

(** The command lines of [list_acr_images_with_digests]. *)
Definition repositories_command (registry_name : string) : string :=
  "az acr repository list --name " +:+ registry_name +:+ " --output json".
Definition tags_command (registry_name repo : string) : string :=
  "az acr repository show-tags --name " +:+ registry_name
    +:+ " --repository " +:+ repo +:+ " --output json".
Definition manifest_command (registry_name repo tag : string) : string :=
  "az acr repository show-manifests --name " +:+ registry_name
    +:+ " --repository " +:+ repo
    +:+ " --query " +:+ Enumeration.quote +:+ "[?tags && contains(@.tags, '" +:+ tag
    +:+ "')].digest" +:+ Enumeration.quote +:+ " --output json".

(** The images listed for a registry whose processes all succeed:
    repository after repository, tag after tag, each tag that has a
    digest. *)
Definition listed (registry_name : string) (repos : list string)
    (tags_of : string → list string) (digest_of : string → string → option string)
  : list string :=
  concat ((λ repo,
             concat ((λ tag,
                        match digest_of repo tag with
                        | Some digest =>
                            [Verify.image_identifier (registry_name, repo, tag, digest)]
                        | None => []
                        end) <$> tags_of repo)) <$> repos).

(** What the [az] of the witnesses prints: two repositories, two tags in
    each, one digest for every tag. *)
Definition az_prints (line : string) : string :=
  if String.prefix "az acr repository list" line then "app web"
  else if String.prefix "az acr repository show-tags" line then "v1 v2"
  else "sha256:d1".
Definition small_registry : external :=
  External (λ c _, match c with
                   | Shell line => Answer (Completed 0 (Some (az_prints line)) (Some ""))
                   | Argv _ => Fails OSError
                   end)
           (λ _, Answer []).

(** An entry of the inventory of the source whose names are those of a
    registry, a repository and a tag: no colon in them, no slash in the
    name of the registry, and the tag is not the mark of an image
    without tag. *)
Definition source_entry (x : string) : Prop :=
  ∃ registry_name repo tag digest,
    x = Verify.image_identifier (registry_name, repo, tag, digest) ∧
    has_colon registry_name = false ∧ has_slash registry_name = false ∧
    has_colon repo = false ∧ has_colon tag = false ∧ tag ≠ "<no-tag>".

(** An entry of the inventory of the destination, for a repository whose
    name holds no colon. *)
Definition destination_entry (y : string) : Prop :=
  ∃ repository_id image_name digest,
    has_colon repository_id = false ∧
    ((y = Enumeration.untagged repository_id image_name digest ∧
      has_colon image_name = false) ∨
     ∃ tag, y = Enumeration.tagged repository_id image_name tag digest).

(** A destination that holds both images of [acr_two]. *)
Definition gar_two : list string := ["acr1/app:v1:-sha256:aaa"; "acr1/app:v2:-sha256:bbb"].

(** A state with the two inventory files written for [acr_two] and
    [gar_two]. *)
Definition two_inventories : world :=
  World None 0
    (<[Verify.acr_output_file := Verify.file_lines acr_two]>
       (<[Verify.gcr_output_file := Verify.file_lines gar_two]> ∅)).

(** The end of the verification script, after the two inventories are
    written: the comparison and the message on its result. *)
Definition verdict : M unit :=
  difference_created <- Verify.compare_registries Verify.acr_output_file
                          Verify.gcr_output_file Verify.difference_output_file ;;
  nonempty <- (if difference_created : bool
               then n <- Verify.getsize Verify.difference_output_file ;; ret (0 <? n)%nat
               else ret false) ;;
  if nonempty : bool then
    Verify.print "
**** Difference in ACR to GAR Found. Content stored in {difference_output_file}"
      [AStr Verify.difference_output_file]
  else
    Verify.print "No images to copy. The difference file was not created or is empty." [].


(** A command line started by the event is the copy, as the full scan
    asks for it, of an image named on a line of [lines]. *)
Definition copies_image_of (cfg : config) (lines : list string) (e : event) : Prop :=
  ∀ command,
    e = Spawn (Shell command) →
    ∃ registry_name repo tag digest line,
      line ∈ lines ∧
      strip line = Verify.image_identifier (registry_name, repo, tag, digest) ∧
      command = scan_copy_command cfg registry_name repo tag.

(** The argument vectors of the [az] lookups and listings of the full
    scan. *)
Definition resource_group_argv (acr_name : string) : list string :=
  ["az"; "acr"; "show"; "--name"; acr_name; "--query"; "resourceGroup"; "--output"; "tsv"].
Definition repositories_argv (acr_name : string) : list string :=
  ["az"; "acr"; "repository"; "list"; "--name"; acr_name; "--output"; "tsv"].
Definition tags_argv (acr_name repo : string) : list string :=
  ["az"; "acr"; "repository"; "show-tags"; "--name"; acr_name;
   "--repository"; repo; "--output"; "tsv"].
Definition digest_argv (acr_name repo tag : string) : list string :=
  ["az"; "acr"; "manifest"; "list-metadata"; "-r"; acr_name; "-n"; repo; "--query";
   "[?tags[?contains(@, '" +:+ tag +:+ "')]].digest"; "--output"; "tsv";
   "--only-show-errors"].

(** The identities that a full scan goes through when [az] prints
    [prints argv] for the argument vector [argv]: for every registry with
    a resource group, every repository and every tag with a digest. *)
Definition scanned_tag (prints : list string → string) (acr_name repo tag : string)
  : list Ledger.row :=
  let digest := strip (prints (digest_argv acr_name repo tag)) in
  if truthy digest then [(acr_name, repo, tag, digest)] else [].
Definition scanned_repository (prints : list string → string) (acr_name repo : string)
  : list Ledger.row :=
  split_ws (prints (tags_argv acr_name repo)) ≫= scanned_tag prints acr_name repo.
Definition scanned_registry (prints : list string → string) (acr_name : string)
  : list Ledger.row :=
  if truthy (strip (prints (resource_group_argv acr_name)))
  then split_ws (prints (repositories_argv acr_name)) ≫= scanned_repository prints acr_name
  else [].
Definition scanned (prints : list string → string) (names : list string)
  : list Ledger.row :=
  names ≫= scanned_registry prints.

(** From a state with a table, the piece of script returns and leaves the
    table with the rows added. *)
Definition records (rows : list Ledger.row) (m : M unit) : Prop :=
  ∀ w t, ledger w = Some t →
         out (m w) = Ret tt ∧ ledger (post (m w)) = Some (list_to_set rows ∪ t).

(** What the [az] of the witness prints, and an outside with one
    registry in which [az] succeeds and every [gcrane] fails. *)
Definition az_tsv (argv : list string) : string :=
  match argv with
  | "az" :: "acr" :: "show" :: _ => "rg1"
  | "az" :: "acr" :: "repository" :: "list" :: _ => "app"
  | "az" :: "acr" :: "repository" :: "show-tags" :: _ => "v1 v2"
  | _ => "sha256:d1"
  end.
Definition copies_fail : external :=
  External (λ c _, match c with
                   | Argv argv => Answer (Completed 0 (Some (az_tsv argv)) (Some ""))
                   | Shell _ => Answer (Completed 1 (Some "") (Some "UNAUTHORIZED"))
                   end)
           (λ _, Answer ["acr1"]).



(** An outside in which the source and the destination hold the same
    image: the registry [acr1] has the repository [app] with the tag [v1]
    of digest [sha256:aaa], and the repository [acr1] of the destination
    has the image [app] with the same tag and digest, where the migration
    script copies it. The [gcloud] listings are read as their JSON text
    says. *)
Definition same_image_prints (line : string) : string :=
  if String.prefix "az acr list" line then "acr1"
  else if String.prefix "az acr repository list" line then "app"
  else if String.prefix "az acr repository show-tags" line then "v1"
  else if String.prefix "az acr repository show-manifests" line then "sha256:aaa"
  else "[...]".
Definition same_image : external :=
  External (λ c _, match c with
                   | Shell line => Answer (Completed 0 (Some (same_image_prints line)) (Some ""))
                   | Argv _ => Fails OSError
                   end)
           (λ _, Answer []).
Definition one_registry (s : string) : answer (list (answer string)) :=
  Answer [Answer "projects/abc-2/locations/us/repositories/acr1"].
Definition one_image (s : string) : answer (list (answer (string * string * list string))) :=
  Answer [Answer ("us-docker.pkg.dev/abc-2/acr1/app", "sha256:aaa", ["v1"])].

(** The state with the two inventories written for this image. *)
Definition same_image_inventories : world :=
  World None 0
    (<[Verify.acr_output_file :=
         Verify.file_lines [Verify.image_identifier ("acr1", "app", "v1", "sha256:aaa")]]>
       (<[Verify.gcr_output_file :=
            Verify.file_lines [Enumeration.tagged "acr1" "app" "v1" "sha256:aaa"]]> ∅)).

End More.

(** * Properties *)

Import Ledger Retry Migration Replay Scenarios.

(** ** The monad *)

Lemma out_bind {A B} (m : M A) (f : A → M B) w :
  out (bind m f w) =
  match out (m w) with
  | Ret a => out (f a (post (m w)))
  | Raise e => Raise e
  | Exit c => Exit c
  end.
Proof. unfold bind. by destruct (out (m w)). Qed.

Lemma bind_ret_l {A B} (a : A) (f : A → M B) w : bind (ret a) f w = f a w.
Proof. unfold bind, ret; simpl. by destruct (f a w). Qed.

(** ** The retry decorator *)

Section retry_facts.
Context {A : Type}.
Variables (retries delay : Z) (name : string) (func : M A).

Lemma length_range n : length (range n) = Z.to_nat n.
Proof. unfold range. by rewrite length_fmap, length_seq. Qed.

Lemma handler_returns e i w :
  0 ≤ delay →
  handler retries delay e i w =
  Result (Ret tt) w
    [LogWarning "Retrying due to: {e}, attempt {i+1}/{retries}"
       [AExn e; AInt (i + 1); AInt retries];
     Sleep delay].
Proof.
  intros Hd. unfold handler, time_sleep, bind, emit; simpl.
  destruct (Z.ltb_spec delay 0) as [Hlt|_]; [lia|done].
Qed.


Lemma wrapper_run_always_fails js w :
  0 ≤ delay →
  (∀ w', ∃ e, out (func w') = Raise e) →
  snd (wrapper_run retries delay name func js w) = length js ∧
  out (fst (wrapper_run retries delay name func js w)) = Ret None.
Proof.
  intros Hd Hf. revert w. induction js as [|i js IH]; intros w; cbn [wrapper_run]; [done|].
  destruct (Hf w) as [e ->]. rewrite handler_returns by done. cbn [out post trace].
  specialize (IH (post (func w))).
  destruct (wrapper_run _ _ _ _ js _) as [r' n]; cbn [fst snd out length] in *.
  destruct IH as [-> ->]. done.
Qed.

(** A decorated function whose body never leaves through [SystemExit]
    returns, whatever its body does. *)
Lemma wrapper_run_returns js w :
  0 ≤ delay →
  (∀ w' c, out (func w') ≠ Exit c) →
  ∃ o, out (fst (wrapper_run retries delay name func js w)) = Ret o.
Proof.
  intros Hd Hf. revert w. induction js as [|i js IH]; intros w; cbn [wrapper_run];
    [by eexists|].
  destruct (out (func w)) as [a|e|c] eqn:Ho; cbn [fst out].
  - by eexists.
  - rewrite handler_returns by done. cbn [out post trace].
    destruct (IH (post (func w))) as [o Hr].
    destruct (wrapper_run _ _ _ _ js _) as [r' n]; cbn [fst out] in *. by eexists.
  - by destruct (Hf w c).
Qed.
End retry_facts.




(** ** The ledger *)


Lemma matching_absent (id : row) (l : list row) :
  id ∉ l → matching id l = 0%nat.
Proof.
  unfold matching. induction l as [|x l IH]; intros Hn; [done|].
  apply not_elem_of_cons in Hn as [Hne Hn].
  rewrite filter_cons. destruct (decide (x = id)); [congruence|]. by apply IH.
Qed.

Lemma matching_NoDup (id : row) (l : list row) :
  NoDup l → id ∈ l → matching id l = 1%nat.
Proof.
  induction 1 as [|x l Hx Hl IH]; intros Hin.
  - by apply elem_of_nil in Hin.
  - unfold matching. rewrite filter_cons. destruct (decide (x = id)) as [->|Hne].
    + simpl. f_equal. by apply matching_absent.
    + apply elem_of_cons in Hin as [->|Hin]; [done|]. by apply IH.
Qed.

Lemma insert_all_table (rows : list row) (t : gset row) :
  insert_all rows (Some t) = (Ret tt, Some (list_to_set rows ∪ t)).
Proof.
  revert t. induction rows as [|[[[a r] g] h] rows IH]; intros t; simpl.
  - f_equal. f_equal. set_solver.
  - rewrite IH. f_equal. f_equal. set_solver.
Qed.

(** C4. After a successful insert of an identity, a second insert of it
    succeeds too and changes nothing; the full listing then holds exactly
    one record equal to the identity; [check_if_processed] answers true
    after the first insert, after the second, and after any further
    inserts, of this or of other identities. *)
Theorem ledger_insert_idempotent (acr_name repo tag digest : string) (d d1 : db) :
  insert_processed acr_name repo tag digest d = (Ret tt, d1) →
  insert_processed acr_name repo tag digest d1 = (Ret tt, d1) ∧
  (∃ listing, get_all_processed d1 = (Ret listing, d1) ∧
              matching (acr_name, repo, tag, digest) listing = 1%nat) ∧
  check_if_processed acr_name repo tag digest d1 = (Ret true, d1) ∧
  ∀ more : list row,
    ∃ d2, insert_all ((acr_name, repo, tag, digest) :: more) d1 = (Ret tt, d2) ∧
          check_if_processed acr_name repo tag digest d2 = (Ret true, d2) ∧
          ∃ listing, get_all_processed d2 = (Ret listing, d2) ∧
                     matching (acr_name, repo, tag, digest) listing = 1%nat.
Proof.
  intros Hins. destruct d as [t|]; simpl in Hins; [|done].
  injection Hins as <-. set (id := (acr_name, repo, tag, digest)).
  assert (Hlist : ∀ s : gset row, id ∈ s → matching id (elements s) = 1%nat).
  { intros s Hs. apply matching_NoDup; [apply NoDup_elements|]. by apply elem_of_elements. }
  assert (Hin : id ∈ ({[id]} ∪ t : gset row)) by set_solver.
  repeat split.
  - simpl. f_equal. f_equal. fold id. set_solver.
  - eexists. split; [done|]. by apply Hlist.
  - simpl. fold id. by rewrite bool_decide_eq_true_2.
  - intros more. eexists. split; [apply (insert_all_table (id :: more))|].
    assert (Hin2 : id ∈ (list_to_set (id :: more) ∪ ({[id]} ∪ t) : gset row)) by set_solver.
    split.
    + simpl. fold id. by rewrite bool_decide_eq_true_2.
    + eexists. split; [done|]. by apply Hlist.
Qed.

Lemma ledger_insert_idempotent_witness :
  insert_processed "acr1" "app" "v1" "sha256:d1" (Some ∅)
    = (Ret tt, Some ({[ ("acr1", "app", "v1", "sha256:d1") ]} ∪ ∅)) ∧
  check_if_processed "acr1" "app" "v1" "sha256:d1"
    (Some ({[ ("acr1", "app", "v1", "sha256:d1") ]} ∪ ∅))
    = (Ret true, Some ({[ ("acr1", "app", "v1", "sha256:d1") ]} ∪ ∅)).
Proof.
  assert (H : insert_processed "acr1" "app" "v1" "sha256:d1" (Some ∅)
              = (Ret tt, Some ({[ ("acr1", "app", "v1", "sha256:d1") ]} ∪ ∅)))
    by reflexivity.
  split; [exact H|].
  exact (proj1 (proj2 (proj2
    (ledger_insert_idempotent "acr1" "app" "v1" "sha256:d1" (Some ∅) _ H)))).
Defined.

(** ** A program logic for the scripts

    [sound R E Q m]: from any state, [m] takes the ledger to one related
    to it by [R], emits only events satisfying [E], does not leave through
    [SystemExit], and the value it returns satisfies [Q]. *)


Section logic.
Context (R : db → db → Prop) (E : event → Prop).
Hypothesis R_refl : ∀ d, R d d.
Hypothesis R_trans : ∀ a b c, R a b → R b c → R a c.
Hypothesis E_msg : ∀ e, is_call e = false → E e.

Local Abbreviation ok := (sound R E).


Lemma sound_ret {A} (Q : A → Prop) a : Q a → ok Q (ret a).
Proof. intros HQ w. simpl. auto. Qed.

Lemma sound_raise {A} (Q : A → Prop) e : ok Q (raise e).
Proof. intros w. simpl. auto. Qed.

Lemma sound_emit (Q : unit → Prop) e : E e → Q tt → ok Q (emit e).
Proof. intros He HQ w. simpl. auto. Qed.

Lemma sound_weaken {A} (P Q : A → Prop) m :
  ok P m → (∀ a, P a → Q a) → ok Q m.
Proof.
  intros Hm HPQ w. destruct (Hm w) as (HI & HE & HP). repeat split; try done.
  destruct (out (m w)); simpl in *; auto.
Qed.

Lemma sound_bind {A B} (P : A → Prop) (Q : B → Prop) m (f : A → M B) :
  ok P m → (∀ a, P a → ok Q (f a)) → ok Q (bind m f).
Proof.
  intros Hm Hf w. destruct (Hm w) as (HI & HE & HP). unfold bind.
  destruct (out (m w)) as [a|e|c]; simpl in *; try done.
  destruct (Hf a HP (post (m w))) as (HI' & HE' & HQ).
  repeat split; [by eapply R_trans | by apply Forall_app | done].
Qed.

Lemma sound_try_except {A} (Q : A → Prop) m h :
  ok Q m → (∀ e, ok Q (h e)) → ok Q (try_except m h).
Proof.
  intros Hm Hh w. destruct (Hm w) as (HI & HE & HP). unfold try_except.
  destruct (out (m w)) as [a|e|c] eqn:Ho; cbn [post_ok] in *;
    [by rewrite Ho | | done].
  destruct (Hh e (post (m w))) as (HI' & HE' & HQ). cbn [out post trace].
  repeat split; [by eapply R_trans | by apply Forall_app | done].
Qed.

Lemma sound_tick (Q : nat → Prop) : (∀ n, Q n) → ok Q tick.
Proof. intros HQ w. simpl. auto. Qed.

Lemma sound_of_answer {A} (a : answer A) : ok (λ _, True) (of_answer a).
Proof. destruct a; [by apply sound_ret | apply sound_raise]. Qed.

Lemma sound_with_ledger {A} (Q : A → Prop) (op : db → outcome A * db) :
  (∀ d, R d (snd (op d)) ∧ post_ok Q (fst (op d))) → ok Q (with_ledger op).
Proof.
  intros Hop w. unfold with_ledger. destruct (Hop (ledger w)) as [HI HQ].
  destruct (op (ledger w)) as [o d]. simpl in *. auto.
Qed.

Lemma sound_for_each {A} (l : list A) (body : A → M unit) :
  (∀ x, x ∈ l → ok (λ _, True) (body x)) →
  ok (λ _, True) (for_each l body).
Proof.
  induction l as [|x l IH]; intros Hb; simpl.
  - by apply sound_ret.
  - apply (sound_bind (λ _, True)); [apply Hb; left|].
    intros _ _. apply IH. intros y Hy. apply Hb. by right.
Qed.

Lemma sound_submit {A} (Q : A → Prop) (task : M A) :
  ok Q task → ok (post_ok Q) (submit task).
Proof. intros Ht w. destruct (Ht w) as (HI & HE & HP). unfold submit. simpl. auto. Qed.

Lemma sound_future_result {A} (Q : A → Prop) (f : outcome A) :
  post_ok Q f → ok Q (future_result f).
Proof.
  destruct f as [a|e|c]; simpl; intros H; [by apply sound_ret | apply sound_raise | done].
Qed.

Lemma sound_time_sleep d : ok (λ _, True) (time_sleep d).
Proof.
  unfold time_sleep. destruct (d <? 0); [apply sound_raise|].
  apply sound_emit; [by apply E_msg | done].
Qed.

Lemma sound_handler retries delay e i : ok (λ _, True) (handler retries delay e i).
Proof.
  unfold handler. apply (sound_bind (λ _, True)); [by apply sound_emit; [apply E_msg|] |].
  intros _ _. apply sound_time_sleep.
Qed.

Lemma sound_wrapper_run {A} (P : A → Prop) retries delay name (func : M A) js w :
  ok P func →
  let r := fst (wrapper_run retries delay name func js w) in
  R (ledger w) (ledger (post r)) ∧ Forall E (trace r) ∧
  post_ok (λ o, ∀ a, o = Some a → P a) (out r).
Proof.
  intros Hf. revert w. induction js as [|i js IH]; intros w; cbn [wrapper_run].
  - cbn. repeat split; [apply R_refl | | done].
    apply Forall_singleton. by apply E_msg.
  - destruct (Hf w) as (HI & HE & HP).
    destruct (out (func w)) as [a|e|c]; cbn [fst out post trace] in *; try done.
    { repeat split; try done. simpl. by intros ? [= <-]. }
    destruct (sound_handler retries delay e i (post (func w))) as (HI' & HE' & HP').
    destruct (out (handler retries delay e i (post (func w)))) as [[]|e'|c];
      cbn [fst out post trace post_ok] in *; try done.
    + specialize (IH (post (handler retries delay e i (post (func w))))).
      destruct (wrapper_run _ _ _ _ js _) as [r' n]. cbn [fst out post trace] in *.
      destruct IH as (HI'' & HE'' & HP'').
      repeat split; [eauto | rewrite !Forall_app; auto | done].
    + repeat split; [eauto | rewrite !Forall_app; auto].
Qed.

Lemma sound_wrapper {A} (P : A → Prop) retries delay name (func : M A) :
  ok P func →
  ok (λ o, ∀ a, o = Some a → P a) (wrapper retries delay name func).
Proof. intros Hf w. by apply sound_wrapper_run. Qed.
End logic.

(** ** Soundness of the functions of the migration script *)

Section migration_logic.
Context (cfg : config) (ext : external).
Context (R : db → db → Prop) (E : event → Prop).
Hypothesis R_refl : ∀ d, R d d.
Hypothesis R_trans : ∀ a b c, R a b → R b c → R a c.
Hypothesis E_msg : ∀ e, is_call e = false → E e.

Local Abbreviation ok := (sound R E).
Local Abbreviation any := (λ _, True).

Local Ltac side := try first [exact R_refl | exact R_trans | exact E_msg].
Local Ltac step := first
  [ apply sound_ret; side; constructor
  | apply sound_raise; side
  | apply sound_emit; side; [apply E_msg; reflexivity | constructor]
  | apply sound_tick; side; intros; constructor
  | apply sound_of_answer; side
  | apply (sound_bind R E R_trans any); [|intros ? _] ].

Lemma sound_subprocess_run c : E (Spawn c) → ok any (subprocess_run ext c).
Proof.
  intros Hc. unfold subprocess_run.
  apply (sound_bind R E R_trans any); [by apply sound_tick|]. intros n _.
  apply (sound_bind R E R_trans any); [by apply sound_emit|]. intros _ _.
  by apply sound_of_answer.
Qed.

Lemma sound_decode b : ok any (decode b).
Proof. destruct b; simpl; by step. Qed.

Lemma sound_copy_image_body src dst :
  E (Spawn (Shell ("gcrane cp " +:+ src +:+ " " +:+ dst))) →
  ok any (copy_image_body ext src dst).
Proof.
  intros Hc. unfold copy_image_body.
  step; [by apply sound_subprocess_run|].
  destruct (returncode _ =? 0); [by step|].
  step; [apply sound_decode|]. by step.
Qed.

Lemma sound_copy_image src dst :
  E (Spawn (Shell ("gcrane cp " +:+ src +:+ " " +:+ dst))) →
  ok any (copy_image cfg ext src dst).
Proof.
  intros Hc. unfold copy_image, retry. step; [|by step].
  eapply sound_weaken; [apply sound_wrapper; try done|done].
  by apply sound_copy_image_body.
Qed.

Lemma sound_create_gcr_repository_body repo_name :
  (∀ argv, E (Spawn (Argv argv))) →
  ok any (create_gcr_repository_body ext repo_name).
Proof.
  intros Hargv. unfold create_gcr_repository_body.
  step; [by apply sound_subprocess_run|].
  destruct (returncode _ =? 0); [by step|].
  step; [apply sound_decode|]. destruct (contains _ _); [by step|].
  step; [apply sound_decode|]. by step.
Qed.

Lemma sound_create_gcr_repository repo_name :
  (∀ argv, E (Spawn (Argv argv))) →
  ok any (create_gcr_repository cfg ext repo_name).
Proof.
  intros Hargv. unfold create_gcr_repository, retry. step; [|by step].
  eapply sound_weaken; [apply sound_wrapper; try done|done].
  by apply sound_create_gcr_repository_body.
Qed.

Lemma sound_except_CalledProcessError {A} (Q : A → Prop) (m h : M A) :
  ok Q m → ok Q h → ok Q (except_CalledProcessError m h).
Proof.
  intros Hm Hh. apply sound_try_except; try done.
  intros []; first [done | by apply sound_raise].
Qed.

Lemma sound_ensure_gar_repository project_id repository_name :
  (∀ argv, E (Spawn (Argv argv))) →
  ok any (ensure_gar_repository cfg ext project_id repository_name).
Proof.
  intros Hargv. unfold ensure_gar_repository, print.
  apply sound_except_CalledProcessError; [|by step].
  step.
  - unfold subprocess_run_text_check.
    step; [by apply sound_subprocess_run|].
    step; [apply sound_decode|]. step; [apply sound_decode|].
    destruct (returncode _ =? 0); by step.
  - destruct (truthy _); [by step|].
    step; [by step|]. unfold location.
    (* the lookup of [location] raises: what follows it is never run *)
    apply (sound_bind R E R_trans (λ _, False)); [by apply sound_raise | done].
Qed.

Lemma sound_index {A} (l : list A) k : ok (λ x, l !! k = Some x) (index l k).
Proof. unfold index. destruct (l !! k); [by apply sound_ret | by apply sound_raise]. Qed.

Lemma sound_local {A} (v : option A) : ok (λ x, v = Some x) (local v).
Proof. unfold local. destruct v; [by apply sound_ret | by apply sound_raise]. Qed.
End migration_logic.

(** ** Targeted replay: what a run can copy and record *)

Lemma grows_by_refl allowed d : grows_by allowed d d.
Proof. destruct d; simpl; [|done]. split; [done|]. auto. Qed.

Lemma grows_by_trans allowed a b c :
  grows_by allowed a b → grows_by allowed b c → grows_by allowed a c.
Proof.
  destruct a as [ta|], b as [tb|], c as [tc|]; simpl; try done.
  intros [Hab Hb] [Hbc Hc]. split; [set_solver|].
  intros r Hr. destruct (Hc r Hr) as [?|?]; auto.
Qed.



Section replay_facts.
Context (cfg : config) (ext : external) (lines : list string).


Local Abbreviation R := (grows_by (row_of_line lines)).
Local Abbreviation ok := (sound R (replay_event cfg lines)).
Local Abbreviation any := (λ _, True).

Lemma replay_event_msg e : is_call e = false → (replay_event cfg lines) e.
Proof. intros He command ->. done. Qed.

Lemma replay_event_argv argv : (replay_event cfg lines) (Spawn (Argv argv)).
Proof. intros command [=]. Qed.

Local Ltac side := try first
  [ exact (grows_by_refl (row_of_line lines))
  | exact (grows_by_trans (row_of_line lines))
  | exact replay_event_msg ].
Local Tactic Notation "bind_with" uconstr(Q) :=
  apply (sound_bind R (replay_event cfg lines) (grows_by_trans (row_of_line lines)) Q).


Lemma fields_three (ps : list string) (p0 p1 p2 : string) :
  ps !! 0%nat = Some p0 → ps !! 1%nat = Some p1 → ps !! 2%nat = Some p2 →
  ∃ rest, ps = p0 :: p1 :: p2 :: rest.
Proof.
  destruct ps as [|a [|b [|c rest]]]; simpl; try done.
  intros [= ->] [= ->] [= ->]. by eexists.
Qed.

Lemma sound_replay_loop rest v :
  (∀ line, line ∈ rest → line ∈ lines) →
  (replay_inv lines) v →
  ok (replay_inv lines) (replay_loop cfg ext rest v).
Proof.
  revert v. induction rest as [|line rest IH]; intros v Hsub Hv; cbn [replay_loop].
  { by apply sound_ret; side. }
  assert (Hline : line ∈ lines) by (apply Hsub; left).
  assert (Hrest : ∀ l, l ∈ rest → l ∈ lines) by (intros l Hl; apply Hsub; by right).
  destruct (3 <=? length (split ":" (strip line)))%nat.
  - bind_with (λ x, split ":" (strip line) !! 0%nat = Some x); [by apply sound_index; side|].
    intros repo_name _.
    bind_with any; [apply sound_ensure_gar_repository; side; apply replay_event_argv|].
    intros _ _.
    bind_with (λ x, split ":" (strip line) !! 0%nat = Some x); [by apply sound_index; side|].
    intros p0 H0.
    bind_with (λ x, split ":" (strip line) !! 1%nat = Some x); [by apply sound_index; side|].
    intros p1 H1.
    bind_with (λ x, split ":" (strip line) !! 2%nat = Some x); [by apply sound_index; side|].
    intros p2 H2.
    bind_with (λ x, split ":" (strip line) !! 0%nat = Some x); [by apply sound_index; side|].
    intros p0' H0'. assert (p0' = p0) as -> by congruence.
    destruct (fields_three _ _ _ _ H0 H1 H2) as [tl Hparts].
    bind_with (post_ok (A := unit) any).
    + apply sound_submit, sound_copy_image; side.
      intros command [= <-]. exists line, p0, p1, p2, tl. done.
    + intros future Hfuture. apply IH; [done|].
      destruct Hv as (_ & _ & Hfs). split_and!; simpl.
      * intros image [= <-]. by exists line.
      * done.
      * apply Forall_app. split; [done|]. by apply Forall_singleton.
  - apply IH; [done|]. destruct Hv as (_ & _ & Hfs). split_and!; simpl.
    + intros image [= <-]. by exists line.
    + done.
    + done.
Qed.

End replay_facts.

Lemma bind_readlines {A} (path : string) (lines : list string)
    (k : list string → M A) (w : world) :
  files w !! path = Some lines →
  out (bind (readlines path) k w) = out (k lines w) ∧
  post (bind (readlines path) k w) = post (k lines w) ∧
  trace (bind (readlines path) k w) = trace (k lines w).
Proof. intros H. unfold bind, readlines. rewrite H. done. Qed.

Lemma sound_copy_images_to_gcr cfg ext lines path w :
  files w !! path = Some lines →
  let r := copy_images_to_gcr cfg ext path w in
  grows_by (row_of_line lines) (ledger w) (ledger (post r)) ∧
  Forall (replay_event cfg lines) (trace r) ∧
  out r = Ret tt.
Proof.
  intros Hfile.
  pose proof (grows_by_refl (row_of_line lines)) as R_refl.
  pose proof (grows_by_trans (row_of_line lines)) as R_trans.
  pose proof (replay_event_msg cfg lines) as E_msg.
  set (R := grows_by (row_of_line lines)) in *.
  set (E := replay_event cfg lines) in *.
  set (tail := λ v : replay_vars,
    for_each (futures v) (fun future =>
      try_except (future_result future)
        (fun e => Migration.print "An error occurred during image copy: {e}" [AExn e])) ;;
    last_image <- local (original_image v) ;;
    let Image := split ":" last_image in
    (if (3 <=? length Image)%nat then
       acr_name <- index Image 0 ;;
       repo <- index Image 1 ;;
       tag <- index Image 2 ;;
       ps <- local (parts v) ;;
       p3 <- index ps 3 ;;
       p4 <- index ps 4 ;;
       let digest := p3 +:+ ":" +:+ p4 in
       with_ledger (Ledger.insert_processed acr_name repo tag digest)
     else ret tt) ;;
    processed_entries <- with_ledger Ledger.get_all_processed ;;
    for_each processed_entries
      (fun entry => Migration.print "Processed: {entry}" [ARow entry])).
  assert (Hprint : ∀ fmt args, sound R E (λ _, True) (Migration.print fmt args)).
  { intros fmt args. by apply sound_emit; [|apply E_msg|]. }
  assert (Htail : ∀ v, replay_inv lines v → sound R E (λ _, True) (tail v)).
  { intros v (Himg & Hparts & Hfs). unfold tail.
    apply (sound_bind R E R_trans (λ _, True)).
    { apply sound_for_each; [done..|]. intros f Hf.
      apply sound_try_except; [done| |by intros e].
      apply sound_future_result; [done|]. by eapply Forall_forall in Hfs. }
    intros _ _.
    apply (sound_bind R E R_trans (λ x, original_image v = Some x));
      [by apply sound_local|].
    intros last_image Hlast. destruct (Himg _ Hlast) as (line & Hline & ->).
    apply (sound_bind R E R_trans (λ _, True)).
    { destruct (3 <=? length _)%nat; [|by apply sound_ret].
      apply (sound_bind R E R_trans (λ x, split ":" (strip line) !! 0%nat = Some x));
        [by apply sound_index|]. intros p0 H0.
      apply (sound_bind R E R_trans (λ x, split ":" (strip line) !! 1%nat = Some x));
        [by apply sound_index|]. intros p1 H1.
      apply (sound_bind R E R_trans (λ x, split ":" (strip line) !! 2%nat = Some x));
        [by apply sound_index|]. intros p2 H2.
      apply (sound_bind R E R_trans (λ x, parts v = Some x)); [by apply sound_local|].
      intros ps Hps. rewrite Hparts, Hlast in Hps. injection Hps as <-.
      apply (sound_bind R E R_trans (λ x, split ":" (strip line) !! 3%nat = Some x));
        [by apply sound_index|]. intros p3 H3.
      apply (sound_bind R E R_trans (λ x, split ":" (strip line) !! 4%nat = Some x));
        [by apply sound_index|]. intros p4 H4.
      apply sound_with_ledger. intros [t|]; simpl; [|done].
      split; [|done]. split; [set_solver|].
      intros r [->%elem_of_singleton|Hr]%elem_of_union; [right|by left].
      destruct (fields_three _ _ _ _ H0 H1 H2) as [tl Hf]. rewrite Hf in H3, H4.
      destruct tl as [|q3 [|q4 tl]]; simpl in H3, H4; try done.
      injection H3 as <-. injection H4 as <-.
      exists line, p0, p1, p2, q3, q4, tl. done. }
    intros _ _.
    apply (sound_bind R E R_trans (λ _, True)).
    { apply sound_with_ledger. intros [t|]; (split; [apply R_refl | done]). }
    intros entries _. apply sound_for_each; [done..|]. by intros entry _. }
  assert (Hloop : sound R E (replay_inv lines)
                    (replay_loop cfg ext lines (ReplayVars None None []))).
  { apply sound_replay_loop; [done|]. split_and!; simpl; done. }
  pose proof (sound_bind R E R_trans _ _ _ tail Hloop Htail) as Hmain.
  unfold copy_images_to_gcr. fold tail.
  match goal with |- context [try_except (bind (readlines path) ?k) ?h w] =>
    destruct (bind_readlines path lines k w Hfile) as (Ho & Hp & Ht);
    assert (Hbody : sound R E (λ _, True) (k lines));
    [ clearbody R E; clear Hfile Htail Hloop Ho Hp Ht; cbv beta;
      destruct lines; [apply Hprint | exact Hmain]
    | set (m := bind (readlines path) k) in *; set (body := k lines) in * ]
  end.
  destruct (Hbody w) as (HR & HE & HQ). rewrite <- Ho in HQ. rewrite <- Hp in HR.
  rewrite <- Ht in HE. unfold try_except.
  destruct (out (m w)) as [[]|e|c] eqn:Hout; cbn [out post trace post_ok] in *; try done.
  split_and!; try done. apply Forall_app. split; [done|].
  apply Forall_singleton. by apply E_msg.
Qed.

(** ** Transfers and repository creation swallow the exit status *)

(** The bodies of the two functions never leave through [SystemExit]. *)
Lemma copy_image_body_no_exit ext src dst w c :
  out (copy_image_body ext src dst w) ≠ Exit c.
Proof.
  intros Hc.
  destruct (sound_copy_image_body ext (λ _ _, True) (λ _, True)) with (src := src)
    (dst := dst) (w := w) as (_ & _ & H); try done.
  by rewrite Hc in H.
Qed.

Lemma create_gcr_repository_body_no_exit ext repo_name w c :
  out (create_gcr_repository_body ext repo_name w) ≠ Exit c.
Proof.
  intros Hc.
  destruct (sound_create_gcr_repository_body ext (λ _ _, True) (λ _, True))
    with (repo_name := repo_name) (w := w) as (_ & _ & H); try done.
  by rewrite Hc in H.
Qed.


(** C10. [copy_image] and [create_gcr_repository] return, with the value
    [None], whatever the outside does: neither raises, and the value does
    not tell a failed child process from a successful one. In their
    bodies the exit status of the child only selects the message that is
    logged: with status 0 an information, with any other status an error
    (for [gcloud], an information again when the error stream mentions
    [ALREADY_EXISTS]); the body returns in both cases. *)
Theorem copy_and_create_hide_exit_status
    (cfg : config) (ext : external) (src dst repo_name : string) (w : world) :
  out (copy_image cfg ext src dst w) = Ret tt ∧
  out (create_gcr_repository cfg ext repo_name w) = Ret tt ∧
  (∀ (rc : Z) (o e : string),
     copy_image_body (every_process rc o e) src dst w =
     Result (Ret tt) (after_call w)
       [Spawn (Shell ("gcrane cp " +:+ src +:+ " " +:+ dst));
        if rc =? 0
        then LogInfo "Successfully copied {source_image} to {dest_image}"
               [AStr src; AStr dst]
        else LogError "Failed to copy {source_image} to {dest_image}: {result.stderr.decode()}"
               [AStr src; AStr dst; AStr e]]) ∧
  (∀ (rc : Z) (o e : string),
     out (create_gcr_repository_body (every_process rc o e) repo_name w) = Ret tt ∧
     post (create_gcr_repository_body (every_process rc o e) repo_name w) = after_call w ∧
     ∃ message,
       trace (create_gcr_repository_body (every_process rc o e) repo_name w)
         = [Spawn (Argv ["gcloud"; "artifacts"; "repositories"; "create"; repo_name;
                         "--repository-format=docker"; "--location=us";
                         "--description"; "Repository for " +:+ repo_name]);
            message] ∧
       message =
         if rc =? 0
         then LogInfo "Successfully created repository {repo_name}" [AStr repo_name]
         else if contains "ALREADY_EXISTS" e
         then LogInfo "Repository {repo_name} already exists. Skipping creation."
                [AStr repo_name]
         else LogError "Failed to create repository {repo_name}: {result.stderr.decode()}"
                [AStr repo_name; AStr e]).
Proof.
  split_and!.
  - unfold copy_image, retry. rewrite out_bind. unfold wrapper.
    destruct (wrapper_run_returns (RETRY_LIMIT cfg) 2 "copy_image"
                (copy_image_body ext src dst) (range (RETRY_LIMIT cfg)) w) as [o ->];
      [lia | apply copy_image_body_no_exit | done].
  - unfold create_gcr_repository, retry. rewrite out_bind. unfold wrapper.
    destruct (wrapper_run_returns (RETRY_LIMIT cfg) 2 "create_gcr_repository"
                (create_gcr_repository_body ext repo_name) (range (RETRY_LIMIT cfg)) w)
      as [o ->]; [lia | apply create_gcr_repository_body_no_exit | done].
  - intros rc o e. unfold copy_image_body, subprocess_run, bind, tick, emit; simpl.
    destruct (rc =? 0); reflexivity.
  - intros rc o e. unfold create_gcr_repository_body, subprocess_run, bind, tick, emit; simpl.
    destruct (rc =? 0); simpl; [by eauto|].
    destruct (contains "ALREADY_EXISTS" e); simpl; by eauto.
Qed.

(** ** The inventory difference *)

Import Verify.


Lemma colon_field_inj (a a' r r' : string) :
  has_colon a = false → has_colon a' = false →
  a +:+ String ":" r = a' +:+ String ":" r' → a = a' ∧ r = r'.
Proof.
  revert a'. induction a as [|c a IH]; intros [|c' a']; simpl; intros Ha Ha' Heq.
  - by injection Heq.
  - injection Heq as <- _. by rewrite Ascii.eqb_refl in Ha'.
  - injection Heq as -> _. by rewrite Ascii.eqb_refl in Ha.
  - injection Heq as -> Heq. apply orb_false_iff in Ha as [_ Ha].
    apply orb_false_iff in Ha' as [_ Ha'].
    destruct (IH a' Ha Ha' Heq) as [-> ->]. done.
Qed.

Lemma image_identifier_inj (id id' : row) :
  colon_free id → colon_free id' →
  image_identifier id = image_identifier id' → id = id'.
Proof.
  destruct id as [[[a b] c] d], id' as [[[a' b'] c'] d'].
  intros (Ha & Hb & Hc) (Ha' & Hb' & Hc') Heq. unfold image_identifier in Heq.
  change (a +:+ String ":" (b +:+ String ":" (c +:+ String ":" (String "-" d)))
          = a' +:+ String ":" (b' +:+ String ":" (c' +:+ String ":" (String "-" d')))) in Heq.
  apply colon_field_inj in Heq as [-> Heq]; [|done..].
  apply colon_field_inj in Heq as [-> Heq]; [|done..].
  apply colon_field_inj in Heq as [-> Heq]; [|done..].
  by injection Heq as ->.
Qed.

(** Running one piece after the other, when both results are known. *)
Lemma bind_eval {A B} (m : M A) (f : A → M B) w a w1 tr1 o w2 tr2 :
  m w = Result (Ret a) w1 tr1 →
  f a w1 = Result o w2 tr2 →
  bind m f w = Result o w2 (tr1 ++ tr2).
Proof. intros Hm Hf. unfold bind. rewrite Hm. simpl. by rewrite Hf. Qed.

(** A piece that only computes a value can be replaced by the value. *)
Lemma bind_pure {A B} (m : M A) (f : A → M B) w a :
  m w = Result (Ret a) w [] → bind m f w = f a w.
Proof. intros Hm. unfold bind. rewrite Hm. simpl. by destruct (f a w). Qed.

Lemma for_each_print_eval {A} (l : list A) (fmt : string) (args : A → list arg) w :
  for_each l (λ x, Verify.print fmt (args x)) w
  = Result (Ret tt) w ((λ x, Print fmt (args x)) <$> l).
Proof.
  induction l as [|x l IH]; [done|]. simpl.
  erewrite bind_eval; [|reflexivity|exact IH]. done.
Qed.

Lemma world_eta w : World (ledger w) (clock w) (files w) = w.
Proof. by destruct w. Qed.

Lemma clear_file_eval {A} (a : A) (path : string) (w : world) :
  (e <- exists_ path ;; (if e : bool then remove path else ret tt) ;; ret a) w
  = Result (Ret a) (World (ledger w) (clock w) (delete path (files w))) [].
Proof.
  rewrite (bind_pure _ _ _ _
             (eq_refl : exists_ path w
                        = Result (Ret (bool_decide (is_Some (files w !! path)))) w [])).
  destruct (files w !! path) as [old|] eqn:H.
  - rewrite bool_decide_eq_true_2 by eauto. unfold bind, remove. rewrite H. done.
  - rewrite bool_decide_eq_false_2 by (by intros [? ?]).
    unfold bind, ret. simpl. rewrite delete_id by done. by rewrite world_eta.
Qed.

Lemma remove_if_exists_eval (path : string) (w : world) :
  ∃ tr, remove_if_exists path w
        = Result (Ret tt) (World (ledger w) (clock w) (delete path (files w))) tr ∧
        Forall (λ e, is_call e = false) tr.
Proof.
  unfold remove_if_exists.
  rewrite (bind_pure _ _ _ _
             (eq_refl : exists_ path w
                        = Result (Ret (bool_decide (is_Some (files w !! path)))) w [])).
  destruct (files w !! path) as [old|] eqn:H.
  - rewrite bool_decide_eq_true_2 by eauto. eexists. split.
    + unfold bind, remove, Verify.print, emit. rewrite H. simpl. reflexivity.
    + by repeat constructor.
  - rewrite bool_decide_eq_false_2 by (by intros [? ?]). exists [].
    split; [|done]. unfold ret. rewrite delete_id by done. by rewrite world_eta.
Qed.

(** [compare_registries] on two files that exist. *)
Lemma compare_registries_eval (acr_file gcr_file difference_file : string)
    (la lb : list string) (w : world) :
  files w !! acr_file = Some la →
  files w !! gcr_file = Some lb →
  let missing := diff (images_of_lines la) (images_of_lines lb) in
  let r := compare_registries acr_file gcr_file difference_file w in
  out r = Ret (bool_decide (missing ≠ ∅)) ∧
  ledger (post r) = ledger w ∧
  Forall (λ e, is_call e = false) (trace r) ∧
  files (post r) =
    if bool_decide (missing ≠ ∅)
    then <[difference_file := file_lines (elements missing)]> (files w)
    else delete difference_output_file (files w).
Proof.
  intros Ha Hb missing r. subst r. unfold compare_registries.
  assert (Hra : read_images_from_file acr_file w = Result (Ret (images_of_lines la)) w [])
    by (unfold read_images_from_file; by rewrite Ha).
  assert (Hrb : read_images_from_file gcr_file w = Result (Ret (images_of_lines lb)) w [])
    by (unfold read_images_from_file; by rewrite Hb).
  rewrite (bind_pure _ _ _ _ Hra), (bind_pure _ _ _ _ Hrb). fold missing. destruct (bool_decide (missing ≠ ∅)).
  - set (w1 := World (ledger w) (clock w)
                 (<[difference_file := file_lines (elements missing)]> (files w))).
    erewrite bind_eval; [|reflexivity|]; cycle 1.
    { eapply bind_eval; [reflexivity|]. fold w1.
      eapply bind_eval; [|reflexivity].
      exact (for_each_print_eval (elements missing) "{image}" (λ image, [AStr image]) w1). }
    cbn [out post trace ledger files]. split_and!; try done.
    repeat constructor. simpl. rewrite app_nil_r. apply Forall_fmap, Forall_forall. done.
  - erewrite bind_eval; [|reflexivity|apply clear_file_eval].
    cbn [out post trace ledger files]. split_and!; try done. by repeat constructor.
Qed.

Lemma bind_eval_proj {A B} (m : M A) (f : A → M B) w a w1 tr1 :
  m w = Result (Ret a) w1 tr1 →
  bind m f w = Result (out (f a w1)) (post (f a w1)) (tr1 ++ trace (f a w1)).
Proof. intros Hm. unfold bind. by rewrite Hm. Qed.

Lemma bind_ret_proj {A B} (m : M A) (f : A → M B) w a :
  out (m w) = Ret a →
  bind m f w = Result (out (f a (post (m w)))) (post (f a (post (m w))))
                 (trace (m w) ++ trace (f a (post (m w)))).
Proof. intros Hm. unfold bind. by rewrite Hm. Qed.




(** ** Chunks of registries and their dispatch *)

Section chunkify_facts.
Context {A : Type} (lst : list A) (n : Z).
Hypothesis n_pos : 0 < n.

Lemma slice_chunk (i : Z) :
  0 ≤ i → slice lst i (i + n) = take (Z.to_nat n) (drop (Z.to_nat i) lst).
Proof. intros Hi. unfold slice. do 2 f_equal. lia. Qed.

Lemma range_from_lookup fuel i stop k x :
  range_from fuel i stop n !! k = Some x → x = i + Z.of_nat k * n ∧ x < stop.
Proof.
  revert i k. induction fuel as [|fuel IH]; intros i k; simpl; [done|].
  destruct (Z.ltb_spec i stop) as [Hlt|Hge]; [|done].
  destruct k as [|k]; simpl.
  - intros [= <-]. lia.
  - intros Hk. apply IH in Hk. lia.
Qed.

Lemma range_from_concat fuel i :
  0 ≤ i → Z.of_nat (length lst) - i ≤ Z.of_nat fuel →
  concat ((λ j, slice lst j (j + n)) <$> range_from fuel i (Z.of_nat (length lst)) n)
  = drop (Z.to_nat i) lst.
Proof.
  revert i. induction fuel as [|fuel IH]; intros i Hi Hfuel; simpl.
  - symmetry. apply drop_ge. lia.
  - destruct (Z.ltb_spec i (Z.of_nat (length lst))) as [Hlt|Hge]; simpl.
    + rewrite IH by lia. rewrite slice_chunk by done.
      replace (Z.to_nat (i + n)) with (Z.to_nat i + Z.to_nat n)%nat by lia.
      rewrite <- drop_drop. apply take_drop.
    + symmetry. apply drop_ge. lia.
Qed.

Lemma chunkify_chunks :
  chunkify lst n
  = Answer ((λ j, slice lst j (j + n))
              <$> range_from (length lst) 0 (Z.of_nat (length lst)) n).
Proof.
  unfold chunkify, range_step.
  destruct (Z.eqb_spec n 0) as [?|_]; [lia|].
  destruct (Z.ltb_spec n 0) as [?|_]; [lia|].
  by rewrite Nat2Z.id.
Qed.
End chunkify_facts.

Section dispatch_facts.
Import Dispatch.

Lemma chunk_run_batch k i todo flying tr :
  chunk_run k i todo flying tr → Forall (λ s, batch_of s = k) tr.
Proof. induction 1; by constructor. Qed.

(** When the block is left, every registry that was in flight or still
    to submit has finished. *)
Lemma chunk_run_finishes k i todo flying tr :
  chunk_run k i todo flying tr →
  ∀ j, (j ∈ flying ∨ (i ≤ j < i + length todo)%nat) → Finished k j ∈ tr.
Proof.
  induction 1 as [i|i x todo flying tr Hrun IH|i j' todo fl1 fl2 tr Hrun IH];
    intros j Hj.
  - destruct Hj as [Hj|Hj]; [by apply elem_of_nil in Hj | simpl in Hj; lia].
  - right. apply IH. destruct Hj as [Hj|Hj].
    + left. by right.
    + simpl in Hj. destruct (decide (j = i)) as [->|Hne]; [left; by left | right; lia].
  - destruct Hj as [Hj|Hj].
    + apply elem_of_app in Hj as [Hj|Hj].
      * right. apply IH. left. apply elem_of_app. by left.
      * apply elem_of_cons in Hj as [->|Hj]; [by left|].
        right. apply IH. left. apply elem_of_app. by right.
    + right. apply IH. by right.
Qed.

Lemma main_run_batch k chunks tr :
  main_run k chunks tr → Forall (λ s, (k ≤ batch_of s)%nat) tr.
Proof.
  induction 1 as [k|k chunk chunks tr1 tr2 Hc Hm IH]; [done|].
  apply Forall_app. split.
  - eapply Forall_impl; [by eapply chunk_run_batch|]. simpl. intros s ->. done.
  - eapply Forall_impl; [exact IH|]. simpl. intros s Hs. lia.
Qed.

(** The barrier: in a run of the loop, whenever a registry of a chunk
    is submitted, every registry of the chunk before has finished. *)
Lemma main_run_barrier k0 chunks tr :
  main_run k0 chunks tr →
  ∀ m chunk j item' name',
    chunks !! m = Some chunk →
    tr !! j = Some (Dispatched (S (k0 + m)) item' name') →
    ∀ item, (item < length chunk)%nat →
      ∃ i, (i < j)%nat ∧ tr !! i = Some (Finished (k0 + m) item).
Proof.
  induction 1 as [k|k c chunks tr1 tr2 Hc Hm IH];
    intros m chunk j item' name' Hchunk Hj item Hitem; [done|].
  assert (Hlen : (length tr1 ≤ j)%nat).
  { destruct (decide (length tr1 ≤ j)%nat) as [|Hlt]; [done|].
    rewrite lookup_app_l in Hj by lia.
    apply chunk_run_batch in Hc.
    eapply Forall_lookup_1 in Hc; [|exact Hj]. simpl in Hc. lia. }
  rewrite lookup_app_r in Hj by done.
  destruct m as [|m]; simpl in Hchunk.
  - injection Hchunk as ->. rewrite Nat.add_0_r.
    assert (Hin : Finished k item ∈ tr1).
    { eapply chunk_run_finishes; [exact Hc|]. right. lia. }
    apply list_elem_of_lookup in Hin as [i Hi]. exists i.
    split; [apply lookup_lt_Some in Hi; lia|]. by rewrite lookup_app_l by (by eapply lookup_lt_Some).
  - replace (k + S m)%nat with (S k + m)%nat in * by lia.
    destruct (IH m chunk _ item' name' Hchunk Hj item Hitem) as (i & Hi & Hlook).
    exists (length tr1 + i)%nat. split; [lia|].
    rewrite lookup_app_r by lia. by replace (length tr1 + i - length tr1)%nat with i by lia.
Qed.

(** The loop has runs: for one, each registry finishes before the next
    is submitted. *)
Lemma chunk_run_exists k i chunk : ∃ tr, chunk_run k i chunk [] tr.
Proof.
  revert i. induction chunk as [|x chunk IH]; intros i.
  - eexists. constructor.
  - destruct (IH (S i)) as [tr Htr].
    exists (Dispatched k i x :: Finished k i :: tr).
    apply run_submit. by apply (run_finish k (S i) i chunk [] []).
Qed.

Lemma main_run_exists k chunks : ∃ tr, main_run k chunks tr.
Proof.
  revert k. induction chunks as [|c chunks IH]; intros k.
  - eexists. constructor.
  - destruct (chunk_run_exists k 0 c) as [tr1 H1]. destruct (IH (S k)) as [tr2 H2].
    eexists. by econstructor.
Qed.
End dispatch_facts.

(** C6. For a positive limit [n], [chunkify] cuts the list of registries
    into consecutive chunks: their concatenation is the list, chunk number
    [k] is the [n] registries from position [k * n] on (fewer at the end of
    the list), no chunk is empty, none is longer than [n], and every chunk
    but the last has exactly [n] registries; twelve registries and a limit
    of five give chunks of 5, 5 and 2. The loop over the chunks has runs,
    and in each of them a registry of chunk [k + 1] is submitted only after
    every registry of chunk [k] has finished. *)
Theorem chunked_dispatch (acr_names : list string) (n : Z) :
  0 < n →
  ∃ chunks : list (list string),
    chunkify acr_names n = Answer chunks ∧
    concat chunks = acr_names ∧
    (∀ k chunk, chunks !! k = Some chunk →
       chunk = take (Z.to_nat n) (drop (k * Z.to_nat n) acr_names) ∧
       (0 < length chunk ≤ Z.to_nat n)%nat ∧
       (S k < length chunks → length chunk = Z.to_nat n)%nat) ∧
    (length acr_names = 12%nat → n = 5 → length <$> chunks = [5; 5; 2]%nat) ∧
    (∃ tr, Dispatch.main_run 0 chunks tr) ∧
    (∀ tr, Dispatch.main_run 0 chunks tr →
       ∀ k chunk j item' name',
         chunks !! k = Some chunk →
         tr !! j = Some (Dispatch.Dispatched (S k) item' name') →
         ∀ item, (item < length chunk)%nat →
           ∃ i, (i < j)%nat ∧ tr !! i = Some (Dispatch.Finished k item)).
Proof.
  intros Hn. eexists. split; [by apply chunkify_chunks|].
  set (starts := range_from (length acr_names) 0 (Z.of_nat (length acr_names)) n).
  assert (Hstart : ∀ k x, starts !! k = Some x → x = Z.of_nat k * n ∧ x < Z.of_nat (length acr_names)).
  { intros k x Hk. apply (range_from_lookup n) in Hk. lia. }
  assert (Hchunk : ∀ k chunk,
            ((λ j, slice acr_names j (j + n)) <$> starts) !! k = Some chunk →
            chunk = take (Z.to_nat n) (drop (k * Z.to_nat n) acr_names) ∧
            (Z.of_nat k * n < Z.of_nat (length acr_names))).
  { intros k chunk Hk. rewrite list_lookup_fmap in Hk.
    destruct (starts !! k) as [x|] eqn:Hx; [|done]. injection Hk as <-.
    destruct (Hstart k x Hx) as [-> Hlt]. split; [|done].
    rewrite slice_chunk by lia. do 2 f_equal. nia. }
  split_and!.
  - unfold starts. rewrite (range_from_concat acr_names n Hn) by lia. done.
  - intros k chunk Hk. destruct (Hchunk k chunk Hk) as [-> Hlt]. split; [done|split].
    + rewrite length_take, length_drop. nia.
    + intros Hnext. rewrite length_fmap in Hnext.
      destruct (lookup_lt_is_Some_2 starts (S k) Hnext) as [y Hy].
      apply Hstart in Hy as [-> Hy]. rewrite length_take, length_drop. nia.
  - intros Hlen ->. subst starts. rewrite Hlen.
    do 13 (destruct acr_names as [|? acr_names]; try discriminate). reflexivity.
  - apply main_run_exists.
  - intros tr Hrun k chunk j item' name' Hk Hj item Hitem.
    exact (main_run_barrier 0 _ tr Hrun k chunk j item' name' Hk Hj item Hitem).
Qed.

Lemma chunked_dispatch_witness :
  0 < 5 ∧
  ∃ chunks : list (list string),
    chunkify ["r01"; "r02"; "r03"; "r04"; "r05"; "r06";
              "r07"; "r08"; "r09"; "r10"; "r11"; "r12"] 5 = Answer chunks ∧
    length <$> chunks = [5; 5; 2]%nat.
Proof.
  assert (H : 0 < 5) by lia. split; [exact H|].
  destruct (chunked_dispatch ["r01"; "r02"; "r03"; "r04"; "r05"; "r06";
                              "r07"; "r08"; "r09"; "r10"; "r11"; "r12"] 5 H)
    as (chunks & Hc & _ & _ & Hsizes & _).
  exists chunks. split; [exact Hc|]. apply Hsizes; reflexivity.
Defined.



(** ** Runs of the migration script on which it departs from its
    specification *)

(** C1, at a run the claim excludes. Full scan of one registry with one
    image whose transfer fails: [gcrane] ends with status 1 at every call.
    The script ends with status 0; all [copy_image] logged about the
    transfer is its failure; and the ledger holds the identity of the
    image, as if it had been copied. *)
Lemma failed_copy_is_recorded :
  let r := Migration.main env (outside 1 (Answer ["acr1"])) None fresh in
  exit_status (out r) = 0 ∧
  copy_reports (trace r)
  = [LogError "Failed to copy {source_image} to {dest_image}: {result.stderr.decode()}"
       [AStr "acr1.azurecr.io/app:v1"; AStr "us-docker.pkg.dev/abc-2/acr1/app:v1";
        AStr "UNAUTHORIZED"]] ∧
  fst (check_if_processed "acr1" "app" "v1" "sha256:d1" (ledger (post r))) = Ret true ∧
  fst (get_all_processed (ledger (post r))) = Ret [("acr1", "app", "v1", "sha256:d1")].
Proof. vm_compute. repeat split. Qed.

(** C2, at a run the claim excludes. Replay of a difference file of two
    well-formed lines, every transfer succeeding: both images are copied,
    and the ledger gains one row only, that of the last line (with the
    hyphen of the file format in its digest); the identity of the first
    line is not recorded. *)
Lemma replay_records_only_the_last_line :
  let r := Migration.main env (outside 0 (Answer ["acr1"])) (Some "diff.txt")
             with_difference_file in
  exit_status (out r) = 0 ∧
  copy_reports (trace r)
  = [LogInfo "Successfully copied {source_image} to {dest_image}"
       [AStr "acr1.azurecr.io/app:v1"; AStr "us-docker.pkg.dev/abc-2/acr1/app:v1"];
     LogInfo "Successfully copied {source_image} to {dest_image}"
       [AStr "acr1.azurecr.io/app:v2"; AStr "us-docker.pkg.dev/abc-2/acr1/app:v2"]] ∧
  fst (get_all_processed (ledger (post r))) = Ret [("acr1", "app", "v2", "-sha256:bbb")] ∧
  fst (check_if_processed "acr1" "app" "v1" "-sha256:aaa" (ledger (post r))) = Ret false ∧
  fst (check_if_processed "acr1" "app" "v1" "sha256:aaa" (ledger (post r))) = Ret false.
Proof. vm_compute. repeat split. Qed.

(** C9, at a run the claim excludes. Full scan, the subscription is
    resolved and no file is named, but the Azure client fails at each of
    the three attempts to list the registries: the decorated function
    returns [None], [chunkify] raises on it, nothing catches the exception
    and the script ends with status 1. *)
Lemma failed_listing_aborts_the_run :
  let r := Migration.main env (outside 0 (Fails (RemoteError "503"))) None fresh in
  out (get_azure_subscription_id (outside 0 (Fails (RemoteError "503"))) fresh)
  = Ret (Some "sub-0001") ∧
  out r = Raise TypeError ∧
  exit_status (out r) = 1.
Proof. vm_compute. repeat split. Qed.

(** ** The exit status of the migration script *)

Section full_scan_logic.
Context (cfg : config) (ext : external).
Context (R : db → db → Prop) (E : event → Prop).
Hypothesis R_refl : ∀ d, R d d.
Hypothesis R_trans : ∀ a b c, R a b → R b c → R a c.
Hypothesis R_insert : ∀ a r t g d, R d (snd (insert_processed a r t g d)).
Hypothesis E_all : ∀ e, E e.

Local Abbreviation ok := (sound R E (λ _, True)).

Local Lemma E_msg : ∀ e, is_call e = false → E e.
Proof. intros e _. apply E_all. Qed.

Local Ltac hyps := first
  [ exact R_refl | exact R_trans | exact E_msg
  | (intros; apply E_all) | (intros; exact Logic.I) ].
Local Ltac leaf := first
  [ apply sound_ret; hyps
  | apply sound_raise; hyps
  | apply sound_emit; hyps
  | apply sound_decode; hyps
  | apply sound_subprocess_run; hyps
  | apply sound_of_answer; hyps
  | apply sound_tick; hyps ].
Local Ltac seq := apply (sound_bind R E R_trans (λ _, True)); [|intros ? _].

Lemma sound_check_output c : ok (check_output ext c).
Proof.
  unfold check_output, subprocess_check. seq; [|leaf]. seq; [leaf|].
  destruct (returncode _ =? 0); leaf.
Qed.


Lemma sound_output_or_none (c : cmd) (h : M (option string)) :
  ok h →
  ok (except_CalledProcessError (s <- check_output ext c ;; ret (Some (strip s))) h).
Proof.
  intros Hh. apply sound_except_CalledProcessError; first [exact Hh | hyps | idtac].
  seq; [apply sound_check_output | leaf].
Qed.

Lemma sound_get_azure_subscription_id : ok (get_azure_subscription_id ext).
Proof. unfold get_azure_subscription_id. apply sound_output_or_none. seq; leaf. Qed.











(** Waiting for the futures of a chunk: every exception is caught. *)
Lemma join_futures_returns (futures : list (outcome unit)) (w : world) :
  Forall (post_ok (λ _, True)) futures →
  let r := for_each futures (λ future,
             try_except (future_result future)
               (λ exc, emit (LogError "Error processing ACR: {exc}" [AExn exc]))) w in
  out r = Ret tt ∧ ledger (post r) = ledger w.
Proof.
  revert w. induction futures as [|f fs IH]; intros w Hfs; simpl; [done|].
  apply Forall_cons in Hfs as [Hf Hfs].
  destruct (IH w Hfs) as [Ho Hl].
  destruct f as [[]|e|c]; simpl in Hf; [| |done].
  - unfold bind at 1. cbn. unfold bind in Ho. by destruct (IH w Hfs) as [-> ->].
  - unfold bind at 1. cbn. by destruct (IH w Hfs) as [-> ->].
Qed.
End full_scan_logic.

Lemma post_bind {A B} (m : M A) (f : A → M B) w :
  post (bind m f w) =
  match out (m w) with
  | Ret a => post (f a (post (m w)))
  | _ => post (m w)
  end.
Proof. unfold bind. by destruct (out (m w)). Qed.

Lemma for_each_emit_print_eval {A} (l : list A) (fmt : string) (args : A → list arg) w :
  for_each l (λ x, emit (Print fmt (args x))) w
  = Result (Ret tt) w ((λ x, Print fmt (args x)) <$> l).
Proof.
  induction l as [|x l IH]; [done|]. simpl.
  erewrite bind_eval; [|reflexivity|exact IH]. done.
Qed.

Section exit_status_facts.
Context (cfg : config) (ext : external).

(** The ledger keeps its table. *)
Local Abbreviation keeps := (λ d d' : db, is_Some d → is_Some d').








End exit_status_facts.


(** * Further properties of the code *)

(** ** The ledger: lookups and listings after inserts *)

(** X2. After a sequence of inserts into a table, [check_if_processed]
    answers true exactly for the identities that were inserted or were in
    the table before; the listing has no duplicate and holds exactly
    these identities. *)
Theorem ledger_after_inserts (rows : list row) (t : gset row) :
  ∃ t' : gset row,
    insert_all rows (Some t) = (Ret tt, Some t') ∧
    (∀ acr_name repo tag digest,
       check_if_processed acr_name repo tag digest (Some t')
       = (Ret (bool_decide ((acr_name, repo, tag, digest) ∈ rows ∨
                            (acr_name, repo, tag, digest) ∈ t)), Some t')) ∧
    ∃ listing,
      get_all_processed (Some t') = (Ret listing, Some t') ∧
      NoDup listing ∧
      ∀ id, id ∈ listing ↔ id ∈ rows ∨ id ∈ t.
Proof.
  exists (list_to_set rows ∪ t). split; [apply insert_all_table|]. split.
  - intros a r g h. simpl. f_equal. f_equal. apply bool_decide_ext.
    rewrite elem_of_union, elem_of_list_to_set. done.
  - eexists. split; [done|]. split; [apply NoDup_elements|].
    intros id. rewrite elem_of_elements, elem_of_union, elem_of_list_to_set. done.
Qed.

(** ** The retry decorator: first success, no attempt, bad delay *)

Import More.

Lemma range_cons (n : Z) : 0 < n → ∃ js, range n = 0 :: js.
Proof.
  intros Hn. unfold range. destruct (Z.to_nat n) as [|m] eqn:Hm; [lia|].
  simpl. by eexists.
Qed.

Lemma wrapper_run_until_success {A} (func : M A) retries delay name k a :
  0 ≤ delay →
  ∀ js w,
    (k < length js)%nat →
    (∀ i, (i < k)%nat → ∃ e, out (func (after_failures func i w)) = Raise e) →
    out (func (after_failures func k w)) = Ret a →
    snd (wrapper_run retries delay name func js w) = S k ∧
    out (fst (wrapper_run retries delay name func js w)) = Ret (Some a) ∧
    post (fst (wrapper_run retries delay name func js w))
      = post (func (after_failures func k w)).
Proof.
  intros Hd. induction k as [|k IH]; intros js w Hlen Hfail Hok.
  - destruct js as [|j0 js]; [simpl in Hlen; lia|]. cbn [wrapper_run].
    simpl in Hok. rewrite Hok. done.
  - destruct js as [|j0 js]; [simpl in Hlen; lia|]. cbn [wrapper_run].
    destruct (Hfail 0%nat ltac:(lia)) as [e He]. simpl in He. rewrite He.
    rewrite handler_returns by done. cbn [out post trace].
    destruct (IH js (post (func w))) as (Hn & Ho & Hp).
    + simpl in Hlen. lia.
    + intros i Hi. apply (Hfail (S i)). lia.
    + exact Hok.
    + destruct (wrapper_run _ _ _ _ js _) as [r' n]. cbn [fst snd out post] in *.
      by rewrite Hn.
Qed.

(** X4. When the operation raises at its first [k] calls and returns a
    value at the next one, with [k] below the number of attempts (and a
    delay that [time.sleep] accepts), the decorated call makes exactly
    [k + 1] calls and returns that value, from the state the last call
    left. *)
Theorem retry_returns_first_success {A} (func : M A) (name : string)
    (retries delay : Z) (k : nat) (a : A) (w : world) :
  0 ≤ delay →
  (k < Z.to_nat retries)%nat →
  (∀ i, (i < k)%nat → ∃ e, out (func (after_failures func i w)) = Raise e) →
  out (func (after_failures func k w)) = Ret a →
  invocations retries delay name func w = S k ∧
  out (wrapper retries delay name func w) = Ret (Some a) ∧
  post (wrapper retries delay name func w) = post (func (after_failures func k w)).
Proof.
  intros Hd Hk Hfail Hok. unfold invocations, wrapper.
  apply wrapper_run_until_success; try done. by rewrite length_range.
Qed.

Lemma retry_returns_first_success_witness :
  invocations 3 2 "busy_twice" busy_twice fresh = 3%nat ∧
  out (wrapper 3 2 "busy_twice" busy_twice fresh) = Ret (Some "ready").
Proof.
  destruct (retry_returns_first_success busy_twice "busy_twice" 3 2 2 "ready" fresh)
    as (H1 & H2 & _).
  - lia.
  - vm_compute. lia.
  - intros i Hi. destruct i as [|[|i]]; [by eexists | by eexists | lia].
  - reflexivity.
  - split; [exact H1 | exact H2].
Defined.

(** X5. With a number of attempts that is zero or negative the operation
    is never called: the decorated call logs that the function failed and
    returns [None], leaving the state as it was. *)
Theorem retry_without_attempts {A} (func : M A) (name : string)
    (retries delay : Z) (w : world) :
  retries ≤ 0 →
  invocations retries delay name func w = 0%nat ∧
  wrapper retries delay name func w
  = Result (Ret None) w
      [LogError "Function {func.__name__} failed after {retries} retries"
         [AStr name; AInt retries]].
Proof.
  intros Hr. unfold invocations, wrapper, range.
  replace (Z.to_nat retries) with 0%nat by lia. done.
Qed.

Lemma retry_without_attempts_witness :
  0 ≤ 0 ∧
  invocations 0 2 "copy_image" always_refused fresh = 0%nat ∧
  out (wrapper 0 2 "copy_image" always_refused fresh) = Ret None.
Proof.
  assert (H : 0 ≤ 0) by lia. split; [exact H|].
  destruct (retry_without_attempts always_refused "copy_image" 0 2 fresh H) as [H1 H2].
  split; [exact H1|]. by rewrite H2.
Defined.

(** X6. What the decorator lets through. With a negative delay the first
    exception of the operation is followed by the [ValueError] of
    [time.sleep], which the decorated call raises to its caller after a
    single call of the operation. *)
Theorem retry_negative_delay_raises {A} (func : M A) (name : string)
    (retries delay : Z) (e : exn) (w : world) :
  0 < retries →
  delay < 0 →
  out (func w) = Raise e →
  invocations retries delay name func w = 1%nat ∧
  out (wrapper retries delay name func w) = Raise ValueError.
Proof.
  intros Hr Hd He. unfold invocations, wrapper.
  destruct (range_cons retries Hr) as [js ->]. cbn [wrapper_run]. rewrite He.
  unfold handler, time_sleep. destruct (Z.ltb_spec delay 0) as [_|?]; [|lia].
  unfold bind, emit, raise. simpl. done.
Qed.

Lemma retry_negative_delay_raises_witness :
  0 < 3 ∧ -1 < 0 ∧
  invocations 3 (-1) "op" always_refused fresh = 1%nat ∧
  out (wrapper 3 (-1) "op" always_refused fresh) = Raise ValueError.
Proof.
  assert (H3 : 0 < 3) by lia. assert (H1 : -1 < 0) by lia.
  split; [exact H3|]. split; [exact H1|].
  exact (retry_negative_delay_raises always_refused "op" 3 (-1)
           (RemoteError "connection refused") fresh H3 H1 eq_refl).
Defined.

(** ** A failing [az]: lookups give up at once, listings are retried *)

Lemma spawned_app (tr1 tr2 : list event) :
  spawned (tr1 ++ tr2) = (spawned tr1 + spawned tr2)%nat.
Proof. unfold spawned. by rewrite List.filter_app, length_app. Qed.

(** [check_output] on a command whose process ends with another status
    than 0. *)
Lemma check_output_fails ext (c : cmd) (p : completed) (w : world) :
  ext_run ext c (clock w) = Answer p →
  returncode p ≠ 0 →
  check_output ext c w = Result (Raise CalledProcessError) (after_call w) [Spawn c].
Proof.
  intros Hrun Hrc. unfold check_output, subprocess_check, subprocess_run, bind, tick, emit.
  simpl. rewrite Hrun. simpl. destruct (Z.eqb_spec (returncode p) 0); done.
Qed.

Lemma bind_raise {A B} (m : M A) (f : A → M B) w e w1 tr :
  m w = Result (Raise e) w1 tr → bind m f w = Result (Raise e) w1 tr.
Proof. intros Hm. unfold bind. by rewrite Hm. Qed.

Lemma output_or_none_fails ext (c : cmd) (p : completed) (h : M (option string))
    (w : world) :
  ext_run ext c (clock w) = Answer p →
  returncode p ≠ 0 →
  except_CalledProcessError (s <- check_output ext c ;; ret (Some (strip s))) h w
  = Result (out (h (after_call w))) (post (h (after_call w)))
      (Spawn c :: trace (h (after_call w))).
Proof.
  intros Hrun Hrc. unfold except_CalledProcessError, try_except.
  rewrite (bind_raise _ _ _ _ _ _ (check_output_fails ext c p w Hrun Hrc)). done.
Qed.

Lemma wrapper_first_call_returns {A} (func : M A) name retries delay a w :
  0 < retries →
  out (func w) = Ret a →
  wrapper retries delay name func w = Result (Ret (Some a)) (post (func w)) (trace (func w)).
Proof.
  intros Hr Ha. unfold wrapper. destruct (range_cons retries Hr) as [js ->].
  cbn [wrapper_run]. by rewrite Ha.
Qed.

(** X7. A lookup does not retry a failed [az]. When the [az] process of
    [get_tag_digest], of [get_resource_group_name] or of
    [get_azure_subscription_id] ends with a status that is not 0, the
    function logs the failure and returns [None] after this single
    process: the exception is caught inside the decorated body, so the
    decorator sees a call that returned. *)
Theorem failed_lookup_is_not_retried (cfg : config) (ext : external)
    (acr_name repo tag : string) (w : world) :
  0 < RETRY_LIMIT cfg →
  (∀ argv, ∃ p, ext_run ext (Argv argv) (clock w) = Answer p ∧ returncode p ≠ 0) →
  get_tag_digest cfg ext acr_name repo tag w
  = Result (Ret None) (after_call w)
      [Spawn (Argv ["az"; "acr"; "manifest"; "list-metadata"; "-r"; acr_name;
                    "-n"; repo; "--query";
                    "[?tags[?contains(@, '" +:+ tag +:+ "')]].digest";
                    "--output"; "tsv"; "--only-show-errors"]);
       LogError "Failed to get digest for {acr_name}/{repo}:{tag}: {e}"
         [AStr acr_name; AStr repo; AStr tag; AExn CalledProcessError]] ∧
  get_resource_group_name cfg ext acr_name w
  = Result (Ret None) (after_call w)
      [Spawn (Argv ["az"; "acr"; "show"; "--name"; acr_name; "--query";
                    "resourceGroup"; "--output"; "tsv"]);
       LogError "Failed to fetch the resource group name for ACR {acr_name}: {e}"
         [AStr acr_name; AExn CalledProcessError]] ∧
  get_azure_subscription_id ext w
  = Result (Ret None) (after_call w)
      [Spawn (Argv ["az"; "account"; "list"; "--query"; "[?isDefault].id"; "-o"; "tsv"]);
       LogError "Failed to fetch the Azure subscription ID: {e}"
         [AExn CalledProcessError]].
Proof.
  intros Hr Hfail. split_and!.
  - unfold get_tag_digest, retry.
    match goal with |- context [except_CalledProcessError (bind (check_output ext ?c) _) ?h] =>
      destruct (Hfail match c with Argv a => a | Shell _ => [] end) as (p & Hp & Hrc);
      pose proof (output_or_none_fails ext c p h w Hp Hrc) as Hbody
    end.
    unfold bind at 1.
    erewrite wrapper_first_call_returns; [|done|by rewrite Hbody].
    rewrite Hbody. done.
  - unfold get_resource_group_name, retry.
    match goal with |- context [except_CalledProcessError (bind (check_output ext ?c) _) ?h] =>
      destruct (Hfail match c with Argv a => a | Shell _ => [] end) as (p & Hp & Hrc);
      pose proof (output_or_none_fails ext c p h w Hp Hrc) as Hbody
    end.
    unfold bind at 1.
    erewrite wrapper_first_call_returns; [|done|by rewrite Hbody].
    rewrite Hbody. done.
  - unfold get_azure_subscription_id.
    match goal with |- context [except_CalledProcessError (bind (check_output ext ?c) _) ?h] =>
      destruct (Hfail match c with Argv a => a | Shell _ => [] end) as (p & Hp & Hrc);
      rewrite (output_or_none_fails ext c p h w Hp Hrc)
    end.
    done.
Qed.

Lemma failed_lookup_is_not_retried_witness :
  0 < RETRY_LIMIT env ∧
  out (get_tag_digest env every_process_fails "acr1" "app" "v1" fresh) = Ret None ∧
  spawned (trace (get_tag_digest env every_process_fails "acr1" "app" "v1" fresh)) = 1%nat.
Proof.
  assert (Hr : 0 < RETRY_LIMIT env) by (vm_compute; reflexivity).
  assert (Hf : ∀ argv, ∃ p, ext_run every_process_fails (Argv argv) (clock fresh) = Answer p
                            ∧ returncode p ≠ 0).
  { intros argv. eexists. split; [reflexivity|]. simpl. lia. }
  split; [exact Hr|].
  destruct (failed_lookup_is_not_retried env every_process_fails "acr1" "app" "v1" fresh Hr Hf)
    as (-> & _ & _).
  split; reflexivity.
Defined.

(** The decorator on a body that raises at every call after starting one
    process. *)
Lemma wrapper_run_spawns_each_attempt {A} (func : M A) retries delay name js w :
  0 ≤ delay →
  (∀ w', ∃ e, out (func w') = Raise e ∧ spawned (trace (func w')) = 1%nat) →
  spawned (trace (fst (wrapper_run retries delay name func js w))) = length js.
Proof.
  intros Hd Hf. revert w. induction js as [|i js IH]; intros w; cbn [wrapper_run]; [done|].
  destruct (Hf w) as (e & He & Hs). rewrite He, handler_returns by done.
  cbn [out post trace]. specialize (IH (post (func w))).
  destruct (wrapper_run _ _ _ _ js _) as [r' n]. cbn [fst trace] in *.
  rewrite !spawned_app, Hs, IH. done.
Qed.

(** X8. A listing retries a failed [az]. When every [az] process ends
    with a status that is not 0, [list_tags] and [list_repositories] start
    the process once per attempt, [RETRY_LIMIT] times in all, and then
    return [None]. *)
Theorem failed_listing_is_retried (cfg : config) (ext : external)
    (acr_name repo : string) (w : world) :
  0 ≤ RETRY_LIMIT cfg →
  (∀ argv n, ∃ p, ext_run ext (Argv argv) n = Answer p ∧ returncode p ≠ 0) →
  out (list_tags cfg ext acr_name repo w) = Ret None ∧
  spawned (trace (list_tags cfg ext acr_name repo w)) = Z.to_nat (RETRY_LIMIT cfg) ∧
  out (list_repositories cfg ext acr_name w) = Ret None ∧
  spawned (trace (list_repositories cfg ext acr_name w)) = Z.to_nat (RETRY_LIMIT cfg).
Proof.
  intros Hr Hfail.
  assert (Hbody : ∀ argv w', ∃ e,
            out ((s <- check_output ext (Argv argv) ;; ret (split_ws s)) w') = Raise e ∧
            spawned (trace ((s <- check_output ext (Argv argv) ;; ret (split_ws s)) w'))
            = 1%nat).
  { intros argv w'. destruct (Hfail argv (clock w')) as (p & Hp & Hrc).
    exists CalledProcessError.
    by rewrite (bind_raise _ _ _ _ _ _ (check_output_fails ext _ p w' Hp Hrc)). }
  assert (Hall : ∀ argv name,
            out (retry cfg name (s <- check_output ext (Argv argv) ;; ret (split_ws s)) w)
            = Ret None ∧
            spawned (trace (retry cfg name
                              (s <- check_output ext (Argv argv) ;; ret (split_ws s)) w))
            = Z.to_nat (RETRY_LIMIT cfg)).
  { intros argv name. unfold retry, wrapper. split.
    - apply wrapper_run_always_fails; [lia|]. intros w'.
      destruct (Hbody argv w') as (e & He & _). by exists e.
    - rewrite wrapper_run_spawns_each_attempt; [apply length_range|lia|apply Hbody]. }
  unfold list_tags, list_repositories. split_and!; apply Hall.
Qed.

Lemma failed_listing_is_retried_witness :
  0 ≤ RETRY_LIMIT env ∧
  out (list_tags env every_process_fails "acr1" "app" fresh) = Ret None ∧
  spawned (trace (list_tags env every_process_fails "acr1" "app" fresh)) = 3%nat.
Proof.
  assert (Hr : 0 ≤ RETRY_LIMIT env) by (vm_compute; discriminate).
  assert (Hf : ∀ argv n, ∃ p, ext_run every_process_fails (Argv argv) n = Answer p
                              ∧ returncode p ≠ 0).
  { intros argv n. eexists. split; [reflexivity|]. simpl. lia. }
  split; [exact Hr|].
  destruct (failed_listing_is_retried env every_process_fails "acr1" "app" fresh Hr Hf)
    as (H1 & H2 & _).
  split; [exact H1 | exact H2].
Defined.

(** ** The full scan, function by function *)

Section fine_logic.
Context (cfg : config) (ext : external).
Context (R : db → db → Prop) (E : event → Prop).
Hypothesis R_refl : ∀ d, R d d.
Hypothesis R_trans : ∀ a b c, R a b → R b c → R a c.
Hypothesis E_msg : ∀ e, is_call e = false → E e.
Hypothesis E_argv : ∀ argv, E (Spawn (Argv argv)).

Local Abbreviation ok := (sound R E (λ _, True)).

Local Ltac hyps := first
  [ exact R_refl | exact R_trans | exact E_msg | exact E_argv
  | (intros; apply E_argv) | (intros; exact Logic.I) ].
Local Ltac leaf := first
  [ apply sound_ret; hyps
  | apply sound_raise; hyps
  | apply sound_emit; first [hyps | apply E_msg; reflexivity]
  | apply sound_decode; hyps
  | apply sound_subprocess_run; hyps
  | apply sound_of_answer; hyps
  | apply sound_tick; hyps ].
Local Ltac seq := apply (sound_bind R E R_trans (λ _, True)); [|intros ? _].

Lemma fine_check_output argv : ok (check_output ext (Argv argv)).
Proof.
  unfold check_output, subprocess_check. seq; [|leaf]. seq; [leaf|].
  destruct (returncode _ =? 0); leaf.
Qed.

Lemma fine_retry {A} (name : string) (func : M A) : ok func → ok (retry cfg name func).
Proof.
  intros Hf. unfold retry.
  eapply sound_weaken; [apply sound_wrapper; first [exact Hf | hyps]|done].
Qed.

Lemma fine_output_or_none argv (h : M (option string)) :
  ok h →
  ok (except_CalledProcessError
        (s <- check_output ext (Argv argv) ;; ret (Some (strip s))) h).
Proof.
  intros Hh. apply sound_except_CalledProcessError; first [exact Hh | hyps | idtac].
  seq; [apply fine_check_output | leaf].
Qed.

Lemma fine_get_resource_group_name acr_name : ok (get_resource_group_name cfg ext acr_name).
Proof.
  unfold get_resource_group_name. seq; [|leaf].
  apply fine_retry, fine_output_or_none. seq; leaf.
Qed.

Lemma fine_list_repositories acr_name : ok (list_repositories cfg ext acr_name).
Proof.
  unfold list_repositories. apply fine_retry. seq; [apply fine_check_output | leaf].
Qed.

Lemma fine_list_tags acr_name repo : ok (list_tags cfg ext acr_name repo).
Proof.
  unfold list_tags. apply fine_retry. seq; [apply fine_check_output | leaf].
Qed.

Lemma fine_get_tag_digest acr_name repo tag : ok (get_tag_digest cfg ext acr_name repo tag).
Proof.
  unfold get_tag_digest. seq; [|leaf].
  apply fine_retry, fine_output_or_none. seq; leaf.
Qed.

Lemma fine_check_if_processed a r t g :
  sound R E (λ _, True) (with_ledger (check_if_processed a r t g)).
Proof. apply sound_with_ledger. intros [s|]; (split; [apply R_refl | done]). Qed.

Lemma fine_process_tag acr_name repo tag :
  E (Spawn (Shell (scan_copy_command cfg acr_name repo tag))) →
  (∀ d db0, R db0 (snd (insert_processed acr_name repo tag d db0))) →
  ok (process_tag cfg ext acr_name repo tag).
Proof.
  intros Hshell Hins. unfold process_tag. seq; [apply fine_get_tag_digest|].
  destruct a as [d|]; [|leaf]. destruct (truthy d); [|leaf].
  seq; [apply fine_check_if_processed|].
  destruct a; [leaf|].
  seq; [unfold ThreadPoolExecutor; destruct (_ <=? 0); leaf|].
  apply (sound_bind R E R_trans (post_ok (λ _, True))).
  { apply sound_submit, sound_copy_image; first [exact Hshell | hyps]. }
  intros future Hfuture.
  seq; [by apply sound_future_result|].
  apply sound_with_ledger. intros db0. split; [apply Hins|].
  destruct db0; simpl; done.
Qed.

Lemma fine_repository_body acr_name repo :
  (∀ tag, ok (process_tag cfg ext acr_name repo tag)) →
  ok (tags <- list_tags cfg ext acr_name repo ;;
      create_gcr_repository cfg ext acr_name ;;
      tags' <- the_list tags ;;
      for_each tags' (process_tag cfg ext acr_name repo)).
Proof.
  intros Htag.
  seq; [apply fine_list_tags|].
  seq; [apply sound_create_gcr_repository; hyps|].
  seq; [destruct a; simpl; leaf|].
  apply sound_for_each; [exact R_refl | exact R_trans|].
  intros tag _. apply Htag.
Qed.

Lemma fine_process_repository_with acr_name repo :
  (∀ tag, ok (process_tag cfg ext acr_name repo tag)) →
  ok (process_repository cfg ext acr_name repo).
Proof.
  intros Htag. unfold process_repository.
  apply sound_try_except; [exact R_trans| |intros e; leaf].
  by apply fine_repository_body.
Qed.

Lemma fine_process_acr_with acr_name :
  (∀ repo tag, ok (process_tag cfg ext acr_name repo tag)) →
  ok (process_acr cfg ext acr_name).
Proof.
  intros Htag. unfold process_acr. seq; [apply fine_get_resource_group_name|].
  destruct (from_option truthy false _); [|leaf].
  seq; [apply fine_list_repositories|]. seq; [destruct a0; simpl; leaf|].
  apply sound_for_each; [exact R_refl | exact R_trans|].
  intros repo _. apply fine_process_repository_with. intros tag. apply Htag.
Qed.
End fine_logic.

(** ** One tag *)

Lemma sound_no_exit {A} R E (Q : A → Prop) (m : M A) w c :
  sound R E Q m → out (m w) ≠ Exit c.
Proof. intros Hm Hc. destruct (Hm w) as (_ & _ & H). by rewrite Hc in H. Qed.

Lemma out_with_ledger {A} (op : db → outcome A * db) w :
  out (with_ledger op w) = fst (op (ledger w)).
Proof. unfold with_ledger. by destruct (op (ledger w)). Qed.

Lemma ledger_with_ledger {A} (op : db → outcome A * db) w :
  ledger (post (with_ledger op w)) = snd (op (ledger w)).
Proof. unfold with_ledger. by destruct (op (ledger w)). Qed.

Lemma get_tag_digest_keeps_ledger cfg ext acr_name repo tag w :
  ledger (post (get_tag_digest cfg ext acr_name repo tag w)) = ledger w.
Proof.
  by destruct (fine_get_tag_digest cfg ext eq (λ _, True)) with
    (acr_name := acr_name) (repo := repo) (tag := tag) (w := w) as (<- & _); try congruence.
Qed.

Lemma copy_image_keeps_ledger cfg ext src dst w :
  out (copy_image cfg ext src dst w) = Ret tt ∧
  ledger (post (copy_image cfg ext src dst w)) = ledger w.
Proof.
  split.
  - unfold copy_image, retry. rewrite out_bind. unfold wrapper.
    destruct (wrapper_run_returns (RETRY_LIMIT cfg) 2 "copy_image"
                (copy_image_body ext src dst) (range (RETRY_LIMIT cfg)) w) as [o ->];
      [lia | apply copy_image_body_no_exit | done].
  - by destruct (sound_copy_image cfg ext eq (λ _, True)) with
      (src := src) (dst := dst) (w := w) as (<- & _); try congruence.
Qed.

Lemma no_shell_copies cfg acr_name repo e : no_shell e → copies_of cfg acr_name repo e.
Proof. intros He line ->. by destruct (He line). Qed.

Lemma no_call_no_shell e : is_call e = false → no_shell e.
Proof. intros He line ->. done. Qed.

Lemma argv_no_shell argv : no_shell (Spawn (Argv argv)).
Proof. intros line. done. Qed.

Lemma check_if_processed_eval a r t' d t w :
  ledger w = Some t →
  with_ledger (check_if_processed a r t' d) w
  = Result (Ret (bool_decide ((a, r, t', d) ∈ t))) w [].
Proof. destruct w as [l c f]. simpl. intros ->. done. Qed.

Lemma insert_processed_eval a r t' d t w :
  ledger w = Some t →
  with_ledger (insert_processed a r t' d) w
  = Result (Ret tt) (World (Some ({[ (a, r, t', d) ]} ∪ t)) (clock w) (files w)) [].
Proof. destruct w as [l c f]. simpl. intros ->. done. Qed.

(** X9. A tag whose identity is in the ledger is not copied again:
    [process_tag] looks the digest up, finds the identity, and returns
    without starting [gcrane] and without touching the ledger. *)
Theorem processed_tag_is_skipped
    (cfg : config) (ext : external) (acr_name repo tag d : string)
    (t : gset row) (w : world) :
  out (get_tag_digest cfg ext acr_name repo tag w) = Ret (Some d) →
  truthy d = true →
  ledger w = Some t →
  (acr_name, repo, tag, d) ∈ t →
  let r := process_tag cfg ext acr_name repo tag w in
  out r = Ret tt ∧ ledger (post r) = Some t ∧ Forall no_shell (trace r) ∧
  last (trace r) =
    Some (LogInfo "Skipping {acr_name}/{repo}:{tag}:{digest} as it has been processed before."
            [AStr acr_name; AStr repo; AStr tag; AStr d]).
Proof.
  intros Hget Hd Ht Hin r.
  pose proof (get_tag_digest_keeps_ledger cfg ext acr_name repo tag w) as Hl.
  rewrite Ht in Hl.
  assert (Hr : r = Result (Ret tt) (post (get_tag_digest cfg ext acr_name repo tag w))
                 (trace (get_tag_digest cfg ext acr_name repo tag w) ++
                  [LogInfo "Skipping {acr_name}/{repo}:{tag}:{digest} as it has been processed before."
                     [AStr acr_name; AStr repo; AStr tag; AStr d]])%list).
  { subst r. unfold process_tag. rewrite (bind_ret_proj _ _ _ _ Hget). rewrite Hd.
    rewrite (bind_eval_proj _ _ _ _ _ _ (check_if_processed_eval _ _ _ _ _ _ Hl)).
    rewrite bool_decide_eq_true_2 by done. done. }
  rewrite Hr. cbn [out post trace ledger]. split_and!; try done.
  - apply Forall_app. split.
    + destruct (fine_get_tag_digest cfg ext (λ _ _, True) no_shell) with
        (acr_name := acr_name) (repo := repo) (tag := tag) (w := w) as (_ & H & _);
        auto using no_call_no_shell, argv_no_shell.
    + apply Forall_singleton. by apply no_call_no_shell.
  - by rewrite last_snoc.
Qed.

Lemma processed_tag_is_skipped_witness :
  out (process_tag env digest_d1 "acr1" "app" "v1" known_d1) = Ret tt ∧
  ledger (post (process_tag env digest_d1 "acr1" "app" "v1" known_d1)) = ledger known_d1.
Proof.
  destruct (processed_tag_is_skipped env digest_d1 "acr1" "app" "v1" "sha256:d1"
              ({[ ("acr1", "app", "v1", "sha256:d1") ]} ∪ ∅) known_d1)
    as (H1 & H2 & _); [reflexivity | reflexivity | reflexivity | set_solver |].
  split; [exact H1 | exact H2].
Defined.

Lemma get_tag_digest_returns cfg ext acr_name repo tag w :
  ∃ o, out (get_tag_digest cfg ext acr_name repo tag w) = Ret o.
Proof.
  unfold get_tag_digest, retry. rewrite out_bind. unfold wrapper.
  edestruct (wrapper_run_returns (A := option string) (RETRY_LIMIT cfg) 2) as [o ->];
    [lia| |by eexists].
  intros w' c. eapply sound_no_exit.
  apply (fine_output_or_none ext (λ _ _, True) (λ _, True)); try done.
  apply (sound_bind _ _ (λ _ _ _ _ _, Logic.I) (λ _, True)); [by apply sound_emit|].
  intros. by apply sound_ret.
Qed.

(** X10. A tag for which no digest is found is left alone: when the
    lookup gives [None] or an empty digest, [process_tag] logs the skip
    and returns; no [gcrane] is started and the ledger is as before. *)
Theorem tag_without_digest_is_skipped
    (cfg : config) (ext : external) (acr_name repo tag : string) (w : world) :
  (∀ d, out (get_tag_digest cfg ext acr_name repo tag w) = Ret (Some d) → d = "") →
  let r := process_tag cfg ext acr_name repo tag w in
  out r = Ret tt ∧ ledger (post r) = ledger w ∧ Forall no_shell (trace r) ∧
  last (trace r) =
    Some (LogError "Skipping {acr_name}/{repo}:{tag} due to missing digest."
            [AStr acr_name; AStr repo; AStr tag]).
Proof.
  intros Hno r.
  destruct (get_tag_digest_returns cfg ext acr_name repo tag w) as [o Hget].
  assert (Hr : r = Result (Ret tt) (post (get_tag_digest cfg ext acr_name repo tag w))
                 (trace (get_tag_digest cfg ext acr_name repo tag w) ++
                  [LogError "Skipping {acr_name}/{repo}:{tag} due to missing digest."
                     [AStr acr_name; AStr repo; AStr tag]])%list).
  { subst r. unfold process_tag. rewrite (bind_ret_proj _ _ _ _ Hget).
    destruct o as [d|]; [|done]. rewrite (Hno d Hget). done. }
  rewrite Hr. cbn [out post trace ledger]. split_and!; try done.
  - apply get_tag_digest_keeps_ledger.
  - apply Forall_app. split.
    + destruct (fine_get_tag_digest cfg ext (λ _ _, True) no_shell) with
        (acr_name := acr_name) (repo := repo) (tag := tag) (w := w) as (_ & H & _);
        auto using no_call_no_shell, argv_no_shell.
    + apply Forall_singleton. by apply no_call_no_shell.
  - by rewrite last_snoc.
Qed.

Lemma tag_without_digest_is_skipped_witness :
  out (process_tag env every_process_fails "acr1" "app" "v1" initialised) = Ret tt ∧
  ledger (post (process_tag env every_process_fails "acr1" "app" "v1" initialised))
    = Some ∅.
Proof.
  destruct (tag_without_digest_is_skipped env every_process_fails "acr1" "app" "v1"
              initialised) as (H1 & H2 & _); [intros d Hd; vm_compute in Hd; discriminate|].
  split; [exact H1 | exact H2].
Defined.

Lemma copy_image_body_starts_gcrane ext src dst w :
  Spawn (Shell ("gcrane cp " +:+ src +:+ " " +:+ dst)) ∈ trace (copy_image_body ext src dst w).
Proof.
  unfold copy_image_body, subprocess_run.
  unfold bind at 1. unfold bind at 1. cbn [tick out post trace].
  unfold bind at 1. cbn [emit out post trace].
  destruct (out (of_answer _ _)); cbn [trace];
    repeat first [ destruct (out _) | destruct (_ =? _) | progress cbn [trace app] ];
    set_solver.
Qed.

Lemma wrapper_run_first_call {A} (func : M A) retries delay name i js w e :
  e ∈ trace (func w) → e ∈ trace (fst (wrapper_run retries delay name func (i :: js) w)).
Proof.
  intros He. cbn [wrapper_run].
  destruct (out (func w)); cbn [fst trace]; [done| |done].
  destruct (out (handler _ _ _ _ _)); [|cbn [fst trace]; set_solver..].
  destruct (wrapper_run _ _ _ _ js _). cbn [fst trace]. set_solver.
Qed.

Lemma copy_image_starts_gcrane cfg ext src dst w :
  0 < RETRY_LIMIT cfg →
  Spawn (Shell ("gcrane cp " +:+ src +:+ " " +:+ dst)) ∈ trace (copy_image cfg ext src dst w).
Proof.
  intros Hn. unfold copy_image, retry, wrapper.
  assert (∃ js, range (RETRY_LIMIT cfg) = 0 :: js) as [js ->].
  { unfold range. destruct (Z.to_nat (RETRY_LIMIT cfg)) eqn:Hk; [lia|]. simpl. by eexists. }
  unfold bind.
  pose proof (wrapper_run_first_call (copy_image_body ext src dst) (RETRY_LIMIT cfg) 2
                "copy_image" 0 js w _ (copy_image_body_starts_gcrane ext src dst w)) as H.
  destruct (out _); cbn [trace]; set_solver.
Qed.

Lemma ThreadPoolExecutor_eval n w : 0 < n → ThreadPoolExecutor n w = Result (Ret tt) w [].
Proof. intros Hn. unfold ThreadPoolExecutor. by destruct (Z.leb_spec n 0); [lia|]. Qed.

Lemma digest_found_needs_attempt cfg ext acr_name repo tag d w :
  out (get_tag_digest cfg ext acr_name repo tag w) = Ret (Some d) → 0 < RETRY_LIMIT cfg.
Proof.
  intros Hget. destruct (Z.lt_ge_cases 0 (RETRY_LIMIT cfg)) as [|Hle]; [done|].
  exfalso. revert Hget. unfold get_tag_digest, retry, wrapper, range.
  replace (Z.to_nat (RETRY_LIMIT cfg)) with 0%nat by lia.
  rewrite out_bind. cbn. done.
Qed.

(** X11. A tag with a digest is in the ledger after [process_tag],
    whatever the copy did: for every outside, with the table created and
    a positive [MAX_CONCURRENT_JOBS], [process_tag] returns with the
    identity recorded, and the only command line it may start is the copy
    of this tag. A digest was found, so [RETRY_LIMIT] is positive (with
    another limit [get_tag_digest] makes no attempt and gives [None]);
    hence, when the identity was not recorded before, the copy is
    started. *)
Theorem tag_with_digest_is_recorded
    (cfg : config) (ext : external) (acr_name repo tag d : string)
    (t : gset row) (w : world) :
  out (get_tag_digest cfg ext acr_name repo tag w) = Ret (Some d) →
  d ≠ "" →
  ledger w = Some t →
  0 < MAX_CONCURRENT_JOBS cfg →
  let r := process_tag cfg ext acr_name repo tag w in
  out r = Ret tt ∧
  ledger (post r) = Some ({[ (acr_name, repo, tag, d) ]} ∪ t) ∧
  (∀ line, Spawn (Shell line) ∈ trace r → line = scan_copy_command cfg acr_name repo tag) ∧
  0 < RETRY_LIMIT cfg ∧
  ((acr_name, repo, tag, d) ∉ t →
   Spawn (Shell (scan_copy_command cfg acr_name repo tag)) ∈ trace r).
Proof.
  intros Hget Hd Ht Hn r.
  pose proof (digest_found_needs_attempt _ _ _ _ _ _ _ Hget) as Hretry.
  assert (Htruthy : truthy d = true) by (by destruct d).
  pose proof (get_tag_digest_keeps_ledger cfg ext acr_name repo tag w) as Hl.
  rewrite Ht in Hl.
  set (w1 := post (get_tag_digest cfg ext acr_name repo tag w)) in *.
  set (tr1 := trace (get_tag_digest cfg ext acr_name repo tag w)).
  assert (Htr1 : Forall no_shell tr1).
  { destruct (fine_get_tag_digest cfg ext (λ _ _, True) no_shell) with
      (acr_name := acr_name) (repo := repo) (tag := tag) (w := w) as (_ & H & _);
      auto using no_call_no_shell, argv_no_shell. }
  assert (Hshell : ∀ line, Spawn (Shell line) ∉ tr1).
  { intros line Hin. rewrite Forall_forall in Htr1. by destruct (Htr1 _ Hin line). }
  destruct (decide ((acr_name, repo, tag, d) ∈ t)) as [Hin|Hnotin].
  - assert (Hr : r = Result (Ret tt) w1
                   (tr1 ++ [LogInfo "Skipping {acr_name}/{repo}:{tag}:{digest} as it has been processed before."
                              [AStr acr_name; AStr repo; AStr tag; AStr d]])%list).
    { subst r. unfold process_tag. rewrite (bind_ret_proj _ _ _ _ Hget). rewrite Htruthy.
      fold w1.
      rewrite (bind_eval_proj _ _ _ _ _ _ (check_if_processed_eval _ _ _ _ _ _ Hl)).
      rewrite bool_decide_eq_true_2 by done. done. }
    rewrite Hr. cbn [out post trace]. split_and!; [done| | |done|done].
    + rewrite Hl. f_equal. set_solver.
    + intros line [Hin'|Hin']%elem_of_app; [by destruct (Hshell line)|]. set_solver.
  - set (src := acr_name +:+ ".azurecr.io/" +:+ repo +:+ ":" +:+ tag).
    set (dst := GCR_REGION cfg +:+ "-docker.pkg.dev/" +:+ GCR_PROJECT_ID cfg +:+ "/"
                  +:+ acr_name +:+ "/" +:+ repo +:+ ":" +:+ tag).
    set (c := copy_image cfg ext src dst w1).
    destruct (copy_image_keeps_ledger cfg ext src dst w1) as [Hc_out Hc_ledger].
    rewrite Hl in Hc_ledger. fold c in Hc_out, Hc_ledger.
    assert (Hr : r = Result (Ret tt)
                   (World (Some ({[ (acr_name, repo, tag, d) ]} ∪ t))
                      (clock (post c)) (files (post c)))
                   (tr1 ++ trace c)%list).
    { subst r. unfold process_tag. rewrite (bind_ret_proj _ _ _ _ Hget). rewrite Htruthy.
      fold w1.
      rewrite (bind_eval_proj _ _ _ _ _ _ (check_if_processed_eval _ _ _ _ _ _ Hl)).
      rewrite bool_decide_eq_false_2 by done.
      rewrite (bind_eval_proj _ _ _ _ _ _ (ThreadPoolExecutor_eval _ _ Hn)).
      fold src dst.
      assert (Hs : submit (copy_image cfg ext src dst) w1
                   = Result (Ret (Ret tt)) (post c) (trace c)).
      { unfold submit. fold c. by rewrite Hc_out. }
      rewrite (bind_eval_proj _ _ _ _ _ _ Hs).
      assert (Hf : future_result (Ret tt) (post c) = Result (Ret tt) (post c) []) by done.
      rewrite (bind_eval_proj _ _ _ _ _ _ Hf).
      rewrite (insert_processed_eval _ _ _ _ _ _ Hc_ledger).
      cbn [out post trace app]. by rewrite !app_nil_r. }
    rewrite Hr. cbn [out post trace ledger]. split_and!; [done|done| |done|].
    + intros line [Hin'|Hin']%elem_of_app; [by destruct (Hshell line)|].
      destruct (sound_copy_image cfg ext (λ _ _, True)
                  (λ e, ∀ line, e = Spawn (Shell line) →
                                line = scan_copy_command cfg acr_name repo tag))
        with (src := src) (dst := dst) (w := w1) as (_ & H & _); try done.
      * by intros [] ?.
      * intros line' [= <-]. done.
      * rewrite Forall_forall in H. by apply (H _ Hin').
    + intros _. apply elem_of_app. right. by apply copy_image_starts_gcrane.
Qed.

Lemma tag_with_digest_is_recorded_witness :
  out (process_tag env digest_d1 "acr1" "app" "v1" initialised) = Ret tt ∧
  ledger (post (process_tag env digest_d1 "acr1" "app" "v1" initialised))
    = Some ({[ ("acr1", "app", "v1", "sha256:d1") ]} ∪ ∅) ∧
  Spawn (Shell (scan_copy_command env "acr1" "app" "v1"))
    ∈ trace (process_tag env digest_d1 "acr1" "app" "v1" initialised).
Proof.
  destruct (tag_with_digest_is_recorded env digest_d1 "acr1" "app" "v1" "sha256:d1"
              ∅ initialised) as (H1 & H2 & _ & _ & H3);
    [reflexivity | discriminate | reflexivity | reflexivity |].
  split; [exact H1 |]. split; [exact H2 |]. apply H3. apply not_elem_of_empty.
Defined.

(** ** One repository, one registry *)

Lemma grows_by_insert (allowed : row → Prop) a r t d db0 :
  allowed (a, r, t, d) → grows_by allowed db0 (snd (insert_processed a r t d db0)).
Proof. intros Ha. destruct db0 as [s|]; simpl; [|done]. set_solver. Qed.

Lemma try_except_emit_returns R E (Q : unit → Prop) (m : M unit) (ev : exn → event) w :
  sound R E Q m → out (try_except m (λ e, emit (ev e)) w) = Ret tt.
Proof.
  intros Hm. destruct (Hm w) as (_ & _ & H). unfold try_except.
  destruct (out (m w)) as [[]| |] eqn:Ho; [by rewrite Ho|done|done].
Qed.

Lemma for_each_returns {A} (l : list A) (body : A → M unit) w :
  (∀ x w', out (body x w') = Ret tt) → out (for_each l body w) = Ret tt.
Proof.
  intros Hb. revert w. induction l as [|x l IH]; intros w; [done|].
  cbn [for_each]. rewrite out_bind, Hb. apply IH.
Qed.

Section repository_facts.
Context (cfg : config) (ext : external) (acr_name : string).

Lemma sound_repository_tag repo tag :
  sound (grows_by (row_of acr_name repo)) (copies_of cfg acr_name repo) (λ _, True)
    (process_tag cfg ext acr_name repo tag).
Proof.
  apply fine_process_tag.
  - apply grows_by_refl.
  - apply grows_by_trans.
  - intros e He. by apply no_shell_copies, no_call_no_shell.
  - intros argv. apply no_shell_copies, argv_no_shell.
  - intros line [= <-]. by exists tag.
  - intros d db0. apply grows_by_insert. by exists tag, d.
Qed.

Lemma sound_registry_tag repo tag :
  sound (grows_by (row_from acr_name)) (copies_from cfg acr_name) (λ _, True)
    (process_tag cfg ext acr_name repo tag).
Proof.
  apply fine_process_tag.
  - apply grows_by_refl.
  - apply grows_by_trans.
  - intros e He line ->. done.
  - intros argv line [=].
  - intros line [= <-]. by exists repo, tag.
  - intros d db0. apply grows_by_insert. by exists repo, tag, d.
Qed.
End repository_facts.

(** X12. [process_repository] always returns, for every outside and
    state: what goes wrong inside (a listing that gave [None], a table
    that does not exist) is logged. The ledger only grows, by identities
    of this repository, and every command line started is the copy of a
    tag of this repository. *)
Theorem process_repository_effects
    (cfg : config) (ext : external) (acr_name repo : string) (w : world) :
  let r := process_repository cfg ext acr_name repo w in
  out r = Ret tt ∧
  grows_by (row_of acr_name repo) (ledger w) (ledger (post r)) ∧
  Forall (copies_of cfg acr_name repo) (trace r).
Proof.
  intros r.
  assert (Hs : sound (grows_by (row_of acr_name repo)) (copies_of cfg acr_name repo)
                 (λ _, True) (process_repository cfg ext acr_name repo)).
  { apply fine_process_repository_with.
    - apply grows_by_refl.
    - apply grows_by_trans.
    - intros e He. by apply no_shell_copies, no_call_no_shell.
    - intros argv. apply no_shell_copies, argv_no_shell.
    - apply sound_repository_tag. }
  destruct (Hs w) as (Hl & Htr & _). split_and!; [|done|done].
  subst r. unfold process_repository.
  apply (try_except_emit_returns (λ _ _, True) (λ _, True) (λ _, True)).
  apply fine_repository_body; try done.
  intros tag. by apply fine_process_tag.
Qed.

Lemma retry_returns {A} cfg name (func : M A) w :
  (∀ w' c, out (func w') ≠ Exit c) → ∃ o, out (retry cfg name func w) = Ret o.
Proof.
  intros Hf. unfold retry, wrapper.
  by apply (wrapper_run_returns (RETRY_LIMIT cfg) 2 name func); [lia|].
Qed.

Lemma get_resource_group_name_returns cfg ext acr_name w :
  ∃ o, out (get_resource_group_name cfg ext acr_name w) = Ret o.
Proof.
  unfold get_resource_group_name. rewrite out_bind.
  edestruct (retry_returns (A := option string) cfg) as [o ->]; [|by eexists].
  intros w' c. eapply sound_no_exit.
  apply (fine_output_or_none ext (λ _ _, True) (λ _, True)); try done.
  apply (sound_bind _ _ (λ _ _ _ _ _, Logic.I) (λ _, True)); [by apply sound_emit|].
  intros. by apply sound_ret.
Qed.

Lemma list_repositories_returns cfg ext acr_name w :
  ∃ o, out (list_repositories cfg ext acr_name w) = Ret o.
Proof.
  unfold list_repositories. apply retry_returns.
  intros w' c. apply (sound_no_exit (λ _ _, True) (λ _, True) (λ _, True)).
  apply (sound_bind (λ _ _, True) (λ _, True) (λ _ _ _ _ _, Logic.I) (λ _, True));
    [by apply fine_check_output|].
  intros. by apply sound_ret.
Qed.

Lemma process_repository_returns cfg ext acr_name repo w :
  out (process_repository cfg ext acr_name repo w) = Ret tt.
Proof.
  unfold process_repository.
  apply (try_except_emit_returns (λ _ _, True) (λ _, True) (λ _, True)).
  apply fine_repository_body; try done.
  intros tag. by apply fine_process_tag.
Qed.

(** X13. [process_acr], for every outside and state: the ledger only
    grows, by identities of this registry, and every command line started
    is the copy of a tag of one of its repositories. It returns, or
    raises the [TypeError] of iterating over the [None] that
    [list_repositories] gives when its attempts ran out; in that case
    nothing was copied or recorded. *)
Theorem process_acr_effects
    (cfg : config) (ext : external) (acr_name : string) (w : world) :
  let r := process_acr cfg ext acr_name w in
  grows_by (row_from acr_name) (ledger w) (ledger (post r)) ∧
  Forall (copies_from cfg acr_name) (trace r) ∧
  (out r = Ret tt ∨
   out r = Raise TypeError ∧ ledger (post r) = ledger w ∧ Forall no_shell (trace r)).
Proof.
  intros r.
  assert (Hs : sound (grows_by (row_from acr_name)) (copies_from cfg acr_name)
                 (λ _, True) (process_acr cfg ext acr_name)).
  { apply fine_process_acr_with.
    - apply grows_by_refl.
    - apply grows_by_trans.
    - intros e He line ->. done.
    - intros argv line [=].
    - intros repo tag. apply sound_registry_tag. }
  destruct (Hs w) as (Hl & Htr & _). split_and!; [done|done|].
  subst r. clear Hs Hl Htr. unfold process_acr.
  destruct (get_resource_group_name_returns cfg ext acr_name w) as [rg Hrg].
  rewrite (bind_ret_proj _ _ _ _ Hrg).
  destruct (fine_get_resource_group_name cfg ext eq no_shell) with
    (acr_name := acr_name) (w := w) as (Hl1 & Htr1 & _);
    auto using no_call_no_shell, argv_no_shell; [congruence|].
  set (w1 := post (get_resource_group_name cfg ext acr_name w)) in *.
  destruct (from_option truthy false rg); [|by left].
  destruct (list_repositories_returns cfg ext acr_name w1) as [repos Hrepos].
  rewrite (bind_ret_proj _ _ _ _ Hrepos).
  destruct (fine_list_repositories cfg ext eq no_shell) with
    (acr_name := acr_name) (w := w1) as (Hl2 & Htr2 & _);
    auto using no_call_no_shell, argv_no_shell; [congruence|].
  destruct repos as [l|]; cbn [the_list].
  - left. rewrite bind_ret_l. cbn [out].
    apply for_each_returns. intros repo w'. apply process_repository_returns.
  - right.
    assert (Hb : ∀ w', (repositories' <- raise TypeError ;;
                        for_each repositories' (process_repository cfg ext acr_name)) w'
                       = Result (Raise TypeError) w' []) by done.
    rewrite Hb. cbn [out post trace].
    split_and!; [done|congruence|]. rewrite app_nil_r. by apply Forall_app.
Qed.

(** ** A scan that cannot run *)

Lemma sound_registry_listing cfg ext :
  sound eq no_spawn (λ _, True) (list_acr_registries cfg ext).
Proof.
  assert (Hmsg : ∀ e, is_call e = false → no_spawn e) by (by intros e He c ->).
  unfold list_acr_registries, retry.
  eapply sound_weaken; [apply sound_wrapper|done]; try done; try congruence.
  apply (sound_bind eq no_spawn) with (P := λ _, True); [congruence| |intros n _].
  { by apply sound_tick. }
  apply (sound_bind eq no_spawn) with (P := λ _, True); [congruence| |intros _ _].
  { by apply sound_emit. }
  by apply sound_of_answer.
Qed.

Lemma init_db_eval w :
  out (with_ledger init_db w) = Ret tt ∧
  ledger (post (with_ledger init_db w)) = snd (init_db (ledger w)) ∧
  ∃ t, snd (init_db (ledger w)) = Some t.
Proof. destruct w as [[t|] c f]; simpl; eauto. Qed.

Lemma get_all_processed_eval t w :
  ledger w = Some t →
  with_ledger get_all_processed w = Result (Ret (elements t)) w [].
Proof. destruct w as [l c f]. simpl. intros ->. done. Qed.

(** X14. A full scan with a limit of concurrent jobs that is not
    positive copies nothing, however many registries the subscription
    has: once the registries are listed no child process is started and
    the ledger is what [init_db] left. With [MAX_CONCURRENT_JOBS = 0] the
    scan ends in the [ValueError] of [range] in [chunkify]; with a
    negative limit [chunkify] gives no chunk, and the scan reports that it
    finished processing all registries. *)
Theorem nonpositive_limit_scans_nothing
    (cfg : config) (ext : external) (names : list string) (w : world) :
  MAX_CONCURRENT_JOBS cfg ≤ 0 →
  out (list_acr_registries cfg ext (post (with_ledger init_db w))) = Ret (Some names) →
  let r := full_scan cfg ext w in
  Forall no_spawn (trace r) ∧
  ledger (post r) = snd (init_db (ledger w)) ∧
  out r = (if MAX_CONCURRENT_JOBS cfg =? 0 then Raise ValueError else Ret tt) ∧
  (MAX_CONCURRENT_JOBS cfg < 0 →
   LogInfo "Finished processing all ACRs" [] ∈ trace r).
Proof.
  intros Hn Hlist r.
  destruct (init_db_eval w) as (Hinit & Hl0 & t & Ht).
  set (w0 := post (with_ledger init_db w)) in *.
  destruct (sound_registry_listing cfg ext w0) as (Hl1 & Htr1 & _).
  set (w1 := post (list_acr_registries cfg ext w0)) in *.
  set (tr1 := trace (list_acr_registries cfg ext w0)) in *.
  assert (Hmsg : ∀ e, is_call e = false → no_spawn e) by (by intros e He c ->).
  assert (Ht1 : ledger w1 = Some t) by congruence.
  assert (Hr : r = if MAX_CONCURRENT_JOBS cfg =? 0
                   then Result (Raise ValueError) w1
                          (trace (with_ledger init_db w) ++ tr1 ++ [])%list
                   else Result (Ret tt) w1
                          (trace (with_ledger init_db w) ++ tr1 ++
                           LogInfo "Finished processing all ACRs" [] ::
                           ((λ entry, Print "Processed: {entry}" [ARow entry]) <$> elements t))%list).
  { subst r. unfold full_scan. rewrite (bind_ret_proj _ _ _ _ Hinit). fold w0.
    rewrite (bind_ret_proj _ _ _ _ Hlist). fold w1 tr1.
    cbn [the_list]. rewrite bind_ret_l.
    unfold chunkify, range_step.
    destruct (Z.eqb_spec (MAX_CONCURRENT_JOBS cfg) 0) as [H0|H0].
    - cbn [of_answer]. unfold bind at 1. cbn [raise out post trace]. done.
    - destruct (Z.ltb_spec (MAX_CONCURRENT_JOBS cfg) 0) as [_|?]; [|lia].
      cbn [of_answer fmap list_fmap]. rewrite bind_ret_l.
      cbn [for_each]. rewrite bind_ret_l.
      assert (He : ∀ e, emit e w1 = Result (Ret tt) w1 [e]) by done.
      rewrite (bind_eval_proj _ _ _ _ _ _ (He _)).
      rewrite (bind_eval_proj _ _ _ _ _ _ (get_all_processed_eval _ _ Ht1)).
      unfold Migration.print. rewrite for_each_emit_print_eval. cbn [out post trace app]. done. }
  assert (H0 : Forall no_spawn (trace (with_ledger init_db w))).
  { unfold with_ledger. destruct (init_db _). by cbn [trace]. }
  rewrite Hr. destruct (Z.eqb_spec (MAX_CONCURRENT_JOBS cfg) 0) as [Hz|Hz];
    cbn [out post trace]; (split_and!; [|congruence|done|]).
  - rewrite app_nil_r. by apply Forall_app.
  - lia.
  - apply Forall_app. split; [done|]. apply Forall_app. split; [done|].
    apply Forall_cons. split; [by apply Hmsg|].
    apply Forall_fmap, Forall_true. intros entry. by apply Hmsg.
  - intros _. set_solver.
Qed.

Lemma nonpositive_limit_scans_nothing_witness :
  out (full_scan negative_jobs two_registries fresh) = Ret tt ∧
  out (full_scan no_jobs two_registries fresh) = Raise ValueError ∧
  ledger (post (full_scan negative_jobs two_registries fresh)) = Some ∅.
Proof.
  destruct (nonpositive_limit_scans_nothing negative_jobs two_registries
              ["acr1"; "acr2"] fresh) as (_ & H1 & H2 & _);
    [vm_compute; discriminate | reflexivity |].
  destruct (nonpositive_limit_scans_nothing no_jobs two_registries
              ["acr1"; "acr2"] fresh) as (_ & _ & H3 & _);
    [vm_compute; discriminate | reflexivity |].
  split; [exact H2|]. split; [exact H3 | exact H1].
Defined.

(** ** The destination repository of a replay *)

Lemma subprocess_run_eval ext c w p :
  ext_run ext c (clock w) = Answer p →
  subprocess_run ext c w = Result (Ret p) (after_call w) [Spawn c].
Proof. intros Hrun. unfold subprocess_run, bind, tick, emit. simpl. by rewrite Hrun. Qed.

Lemma subprocess_run_text_check_eval ext c w rc o e :
  ext_run ext c (clock w) = Answer (Completed rc (Some o) (Some e)) →
  subprocess_run_text_check ext c w
  = Result (if rc =? 0 then Ret (o, e) else Raise CalledProcessError)
      (after_call w) [Spawn c].
Proof.
  intros Hrun. unfold subprocess_run_text_check.
  rewrite (bind_eval_proj _ _ _ _ _ _ (subprocess_run_eval _ _ _ _ Hrun)).
  cbn [stdout stderr decode returncode]. rewrite !bind_ret_l.
  by destruct (rc =? 0).
Qed.

Lemma try_except_eval {A} (m : M A) (h : exn → M A) w o w1 tr :
  m w = Result o w1 tr →
  try_except m h w =
  match o with
  | Raise e => Result (out (h e w1)) (post (h e w1)) (tr ++ trace (h e w1))
  | _ => Result o w1 tr
  end.
Proof. intros Hm. unfold try_except. rewrite Hm. by destruct o. Qed.

Lemma ensure_gar_repository_eval
    (cfg : config) (ext : external) (project_id repository_name : string)
    (rc : Z) (o e : string) (w : world) :
  ext_run ext (gar_listing cfg project_id repository_name) (clock w)
    = Answer (Completed rc (Some o) (Some e)) →
  ensure_gar_repository cfg ext project_id repository_name w
  = Result
      (if (rc =? 0) && negb (truthy (strip o)) then Raise NameError else Ret tt)
      (after_call w)
      [Spawn (gar_listing cfg project_id repository_name);
       if negb (rc =? 0)
       then Print "An error occurred while checking or creating the repository: {e}"
              [AExn CalledProcessError]
       else if truthy (strip o)
       then Print "Repository {repository_name} already exists." [AStr repository_name]
       else Print "Creating repository {repository_name} in project {project_id}."
              [AStr repository_name; AStr project_id]].
Proof.
  intros Hrun.
  unfold ensure_gar_repository, except_CalledProcessError.
  apply (subprocess_run_text_check_eval ext _ w) in Hrun.
  destruct (rc =? 0); cbn [negb andb].
  - rewrite (try_except_eval _ _ _ _ _ _
               (bind_eval_proj _ _ _ _ _ _ Hrun)). cbn [fst].
    destruct (truthy (strip o)); cbn [negb]; [done|].
    unfold Migration.print, location. unfold bind, emit, raise. simpl. done.
  - rewrite (try_except_eval _ _ _ _ _ _ (bind_raise _ _ _ _ _ _ Hrun)). done.
Qed.

(** X15. [ensure_gar_repository] never creates a repository. It starts
    one process, the listing. When the listing fails it reports the error
    and returns; when it prints a name it reports that the repository
    exists and returns; when it prints nothing, the creation is announced
    and the function raises the [NameError] of the global [location],
    which the script never assigns, before any [create] process is
    started. *)
Theorem ensure_gar_repository_never_creates
    (cfg : config) (ext : external) (project_id repository_name : string)
    (rc : Z) (o e : string) (w : world) :
  ext_run ext (gar_listing cfg project_id repository_name) (clock w)
    = Answer (Completed rc (Some o) (Some e)) →
  ensure_gar_repository cfg ext project_id repository_name w
  = Result
      (if (rc =? 0) && negb (truthy (strip o)) then Raise NameError else Ret tt)
      (after_call w)
      [Spawn (gar_listing cfg project_id repository_name);
       if negb (rc =? 0)
       then Print "An error occurred while checking or creating the repository: {e}"
              [AExn CalledProcessError]
       else if truthy (strip o)
       then Print "Repository {repository_name} already exists." [AStr repository_name]
       else Print "Creating repository {repository_name} in project {project_id}."
              [AStr repository_name; AStr project_id]].
Proof. apply ensure_gar_repository_eval. Qed.


Lemma ensure_gar_repository_never_creates_witness :
  out (ensure_gar_repository env nothing_listed "abc-2" "acr1" fresh) = Raise NameError ∧
  spawned (trace (ensure_gar_repository env nothing_listed "abc-2" "acr1" fresh)) = 1%nat.
Proof.
  rewrite (ensure_gar_repository_never_creates env nothing_listed "abc-2" "acr1"
             0 "" "" fresh eq_refl).
  split; reflexivity.
Defined.

Lemma readlines_eval path lines w :
  files w !! path = Some lines → readlines path w = Result (Ret lines) w [].
Proof. intros Hf. unfold readlines. by rewrite Hf. Qed.

(** X16. A replay stops at the first image whose destination repository
    is not listed. When the first line of the difference file has at
    least three fields and the listing of its repository prints nothing,
    [copy_images_to_gcr] announces the creation, reports the [NameError]
    and returns: no image of the file is copied, whatever the other lines
    are, and the ledger is as it was. *)
Theorem missing_destination_aborts_replay
    (cfg : config) (ext : external) (path line : string) (rest : list string)
    (p0 p1 p2 : string) (more : list string) (o e : string) (w : world) :
  files w !! path = Some (line :: rest) →
  fields line = p0 :: p1 :: p2 :: more →
  ext_run ext (gar_listing cfg (GCR_PROJECT_ID cfg) p0) (clock w)
    = Answer (Completed 0 (Some o) (Some e)) →
  strip o = "" →
  copy_images_to_gcr cfg ext path w
  = Result (Ret tt) (after_call w)
      [Spawn (gar_listing cfg (GCR_PROJECT_ID cfg) p0);
       Print "Creating repository {repository_name} in project {project_id}."
         [AStr p0; AStr (GCR_PROJECT_ID cfg)];
       Print "An error occurred: {e}" [AExn NameError]].
Proof.
  intros Hfile Hfields Hrun Hblank.
  pose proof (ensure_gar_repository_eval cfg ext _ _ _ _ _ w Hrun) as Hensure.
  rewrite Hblank in Hensure. cbn [Z.eqb truthy negb andb] in Hensure.
  unfold copy_images_to_gcr.
  assert (Hloop : replay_loop cfg ext (line :: rest) (ReplayVars None None []) w
                  = Result (Raise NameError) (after_call w)
                      [Spawn (gar_listing cfg (GCR_PROJECT_ID cfg) p0);
                       Print "Creating repository {repository_name} in project {project_id}."
                         [AStr p0; AStr (GCR_PROJECT_ID cfg)]]).
  { cbn [replay_loop]. unfold fields in Hfields. rewrite Hfields.
    cbn [length Nat.leb index lookup list_lookup]. rewrite bind_ret_l.
    by apply bind_raise. }
  rewrite (try_except_eval _ _ _ _ _ _
             (bind_eval_proj _ _ _ _ _ _ (readlines_eval _ _ _ Hfile))).
  rewrite (bind_raise _ _ _ _ _ _ Hloop). done.
Qed.

Lemma missing_destination_aborts_replay_witness :
  out (copy_images_to_gcr env nothing_listed "diff.txt" with_difference_file) = Ret tt ∧
  ledger (post (copy_images_to_gcr env nothing_listed "diff.txt" with_difference_file))
    = ledger with_difference_file ∧
  spawned (trace (copy_images_to_gcr env nothing_listed "diff.txt" with_difference_file))
    = 1%nat.
Proof.
  rewrite (missing_destination_aborts_replay env nothing_listed "diff.txt"
             _ _ "acr1" "app" "v1" _ "" "" with_difference_file
             eq_refl eq_refl eq_refl eq_refl).
  repeat split.
Defined.

(** ** What a replay records *)

Lemma split_colon_free (a r : string) :
  has_colon a = false → split ":" (a +:+ String ":" r) = a :: split ":" r.
Proof.
  induction a as [|c a IH]; simpl; [done|].
  intros [Hc Ha]%orb_false_iff. rewrite Hc, (IH Ha). done.
Qed.

Lemma split_image_identifier (id : row) :
  colon_free id →
  ∃ h tl, split ":" (Verify.image_identifier id)
          = id.1.1.1 :: id.1.1.2 :: id.1.2 :: String "-" h :: tl.
Proof.
  destruct id as [[[a b] c] d]. intros (Ha & Hb & Hc). unfold Verify.image_identifier.
  change (a +:+ ":" +:+ b +:+ ":" +:+ c +:+ ":-" +:+ d)
    with (a +:+ String ":" (b +:+ String ":" (c +:+ String ":" (String "-" d)))).
  rewrite !split_colon_free by done. cbn [split fst snd].
  change (Ascii.eqb "-" ":") with false. cbn iota.
  destruct (split ":" d) as [|h tl]; by eexists _, _.
Qed.

(** X17. The replay does not record the identity that the full scan
    looks up. For a difference file whose lines, once stripped, are
    identifiers [registry:repo:tag:-digest] as the verification script
    writes them (no colon in the first three fields), every row that
    [copy_images_to_gcr] adds to the ledger has a digest that starts with
    the hyphen of the identifier. So for an identity whose digest does not
    start with a hyphen, as the digests that [get_tag_digest] reads are,
    [check_if_processed] answers after the replay what it answered
    before. *)
Theorem replay_records_hyphenated_digest
    (cfg : config) (ext : external) (path : string) (lines : list string)
    (t : gset row) (w : world) :
  files w !! path = Some lines →
  ledger w = Some t →
  (∀ line, line ∈ lines → ∃ id, colon_free id ∧ strip line = Verify.image_identifier id) →
  let r := copy_images_to_gcr cfg ext path w in
  ∃ t' : gset row,
    ledger (post r) = Some t' ∧ t ⊆ t' ∧
    (∀ row, row ∈ t' → row ∉ t → ∃ d, row.2 = String "-" d) ∧
    (∀ acr_name repo tag digest,
       (∀ d, digest ≠ String "-" d) →
       fst (check_if_processed acr_name repo tag digest (ledger (post r)))
       = fst (check_if_processed acr_name repo tag digest (ledger w))).
Proof.
  intros Hfile Ht Hlines r.
  destruct (sound_copy_images_to_gcr cfg ext lines path w Hfile) as (Hgrow & _ & _).
  fold r in Hgrow. rewrite Ht in Hgrow. unfold grows_by in Hgrow.
  destruct (ledger (post r)) as [t'|] eqn:Hpost; [|done].
  destruct Hgrow as [Hsub Hnew]. exists t'.
  assert (Hrows : ∀ row, row ∈ t' → row ∉ t → ∃ d, row.2 = String "-" d).
  { intros row Hin Hnotin. destruct (Hnew row Hin) as [?|Hrow]; [done|].
    destruct Hrow as (line & p0 & p1 & p2 & p3 & p4 & rest & Hline & Hfields & ->).
    destruct (Hlines line Hline) as (id & Hid & Hstrip).
    destruct (split_image_identifier id Hid) as (h & tl & Hsplit).
    unfold fields in Hfields. rewrite Hstrip, Hsplit in Hfields.
    injection Hfields as _ _ _ <- _. by eexists. }
  split_and!; [done|done|done|].
  intros a rp tg d Hd. rewrite Ht. cbn [check_if_processed fst]. f_equal.
  apply bool_decide_ext. split; [|by apply Hsub].
  intros Hin. destruct (decide ((a, rp, tg, d) ∈ t)) as [|Hnotin]; [done|].
  destruct (Hrows _ Hin Hnotin) as [d' Hd']. by destruct (Hd d').
Qed.

Lemma replay_records_hyphenated_digest_witness :
  fst (check_if_processed "acr1" "app" "v2" "sha256:bbb"
         (ledger (post (copy_images_to_gcr env (every_process 0 "found" "") "diff.txt"
                          with_difference_file))))
  = Ret false.
Proof.
  destruct (replay_records_hyphenated_digest env (every_process 0 "found" "") "diff.txt"
              two_lines ∅ with_difference_file) as (t' & _ & _ & _ & H).
  - reflexivity.
  - reflexivity.
  - intros line [->|[->|[]%elem_of_nil]%elem_of_cons]%elem_of_cons.
    + exists ("acr1", "app", "v1", "sha256:aaa"). by vm_compute.
    + exists ("acr1", "app", "v2", "sha256:bbb"). by vm_compute.
  - rewrite H; [reflexivity|]. intros d. discriminate.
Defined.

(** ** The files of the verification *)

Lemma rstrip_line_feed (s : string) : rstrip (s +:+ String "010" "") = rstrip s.
Proof.
  induction s as [|c s IH]; [done|].
  change (String c s +:+ String "010" "") with (String c (s +:+ String "010" "")).
  cbn [rstrip]. by rewrite IH.
Qed.

Lemma strip_line_feed (s : string) : strip (s +:+ String "010" "") = strip s.
Proof.
  unfold strip. induction s as [|c s IH]; [done|].
  change (String c s +:+ String "010" "") with (String c (s +:+ String "010" "")).
  cbn [lstrip]. destruct (isspace c); [done|].
  apply (rstrip_line_feed (String c s)).
Qed.

Lemma rstrip_idemp (s : string) : rstrip (rstrip s) = rstrip s.
Proof.
  induction s as [|c s IH]; [done|]. cbn [rstrip].
  destruct (rstrip s) as [|c' s'] eqn:Hs.
  - destruct (isspace c) eqn:Hc; [done|]. cbn [rstrip]. by rewrite Hc.
  - cbn [rstrip]. cbn [rstrip] in IH. by rewrite IH.
Qed.

Lemma lstrip_head (s : string) :
  match lstrip s with EmptyString => True | String c _ => isspace c = false end.
Proof.
  induction s as [|c s IH]; [done|]. cbn [lstrip].
  by destruct (isspace c) eqn:Hc.
Qed.

Lemma rstrip_head c s :
  isspace c = false → ∃ s', rstrip (String c s) = String c s'.
Proof. intros Hc. cbn [rstrip]. destruct (rstrip s); rewrite ?Hc; by eexists. Qed.

Lemma strip_idemp (s : string) : strip (strip s) = strip s.
Proof.
  unfold strip. pose proof (lstrip_head s) as Hh.
  destruct (lstrip s) as [|c t]; [done|].
  destruct (rstrip_head c t Hh) as [s' Hs']. rewrite Hs'.
  cbn [lstrip]. rewrite Hh, <- Hs'. apply rstrip_idemp.
Qed.

Lemma images_of_file_lines (image_list : list string) :
  images_of_lines (file_lines image_list) = list_to_set (strip <$> image_list).
Proof.
  unfold images_of_lines, file_lines. rewrite <- list_fmap_compose. f_equal.
  apply list_fmap_ext. intros _ image _. apply strip_line_feed.
Qed.

Lemma inventory_stripped (all_images : list string) (image : string) :
  image ∈ inventory all_images → strip image = image.
Proof.
  unfold inventory. rewrite images_of_file_lines, elem_of_list_to_set, list_elem_of_fmap.
  intros (x & -> & _). apply strip_idemp.
Qed.

(** X18. What [write_images_to_file] writes, [read_images_from_file]
    reads back: for images that hold no line break, the set read from the
    file just written is the set of the images, each stripped of the white
    space at its ends. Images that are already stripped are read back
    unchanged, and duplicates are read once. The other files are left as
    they were. *)
Theorem written_inventory_is_read_back
    (image_list : list string) (filename : string) (w : world) :
  Forall (λ image, one_line image = true) image_list →
  let w' := post (write_images_to_file image_list filename w) in
  out (write_images_to_file image_list filename w) = Ret tt ∧
  out (read_images_from_file filename w') = Ret (list_to_set (strip <$> image_list)) ∧
  (Forall (λ image, strip image = image) image_list →
   out (read_images_from_file filename w') = Ret (list_to_set image_list)) ∧
  (∀ path, path ≠ filename → files w' !! path = files w !! path).
Proof.
  intros _ w'.
  assert (Hw : files w' = <[filename := file_lines image_list]> (files w)) by done.
  assert (Hread : out (read_images_from_file filename w')
                  = Ret (list_to_set (strip <$> image_list))).
  { unfold read_images_from_file. rewrite Hw, lookup_insert_eq. cbn [out].
    by rewrite images_of_file_lines. }
  split_and!; [done|done| |].
  - intros Hs. rewrite Hread. do 2 f_equal.
    rewrite <- (list_fmap_id image_list) at 2. apply list_fmap_ext.
    intros i x Hx. rewrite Forall_lookup in Hs. by apply (Hs i).
  - intros path Hpath. rewrite Hw. by apply lookup_insert_ne.
Qed.

Lemma written_inventory_is_read_back_witness :
  out (read_images_from_file "acr_all_images.txt"
         (post (write_images_to_file acr_two "acr_all_images.txt" fresh)))
  = Ret (list_to_set acr_two).
Proof.
  destruct (written_inventory_is_read_back acr_two "acr_all_images.txt" fresh)
    as (_ & _ & H & _); [by repeat constructor|].
  apply H. by repeat constructor.
Defined.

Lemma remove_old_files_eval (w : world) :
  ∃ tr, remove_old_files w
        = Result (Ret tt)
            (World (ledger w) (clock w)
               (delete difference_output_file
                  (delete gcr_output_file (delete acr_output_file (files w))))) tr ∧
        Forall (λ e, is_call e = false) tr.
Proof.
  unfold remove_old_files.
  destruct (remove_if_exists_eval acr_output_file w) as (tr1 & H1 & Ht1).
  set (w1 := World _ _ _) in H1.
  destruct (remove_if_exists_eval gcr_output_file w1) as (tr2 & H2 & Ht2).
  set (w2 := World _ _ _) in H2.
  destruct (remove_if_exists_eval difference_output_file w2) as (tr3 & H3 & Ht3).
  exists (tr1 ++ tr2 ++ tr3)%list. split.
  - eapply bind_eval; [exact H1|]. eapply bind_eval; [exact H2|exact H3].
  - rewrite !Forall_app. done.
Qed.

Lemma getsize_file_lines (path : string) (images : list string) (w : world) :
  files w !! path = Some (file_lines images) →
  images ≠ [] →
  ∃ n, getsize path w = Result (Ret (S n)) w [].
Proof.
  intros Hf Hne. unfold getsize. rewrite Hf.
  destruct images as [|x images]; [done|]. cbn [file_lines fmap list_fmap sum_list].
  destruct x; cbn [String.append String.length]; by eexists.
Qed.

Lemma stripped_set_elements (X : gset string) :
  (∀ x, x ∈ X → strip x = x) →
  images_of_lines (file_lines (elements X)) = X.
Proof.
  intros Hs. rewrite images_of_file_lines.
  apply set_eq. intros x. rewrite elem_of_list_to_set, list_elem_of_fmap. split.
  - intros (y & -> & Hy%elem_of_elements). by rewrite (Hs y Hy).
  - intros Hx. exists x. rewrite elem_of_elements. by rewrite (Hs x Hx).
Qed.

Lemma verification_run_eval
    (acr_all_images gar_all_images : list string) (w : world) :
  Forall (λ image, one_line image = true) acr_all_images →
  Forall (λ image, one_line image = true) gar_all_images →
  let r := Verify.main acr_all_images gar_all_images w in
  let missing := diff (list_to_set (strip <$> acr_all_images))
                      (list_to_set (strip <$> gar_all_images)) in
  out r = Ret tt ∧
  ledger (post r) = ledger w ∧
  Forall (λ e, is_call e = false) (trace r) ∧
  files (post r) !! acr_output_file = Some (file_lines acr_all_images) ∧
  files (post r) !! gcr_output_file = Some (file_lines gar_all_images) ∧
  files (post r) !! difference_output_file
    = (if bool_decide (missing ≠ ∅) then Some (file_lines (elements missing)) else None) ∧
  (∀ path, path ∉ output_files → files (post r) !! path = files w !! path) ∧
  last (trace r)
    = Some (if bool_decide (missing ≠ ∅)
            then Print "
**** Difference in ACR to GAR Found. Content stored in {difference_output_file}"
                   [AStr difference_output_file]
            else Print "No images to copy. The difference file was not created or is empty." []) ∧
  (missing ≠ ∅ →
   out (read_images_from_file difference_output_file (post r)) = Ret missing).
Proof.
  intros _ _ r missing. subst r. unfold Verify.main.
  destruct (remove_old_files_eval w) as (tr0 & H0 & Ht0).
  set (w3 := World _ _ _) in H0.
  rewrite (bind_eval_proj _ _ _ _ _ _ H0).
  set (w4 := World (ledger w3) (clock w3)
               (<[acr_output_file := file_lines acr_all_images]> (files w3))).
  assert (H4 : get_acr acr_all_images w3
               = Result (Ret tt) w4
                   [Print "Image list has been written to {filename}" [AStr acr_output_file]])
    by reflexivity.
  set (w5 := World (ledger w4) (clock w4)
               (<[gcr_output_file := file_lines gar_all_images]> (files w4))).
  assert (H5 : get_gar gar_all_images w4
               = Result (Ret tt) w5
                   [Print "Image list has been written to {filename}" [AStr gcr_output_file]])
    by reflexivity.
  rewrite (bind_eval_proj _ _ _ _ _ _ H4), (bind_eval_proj _ _ _ _ _ _ H5).
  destruct (compare_registries_eval acr_output_file gcr_output_file difference_output_file
              (file_lines acr_all_images) (file_lines gar_all_images) w5)
    as (Hout & Hledger & Htr & Hfiles).
  { subst w5 w4. simpl. rewrite lookup_insert_ne by done. apply lookup_insert_eq. }
  { subst w5. simpl. apply lookup_insert_eq. }
  rewrite !images_of_file_lines in Hout, Hfiles. fold missing in Hout, Hfiles.
  set (c := compare_registries _ _ _ w5) in *.
  rewrite (bind_ret_proj _ _ _ _ Hout).
  assert (Hother : ∀ path, path ∉ output_files →
                           files (post c) !! path = files w !! path).
  { intros path Hpath. unfold output_files in Hpath.
    assert (path ≠ acr_output_file ∧ path ≠ gcr_output_file ∧
            path ≠ difference_output_file) as (Ha & Hg & Hd) by set_solver.
    rewrite Hfiles.
    assert (Hw5 : files w5 !! path = files w !! path).
    { subst w5 w4 w3. cbn [files].
      rewrite !lookup_insert_ne, !lookup_delete_ne by done. done. }
    destruct (bool_decide (missing ≠ ∅));
      [rewrite lookup_insert_ne by done | rewrite lookup_delete_ne by done]; done. }
  assert (Hacr : files (post c) !! acr_output_file = Some (file_lines acr_all_images)).
  { rewrite Hfiles.
    destruct (bool_decide (missing ≠ ∅));
      [rewrite lookup_insert_ne by done | rewrite lookup_delete_ne by done];
      subst w5 w4; cbn [files]; rewrite lookup_insert_ne by done; apply lookup_insert_eq. }
  assert (Hgar : files (post c) !! gcr_output_file = Some (file_lines gar_all_images)).
  { rewrite Hfiles.
    destruct (bool_decide (missing ≠ ∅));
      [rewrite lookup_insert_ne by done | rewrite lookup_delete_ne by done];
      subst w5; cbn [files]; apply lookup_insert_eq. }
  assert (Hstripped : ∀ x, x ∈ missing → strip x = x).
  { intros x [Hx _]%elem_of_difference.
    apply elem_of_list_to_set, list_elem_of_fmap in Hx as (y & -> & _). apply strip_idemp. }
  destruct (bool_decide (missing ≠ ∅)) eqn:Hm.
  - apply bool_decide_eq_true in Hm.
    assert (Hd : files (post c) !! difference_output_file
                 = Some (file_lines (elements missing)))
      by (rewrite Hfiles; apply lookup_insert_eq).
    destruct (getsize_file_lines difference_output_file (elements missing) (post c) Hd)
      as [n Hn].
    { intros He. apply Hm. by apply elements_empty_inv in He as ->%leibniz_equiv. }
    assert (Hsize : (n <- getsize difference_output_file ;; ret (0 <? n)%nat) (post c)
                    = Result (Ret true) (post c) []).
    { eapply (bind_eval _ _ _ _ _ _ _ _ [] Hn). reflexivity. }
    rewrite (bind_eval_proj _ _ _ _ _ _ Hsize).
    cbn [ret out post trace]. unfold Verify.print, emit.
    cbn [out post trace]. split_and!; try done.
    + rewrite !Forall_app. split_and!; try done; by repeat constructor.
    + by rewrite !app_assoc, last_snoc.
    + intros _. unfold read_images_from_file. rewrite Hd. cbn [out].
      by rewrite stripped_set_elements.
  - apply bool_decide_eq_false in Hm.
    rewrite bind_ret_l. unfold Verify.print, emit. cbn [out post trace].
    split_and!; try done.
    + rewrite !Forall_app. split_and!; try done; by repeat constructor.
    + fold c. rewrite Hfiles. apply lookup_delete_eq.
    + by rewrite !app_assoc, last_snoc.
Qed.

(** X19. A run of the verification script, for the two lists of images
    that the enumerations gather (no image holding a line break): the run
    ends normally, starts no process and leaves the ledger alone. After it
    the two inventory files hold the lists, one image per line; the
    difference file exists exactly when some image of the source, stripped,
    is not in the destination, and then its lines are these images, in
    some order, which [read_images_from_file] reads back as this
    difference; no other file is touched. The last message says that a
    difference was found exactly in that case: a difference file that was
    created is never empty. *)
Theorem verification_run_effects
    (acr_all_images gar_all_images : list string) (w : world) :
  Forall (λ image, one_line image = true) acr_all_images →
  Forall (λ image, one_line image = true) gar_all_images →
  let r := Verify.main acr_all_images gar_all_images w in
  let missing := diff (list_to_set (strip <$> acr_all_images))
                      (list_to_set (strip <$> gar_all_images)) in
  out r = Ret tt ∧
  ledger (post r) = ledger w ∧
  Forall (λ e, is_call e = false) (trace r) ∧
  files (post r) !! acr_output_file = Some (file_lines acr_all_images) ∧
  files (post r) !! gcr_output_file = Some (file_lines gar_all_images) ∧
  (if bool_decide (missing ≠ ∅)
   then ∃ lines, files (post r) !! difference_output_file = Some lines ∧
                 lines ≡ₚ file_lines (elements missing)
   else files (post r) !! difference_output_file = None) ∧
  (∀ path, path ∉ output_files → files (post r) !! path = files w !! path) ∧
  last (trace r)
    = Some (if bool_decide (missing ≠ ∅)
            then Print "
**** Difference in ACR to GAR Found. Content stored in {difference_output_file}"
                   [AStr difference_output_file]
            else Print "No images to copy. The difference file was not created or is empty." []) ∧
  (missing ≠ ∅ →
   out (read_images_from_file difference_output_file (post r)) = Ret missing).
Proof.
  intros Ha Hg r missing.
  destruct (verification_run_eval acr_all_images gar_all_images w Ha Hg)
    as (Ho & Hl & Htr & Hacr & Hgar & Hd & Hother & Hlast & Hread).
  fold r missing in Ho, Hl, Htr, Hacr, Hgar, Hd, Hother, Hlast, Hread.
  split_and!; try done.
  destruct (bool_decide (missing ≠ ∅)); [|done]. by eexists.
Qed.

Lemma verification_run_effects_witness :
  out (Verify.main acr_two gar_one fresh) = Ret tt ∧
  files (post (Verify.main acr_two gar_one fresh)) !! acr_output_file
    = Some (file_lines acr_two).
Proof.
  destruct (verification_run_effects acr_two gar_one fresh)
    as (H1 & _ & _ & H2 & _); [by repeat constructor | by repeat constructor |].
  split; [exact H1 | exact H2].
Defined.

(** X20. [compare_registries] needs both inventory files. Of the two
    definitions of [read_images_from_file] the second, which has no
    handler for a file that cannot be opened, is the one in force: when
    one of the two files does not exist the comparison raises, and nothing
    has been printed, written or removed. *)
Theorem missing_inventory_file_raises
    (acr_file gcr_file difference_file : string) (w : world) :
  files w !! acr_file = None ∨ files w !! gcr_file = None →
  compare_registries acr_file gcr_file difference_file w = Result (Raise OSError) w [].
Proof.
  intros Hmissing. unfold compare_registries.
  destruct (files w !! acr_file) as [la|] eqn:Ha.
  - destruct Hmissing as [|Hb]; [done|].
    assert (Hra : read_images_from_file acr_file w = Result (Ret (images_of_lines la)) w [])
      by (unfold read_images_from_file; by rewrite Ha).
    rewrite (bind_pure _ _ _ _ Hra).
    apply bind_raise. unfold read_images_from_file. by rewrite Hb.
  - apply bind_raise. unfold read_images_from_file. by rewrite Ha.
Qed.

Lemma missing_inventory_file_raises_witness :
  out (compare_registries acr_output_file gcr_output_file difference_output_file fresh)
  = Raise OSError.
Proof.
  rewrite (missing_inventory_file_raises acr_output_file gcr_output_file
             difference_output_file fresh (or_introl eq_refl)).
  reflexivity.
Defined.

(** ** The enumerations of the verification script *)

Section enumeration_logic.
Context (ext : external).
Context (items : string → answer (list string)).
Context (first_item : string → answer (option string)).
Context (registry_names : string → answer (list (answer string))).
Context (images : string → answer (list (answer (string * string * list string)))).

Context (E : event → Prop).
Hypothesis E_shell : ∀ line, E (Spawn (Shell line)).

Local Abbreviation ok := (sound eq E).

Local Tactic Notation "seq" constr(P) :=
  apply (sound_bind eq E (@eq_trans db) P).

Lemma sound_run (line : string) : ok (λ _, True) (Enumeration.run ext line).
Proof.
  unfold Enumeration.run, subprocess_run_text_check.
  seq (λ _ : completed, True); [apply sound_subprocess_run; [done|congruence|apply E_shell]|].
  intros p _. seq (λ _ : string, True); [by apply sound_decode|]. intros o _.
  seq (λ _ : string, True); [by apply sound_decode|]. intros e _.
  destruct (returncode p =? 0); [by apply sound_ret | by apply sound_raise].
Qed.

Lemma sound_gather {A} (P : string → Prop) (l : list A) (body : A → M (list string)) :
  (∀ x, ok (Forall P) (body x)) → ok (Forall P) (Enumeration.gather l body).
Proof.
  intros Hb. induction l as [|x l IH]; cbn [Enumeration.gather]; [by apply sound_ret|].
  seq (Forall P); [apply Hb|]. intros here Hhere.
  seq (Forall P); [apply IH|]. intros rest Hrest.
  apply sound_ret; [done|]. by apply Forall_app.
Qed.

Lemma sound_tag_images registry_name repo tag :
  ok (Forall (acr_entry registry_name))
    (Enumeration.tag_images ext first_item registry_name repo tag).
Proof.
  unfold Enumeration.tag_images.
  seq (λ _ : string * string, True); [apply sound_run|]. intros proc _.
  seq (λ _ : option string, True); [by apply sound_of_answer|]. intros [digest|] _.
  - apply sound_ret; [done|]. apply Forall_singleton. by exists repo, tag, digest.
  - by apply sound_ret.
Qed.

Lemma sound_repo_images registry_name repo :
  ok (Forall (acr_entry registry_name))
    (Enumeration.repo_images ext items first_item registry_name repo).
Proof.
  unfold Enumeration.repo_images.
  seq (λ _ : string * string, True); [apply sound_run|]. intros proc _.
  seq (λ _ : list string, True); [by apply sound_of_answer|]. intros tags _.
  apply sound_gather. intros tag. apply sound_tag_images.
Qed.

Lemma sound_acr_body registry_name :
  ok (Forall (acr_entry registry_name))
    (proc_repos <- Enumeration.run ext
       ("az acr repository list --name " +:+ registry_name +:+ " --output json") ;;
     repositories <- of_answer (items (fst proc_repos)) ;;
     Enumeration.gather repositories
       (Enumeration.repo_images ext items first_item registry_name)).
Proof.
  seq (λ _ : string * string, True); [apply sound_run|]. intros proc _.
  seq (λ _ : list string, True); [by apply sound_of_answer|]. intros repos _.
  apply sound_gather. intros repo. apply sound_repo_images.
Qed.

(** The files are left alone. *)

Lemma keeps_files_ret {A} (a : A) : keeps_files (ret a).
Proof. done. Qed.

Lemma keeps_files_raise {A} e : keeps_files (raise (A := A) e).
Proof. done. Qed.

Lemma keeps_files_emit e : keeps_files (emit e).
Proof. done. Qed.

Lemma keeps_files_of_answer {A} (a : answer A) : keeps_files (of_answer a).
Proof. by destruct a. Qed.

Lemma keeps_files_bind {A B} (m : M A) (f : A → M B) :
  keeps_files m → (∀ a, keeps_files (f a)) → keeps_files (bind m f).
Proof.
  intros Hm Hf w. rewrite post_bind. destruct (out (m w)); [|apply Hm..].
  by rewrite Hf, Hm.
Qed.

Lemma keeps_files_try_except {A} (m : M A) (h : exn → M A) :
  keeps_files m → (∀ e, keeps_files (h e)) → keeps_files (try_except m h).
Proof.
  intros Hm Hh w. unfold try_except. destruct (out (m w)); [apply Hm| |apply Hm].
  cbn [post]. by rewrite Hh, Hm.
Qed.

Lemma keeps_files_except {A} (m h : M A) :
  keeps_files m → keeps_files h → keeps_files (except_CalledProcessError m h).
Proof.
  intros Hm Hh. apply keeps_files_try_except; [done|].
  intros []; first [done | apply keeps_files_raise].
Qed.

Lemma keeps_files_run line : keeps_files (Enumeration.run ext line).
Proof.
  unfold Enumeration.run, subprocess_run_text_check, subprocess_run.
  repeat first
    [ apply keeps_files_bind; [|intros ?] | apply keeps_files_emit
    | apply keeps_files_of_answer | apply keeps_files_ret | apply keeps_files_raise
    | done | by destruct (stdout _) | by destruct (stderr _) | by destruct (_ =? _) ].
Qed.

Lemma keeps_files_gather {A} (l : list A) (body : A → M (list string)) :
  (∀ x, keeps_files (body x)) → keeps_files (Enumeration.gather l body).
Proof.
  intros Hb. induction l as [|x l IH]; cbn [Enumeration.gather]; [done|].
  apply keeps_files_bind; [done|]. intros here.
  apply keeps_files_bind; [done|]. intros rest. done.
Qed.

Lemma keeps_files_acr_body registry_name :
  keeps_files
    (proc_repos <- Enumeration.run ext
       ("az acr repository list --name " +:+ registry_name +:+ " --output json") ;;
     repositories <- of_answer (items (fst proc_repos)) ;;
     Enumeration.gather repositories
       (Enumeration.repo_images ext items first_item registry_name)).
Proof.
  apply keeps_files_bind; [apply keeps_files_run|]. intros proc.
  apply keeps_files_bind; [apply keeps_files_of_answer|]. intros repos.
  apply keeps_files_gather. intros repo. unfold Enumeration.repo_images.
  apply keeps_files_bind; [apply keeps_files_run|]. intros proc'.
  apply keeps_files_bind; [apply keeps_files_of_answer|]. intros tags.
  apply keeps_files_gather. intros tag. unfold Enumeration.tag_images.
  apply keeps_files_bind; [apply keeps_files_run|]. intros proc''.
  apply keeps_files_bind; [apply keeps_files_of_answer|]. by intros [d|].
Qed.
End enumeration_logic.

(** A handler of [CalledProcessError] runs exactly when the body raised
    this exception; another exception goes through, and a body that
    returned is left alone. *)
Lemma except_CalledProcessError_cases {A} (m h : M A) (w : world) :
  match out (m w) with
  | Raise CalledProcessError =>
      except_CalledProcessError m h w
      = Result (out (h (post (m w)))) (post (h (post (m w))))
          (trace (m w) ++ trace (h (post (m w))))
  | Raise e =>
      except_CalledProcessError m h w = Result (Raise e) (post (m w)) (trace (m w) ++ [])
  | _ => except_CalledProcessError m h w = m w
  end.
Proof.
  unfold except_CalledProcessError, try_except.
  destruct (out (m w)) as [a|e|c]; [done| |done]. by destruct e.
Qed.

(** X21. [list_acr_images_with_digests] gives all the images of the
    registry or none. For every outside, every reading of the printed
    lists and every state: the function leaves the ledger and the files
    alone, and it either returns or raises an exception that is no
    [CalledProcessError]. What it returns are entries
    [registry:repo:tag:-digest] of this registry; when it reported an
    error, it returns the empty list: the images found before the process
    that failed are dropped. *)
Theorem acr_listing_effects
    (ext : external) (items : string → answer (list string))
    (first_item : string → answer (option string)) (registry_name : string) (w : world) :
  let r := Enumeration.list_acr_images_with_digests ext items first_item registry_name w in
  ledger (post r) = ledger w ∧ files (post r) = files w ∧
  ((∃ l, out r = Ret l ∧ Forall (acr_entry registry_name) l ∧
         (Print "Error accessing registry '{registry_name}':" [AStr registry_name] ∈ trace r →
          l = [])) ∨
   (∃ e, out r = Raise e ∧ e ≠ CalledProcessError)).
Proof.
  intros r. subst r. unfold Enumeration.list_acr_images_with_digests.
  set (body := bind _ _).
  set (h := bind _ _).
  destruct (sound_acr_body ext items first_item shell_only) with
    (registry_name := registry_name) (w := w) as (Hl & Htr & Hout); [by eexists|].
  pose proof (keeps_files_acr_body ext items first_item registry_name w) as Hf.
  fold body in Hl, Htr, Hout, Hf.
  assert (Hh : ∀ w', h w' = Result (Ret []) w'
                 [Print "Error accessing registry '{registry_name}':" [AStr registry_name];
                  Print "{e.stderr}" [AExn CalledProcessError]]) by done.
  pose proof (except_CalledProcessError_cases body h w) as Hc.
  destruct (out (body w)) as [l|e|c] eqn:Ho; [| |done].
  - rewrite Hc. split_and!; [done|done|]. left. exists l. split_and!; [done|done|].
    intros Hin. rewrite Forall_forall in Htr. by destruct (Htr _ Hin) as [line ?].
  - destruct e; rewrite Hc, ?Hh; cbn [out post trace];
      (split_and!; [done|done|]);
      first [ left; exists []; by split_and! | right; by eexists ].
Qed.

Lemma out_run ext line o e w :
  ext_run ext (Shell line) (clock w) = Answer (Completed 0 (Some o) (Some e)) →
  out (Enumeration.run ext line w) = Ret (o, e).
Proof.
  intros Hrun. unfold Enumeration.run.
  by rewrite (subprocess_run_text_check_eval _ _ _ _ _ _ Hrun).
Qed.

Lemma out_gather {A} (l : list A) (body : A → M (list string)) (g : A → list string) w :
  (∀ x w', out (body x w') = Ret (g x)) →
  out (Enumeration.gather l body w) = Ret (concat (g <$> l)).
Proof.
  intros Hb. revert w. induction l as [|x l IH]; intros w; [done|].
  cbn [Enumeration.gather]. rewrite out_bind, Hb, out_bind, IH. done.
Qed.

(** X22. [list_acr_images_with_digests] on a registry whose processes
    all succeed: when [az] ends with status 0 at every call, the function
    returns the entries [registry:repo:tag:-digest] in the order of the
    listings, repository after repository and tag after tag, with the
    first digest printed for the tag; a tag for which the list of digests
    is empty gives no entry. *)
Theorem acr_listing_of_healthy_registry
    (ext : external) (items : string → answer (list string))
    (first_item : string → answer (option string))
    (prints : string → string) (registry_name : string) (repos : list string)
    (tags_of : string → list string) (digest_of : string → string → option string)
    (w : world) :
  (∀ line n, ∃ e, ext_run ext (Shell line) n
                  = Answer (Completed 0 (Some (prints line)) (Some e))) →
  items (prints (repositories_command registry_name)) = Answer repos →
  (∀ repo, items (prints (tags_command registry_name repo)) = Answer (tags_of repo)) →
  (∀ repo tag, first_item (prints (manifest_command registry_name repo tag))
               = Answer (digest_of repo tag)) →
  out (Enumeration.list_acr_images_with_digests ext items first_item registry_name w)
  = Ret (listed registry_name repos tags_of digest_of).
Proof.
  intros Hext Hrepos Htags Hdigest.
  assert (Hrun : ∀ line w', ∃ e, out (Enumeration.run ext line w') = Ret (prints line, e)).
  { intros line w'. destruct (Hext line (clock w')) as [e He]. exists e.
    by apply out_run. }
  unfold Enumeration.list_acr_images_with_digests.
  set (body := bind _ _). set (h := bind _ _).
  assert (Hbody : out (body w) = Ret (listed registry_name repos tags_of digest_of)).
  { subst body. rewrite out_bind.
    destruct (Hrun (repositories_command registry_name) w) as [e He].
    unfold repositories_command in He, Hrepos. rewrite He.
    cbn [fst]. rewrite out_bind, Hrepos. cbn [of_answer ret out post].
    apply out_gather. intros repo w1. unfold Enumeration.repo_images.
    rewrite out_bind. destruct (Hrun (tags_command registry_name repo) w1) as [e1 He1].
    pose proof (Htags repo) as Htags'. unfold tags_command in He1, Htags'. rewrite He1.
    cbn [fst]. rewrite out_bind, Htags'. cbn [of_answer ret out post].
    apply out_gather. intros tag w2. unfold Enumeration.tag_images.
    rewrite out_bind. destruct (Hrun (manifest_command registry_name repo tag) w2) as [e2 He2].
    pose proof (Hdigest repo tag) as Hdigest'. unfold manifest_command in He2, Hdigest'.
    rewrite He2.
    cbn [fst]. rewrite out_bind, Hdigest'. cbn [of_answer ret out post].
    by destruct (digest_of repo tag). }
  pose proof (except_CalledProcessError_cases body h w) as Hc.
  rewrite Hbody in Hc. by rewrite Hc.
Qed.

Lemma acr_listing_of_healthy_registry_witness :
  out (Enumeration.list_acr_images_with_digests small_registry printed_words
         first_printed_word "acr1" fresh)
  = Ret ["acr1:app:v1:-sha256:d1"; "acr1:app:v2:-sha256:d1";
         "acr1:web:v1:-sha256:d1"; "acr1:web:v2:-sha256:d1"].
Proof.
  rewrite (acr_listing_of_healthy_registry small_registry printed_words
             first_printed_word az_prints "acr1" ["app"; "web"] (λ _, ["v1"; "v2"]) (λ _ _, Some "sha256:d1") fresh).
  - reflexivity.
  - intros line n. by exists "".
  - reflexivity.
  - intros repo. reflexivity.
  - intros repo tag. reflexivity.
Defined.

Lemma split_slash_free (s : string) : Forall (λ f, has_slash f = false) (split "/" s).
Proof.
  induction s as [|c s IH]; [by repeat constructor|]. cbn [split].
  destruct (Ascii.eqb c "/") eqn:Hc; [by constructor|].
  destruct (split "/" s) as [|f fs]; [by repeat constructor; cbn; rewrite Hc|].
  apply Forall_cons in IH as [Hf Hfs]. constructor; [|done].
  cbn [has_slash]. by rewrite Hc, Hf.
Qed.

Lemma split_not_nil (sep : ascii) (s : string) : split sep s ≠ [].
Proof.
  destruct s as [|c s]; [done|]. cbn [split].
  destruct (Ascii.eqb c sep); [done|]. by destruct (split sep s).
Qed.

Lemma last_of_slash_free (s : string) :
  has_slash (Enumeration.last_of (split "/" s)) = false.
Proof.
  unfold Enumeration.last_of.
  pose proof (split_slash_free s) as Hall. pose proof (split_not_nil "/" s) as Hne.
  induction (split "/" s) as [|f fs IH]; [done|].
  apply Forall_cons in Hall as [Hf Hfs].
  destruct fs as [|f' fs']; [done|]. by apply IH.
Qed.

Section destination_logic.
Context (ext : external).
Context (images : string → answer (list (answer (string * string * list string)))).
Context (E : event → Prop).
Hypothesis E_shell : ∀ line, E (Spawn (Shell line)).
Hypothesis E_tags : ∀ fmt args, fmt ≠ "Error listing images for repository '{repository_id}':" →
                                E (Print fmt args).

Local Abbreviation ok := (sound eq E).
Local Tactic Notation "seq" constr(P) :=
  apply (sound_bind eq E (@eq_trans db) P).

Lemma sound_get_tags_for_digest location project_id repository_id image_name digest :
  ok (λ _, True)
    (Enumeration.get_tags_for_digest ext location project_id repository_id image_name digest).
Proof.
  unfold Enumeration.get_tags_for_digest, Enumeration.print_stderr, Verify.print.
  apply sound_except_CalledProcessError; [done|congruence| |].
  - seq (λ _ : string * string, True); [by apply sound_run|]. intros proc _.
    by apply sound_ret.
  - seq (λ _ : unit, True); [apply sound_emit; [done|by apply E_tags|done]|]. intros _ _.
    seq (λ _ : unit, True); [apply sound_emit; [done|by apply E_tags|done]|]. intros _ _.
    by apply sound_ret.
Qed.

Lemma sound_image_entries location project_id repository_id image :
  ok (Forall (gar_entry repository_id))
    (Enumeration.image_entries ext location project_id repository_id image).
Proof.
  unfold Enumeration.image_entries.
  seq (λ _ : string * string * list string, True); [by apply sound_of_answer|].
  intros [[package_path digest] tags] _.
  seq (λ _ : list string, True).
  { destruct tags; [apply sound_get_tags_for_digest | by apply sound_ret]. }
  intros tags' _. destruct tags' as [|tag tags'].
  - apply sound_ret; [done|]. apply Forall_singleton.
    eexists _, digest. split; [apply last_of_slash_free|]. by left.
  - apply sound_ret; [done|]. apply Forall_fmap, Forall_true. intros tag'.
    eexists _, digest. split; [apply last_of_slash_free|]. right. by exists tag'.
Qed.

Lemma sound_gar_body location project_id repository_id :
  ok (Forall (gar_entry repository_id))
    (proc_images <- Enumeration.run ext
       ("gcloud artifacts docker images list "
          +:+ (location +:+ "-docker.pkg.dev/" +:+ project_id +:+ "/" +:+ repository_id)
          +:+ " --format=json") ;;
     imgs <- of_answer (images (strip (fst proc_images))) ;;
     Enumeration.gather imgs
       (Enumeration.image_entries ext location project_id repository_id)).
Proof.
  seq (λ _ : string * string, True); [by apply sound_run|]. intros proc _.
  seq (λ _ : list (answer (string * string * list string)), True);
    [by apply sound_of_answer|].
  intros imgs _. apply sound_gather. intros image. apply sound_image_entries.
Qed.
End destination_logic.

Lemma keeps_files_gar_body ext images location project_id repository_id :
  keeps_files
    (proc_images <- Enumeration.run ext
       ("gcloud artifacts docker images list "
          +:+ (location +:+ "-docker.pkg.dev/" +:+ project_id +:+ "/" +:+ repository_id)
          +:+ " --format=json") ;;
     imgs <- of_answer (images (strip (fst proc_images))) ;;
     Enumeration.gather imgs
       (Enumeration.image_entries ext location project_id repository_id)).
Proof.
  apply keeps_files_bind; [apply keeps_files_run|]. intros proc.
  apply keeps_files_bind; [apply keeps_files_of_answer|]. intros imgs.
  apply keeps_files_gather. intros image. unfold Enumeration.image_entries.
  apply keeps_files_bind; [apply keeps_files_of_answer|]. intros [[p d] tags].
  apply keeps_files_bind.
  - destruct tags; [|done]. unfold Enumeration.get_tags_for_digest.
    apply keeps_files_except; [|done].
    apply keeps_files_bind; [apply keeps_files_run|]. done.
  - by intros [|tag tags'].
Qed.

(** X23. [list_docker_images_for_repository], for every outside, every
    reading of the printed list and every state: the function leaves the
    ledger and the files alone, and either returns or raises an exception
    that is no [CalledProcessError]. What it returns are entries of this
    repository, [repository/image:tag:-digest] for a tag and
    [repository:image:<no-tag>:-digest] for an image without tag, where
    the name of the image, the last segment of its path, holds no slash.
    When it reported a failed listing it returns the empty list. *)
Theorem gar_listing_effects
    (ext : external)
    (images : string → answer (list (answer (string * string * list string))))
    (location project_id repository_id : string) (w : world) :
  let r := Enumeration.list_docker_images_for_repository ext images
             location project_id repository_id w in
  ledger (post r) = ledger w ∧ files (post r) = files w ∧
  ((∃ l, out r = Ret l ∧ Forall (gar_entry repository_id) l ∧
         (Print "Error listing images for repository '{repository_id}':"
            [AStr repository_id] ∈ trace r → l = [])) ∨
   (∃ e, out r = Raise e ∧ e ≠ CalledProcessError)).
Proof.
  intros r. subst r. unfold Enumeration.list_docker_images_for_repository.
  cbv zeta. set (body := bind _ _). set (h := bind _ _).
  destruct (sound_gar_body ext images
              (λ e, ∀ args, e ≠ Print "Error listing images for repository '{repository_id}':"
                                  args))
    with (location := location) (project_id := project_id)
         (repository_id := repository_id) (w := w) as (Hl & Htr & Hout).
  { by intros line args. }
  { intros fmt args Hfmt args' [= ? ?]. done. }
  pose proof (keeps_files_gar_body ext images location project_id repository_id w) as Hf.
  fold body in Hl, Htr, Hout, Hf.
  assert (Hh : ∀ w', h w' = Result (Ret []) w'
                 [Print "Error listing images for repository '{repository_id}':"
                    [AStr repository_id];
                  Print "{e.stderr}" [AExn CalledProcessError]]) by done.
  pose proof (except_CalledProcessError_cases body h w) as Hc.
  destruct (out (body w)) as [l|e|c] eqn:Ho; [| |done].
  - rewrite Hc. split_and!; [done|done|]. left. exists l. split_and!; [done|done|].
    intros Hin. rewrite Forall_forall in Htr. by destruct (Htr _ Hin [AStr repository_id]).
  - destruct e; rewrite Hc, ?Hh; cbn [out post trace];
      (split_and!; [done|done|]);
      first [ left; exists []; by split_and! | right; by eexists ].
Qed.

(** ** The two inventories side by side *)

Lemma colon_before_slash (a b r r' : string) :
  has_colon a = false → has_slash a = false → has_colon b = false →
  a +:+ String ":" r ≠ b +:+ String "/" r'.
Proof.
  revert b. induction a as [|c a IH]; intros [|c' b]; cbn; intros Ha Hs Hb Heq.
  - by injection Heq.
  - injection Heq as <- _. by rewrite Ascii.eqb_refl in Hb.
  - injection Heq as -> _. by rewrite Ascii.eqb_refl in Hs.
  - injection Heq as -> Heq.
    apply orb_false_iff in Ha as [_ Ha]. apply orb_false_iff in Hs as [_ Hs].
    apply orb_false_iff in Hb as [_ Hb]. by apply (IH b Ha Hs Hb).
Qed.

Lemma source_is_no_destination (x y : string) :
  source_entry x → destination_entry y → x ≠ y.
Proof.
  intros (reg & repo & tag & d & -> & Hreg & Hslash & Hrepo & Htag & Hno)
         (rid & img & d' & Hrid & [[-> Himg]|[tag' ->]]) Heq.
  - apply (image_identifier_inj (reg, repo, tag, d) (rid, img, "<no-tag>", d')) in Heq;
      [|done..]. by injection Heq as _ _ -> _.
  - by apply (colon_before_slash reg rid _ _ Hreg Hslash Hrid) in Heq.
Qed.

(** X24. The two inventories never agree on an image. An entry of the
    source, [registry:repo:tag:-digest], is never equal to an entry of the
    destination, which puts a slash and not a colon after its first name
    ([repository/image:tag:-digest]) or carries the mark [<no-tag>]. So
    when the lines read from the two files are such entries, the
    difference is the whole inventory of the source: [compare_registries]
    answers [True] as soon as the source has one image, whatever the
    destination holds, and the lines of the difference file are the images
    of the source, in some order. *)
Theorem inventories_never_match
    (acr_file gcr_file difference_file : string) (la lb : list string) (w : world) :
  files w !! acr_file = Some la →
  files w !! gcr_file = Some lb →
  (∀ x, x ∈ images_of_lines la → source_entry x) →
  (∀ y, y ∈ images_of_lines lb → destination_entry y) →
  let r := compare_registries acr_file gcr_file difference_file w in
  diff (images_of_lines la) (images_of_lines lb) = images_of_lines la ∧
  out r = Ret (bool_decide (la ≠ [])) ∧
  (la ≠ [] →
   ∃ lines, files (post r) !! difference_file = Some lines ∧
            lines ≡ₚ file_lines (elements (images_of_lines la))).
Proof.
  intros Ha Hb Hsrc Hdst r.
  assert (Hdiff : diff (images_of_lines la) (images_of_lines lb) = images_of_lines la).
  { unfold diff. apply set_eq. intros x. rewrite elem_of_difference. split; [by intros [? _]|].
    intros Hx. split; [done|]. intros Hy.
    by apply (source_is_no_destination x x (Hsrc x Hx) (Hdst x Hy)). }
  assert (Hne : la ≠ [] ↔ images_of_lines la ≠ ∅).
  { unfold images_of_lines. destruct la as [|l la]; [done|].
    split; [|done]. intros _. cbn. set_solver. }
  destruct (compare_registries_eval acr_file gcr_file difference_file la lb w Ha Hb)
    as (Hout & _ & _ & Hfiles).
  fold r in Hout, Hfiles. rewrite Hdiff in Hout, Hfiles.
  split_and!; [done| |].
  - rewrite Hout. f_equal. apply bool_decide_ext. by rewrite Hne.
  - intros Hla. rewrite Hfiles, bool_decide_eq_true_2 by (by apply Hne).
    eexists. split; [apply lookup_insert_eq|done].
Qed.

Lemma inventories_never_match_witness :
  out (compare_registries acr_output_file gcr_output_file difference_output_file
         two_inventories) = Ret true.
Proof.
  destruct (inventories_never_match acr_output_file gcr_output_file difference_output_file
              (file_lines acr_two) (file_lines gar_two) two_inventories)
    as (_ & H & _).
  - apply lookup_insert_eq.
  - unfold two_inventories. cbn [files]. rewrite lookup_insert_ne by done.
    apply lookup_insert_eq.
  - intros x Hx. unfold images_of_lines in Hx. apply elem_of_list_to_set in Hx.
    cbn in Hx. apply elem_of_cons in Hx as [->|Hx]; [|apply elem_of_cons in Hx as [->|Hx]].
    + exists "acr1", "app", "v1", "sha256:aaa". by repeat split.
    + exists "acr1", "app", "v2", "sha256:bbb". by repeat split.
    + by apply elem_of_nil in Hx.
  - intros y Hy. unfold images_of_lines in Hy. apply elem_of_list_to_set in Hy.
    cbn in Hy. apply elem_of_cons in Hy as [->|Hy]; [|apply elem_of_cons in Hy as [->|Hy]].
    + exists "acr1", "app", "sha256:aaa". split; [done|]. right. by exists "v1".
    + exists "acr1", "app", "sha256:bbb". split; [done|]. right. by exists "v2".
    + by apply elem_of_nil in Hy.
  - rewrite H. reflexivity.
Defined.

(** ** Gathering the inventories *)

Lemma keeps_files_submit_all {A B} (f : A → M B) (l : list A) :
  (∀ x, keeps_files (f x)) → keeps_files (submit_all f l).
Proof.
  intros Hf. induction l as [|x l IH]; cbn [submit_all]; [done|].
  apply keeps_files_bind; [intros w; apply Hf|]. intros future.
  apply keeps_files_bind; [done|]. done.
Qed.

Lemma keeps_files_results {B} (futures : list (outcome B)) :
  keeps_files (Enumeration.results futures).
Proof.
  induction futures as [|future futures IH]; cbn [Enumeration.results]; [done|].
  apply keeps_files_bind; [by destruct future|]. intros x.
  apply keeps_files_bind; [done|]. done.
Qed.

Lemma keeps_files_executor_map {A B} (f : A → M B) (l : list A) :
  (∀ x, keeps_files (f x)) → keeps_files (Enumeration.executor_map f l).
Proof.
  intros Hf. apply keeps_files_bind; [by apply keeps_files_submit_all|].
  intros futures. apply keeps_files_results.
Qed.

Section gathering.
Context (E : event → Prop).

Local Tactic Notation "seq" constr(P) :=
  apply (sound_bind eq E (@eq_trans db) P).

Lemma sound_submit_all {A B} (Q : B → Prop) (f : A → M B) (l : list A) :
  (∀ x, sound eq E Q (f x)) → sound eq E (Forall (post_ok Q)) (submit_all f l).
Proof.
  intros Hf. induction l as [|x l IH]; cbn [submit_all]; [by apply sound_ret|].
  seq (post_ok Q); [by apply sound_submit|]. intros future Hfuture.
  seq (Forall (post_ok Q)); [done|]. intros rest Hrest.
  apply sound_ret; [done|]. by constructor.
Qed.

Lemma sound_results {B} (Q : B → Prop) (futures : list (outcome B)) :
  Forall (post_ok Q) futures → sound eq E (Forall Q) (Enumeration.results futures).
Proof.
  induction 1 as [|future futures Hfuture _ IH]; cbn [Enumeration.results];
    [by apply sound_ret|].
  seq Q; [by apply sound_future_result|]. intros x Hx.
  seq (Forall Q); [done|]. intros rest Hrest.
  apply sound_ret; [done|]. by constructor.
Qed.

Lemma sound_executor_map {A B} (Q : B → Prop) (f : A → M B) (l : list A) :
  (∀ x, sound eq E Q (f x)) → sound eq E (Forall Q) (Enumeration.executor_map f l).
Proof.
  intros Hf. unfold Enumeration.executor_map.
  seq (Forall (post_ok Q)); [by apply sound_submit_all|]. intros futures.
  apply sound_results.
Qed.
End gathering.

Lemma Forall_concat {A} (P : A → Prop) (ls : list (list A)) :
  Forall (Forall P) ls → Forall P (concat ls).
Proof. induction 1; cbn [concat]; [done|]. by apply Forall_app. Qed.

(** A gathering followed by the writing of the inventory: the file is
    written when the gathering returned, and nothing is written when it
    raised. *)
Lemma gathered_then_written (gathering : M (list (list string))) (Q : string → Prop)
    (filename : string) (w : world) :
  sound eq (λ _, True) (Forall (Forall Q)) gathering →
  keeps_files gathering →
  let r := (all_images <- gathering ;;
            write_images_to_file (concat all_images) filename) w in
  ledger (post r) = ledger w ∧
  (∀ c, out r ≠ Exit c) ∧
  (out r = Ret tt →
   ∃ all_images, Forall Q all_images ∧
                 files (post r) = <[filename := file_lines all_images]> (files w)) ∧
  (out r ≠ Ret tt → files (post r) = files w).
Proof.
  intros Hs Hk r. destruct (Hs w) as (Hl & _ & Ho). specialize (Hk w).
  subst r. rewrite out_bind, post_bind.
  destruct (out (gathering w)) as [all|e|c]; [| |done].
  - cbn [write_images_to_file]. unfold write_images_to_file, write_lines, Verify.print, bind, emit.
    cbn [out post trace ledger files]. split_and!; [done|done| |done].
    intros _. exists (concat all). split; [by apply Forall_concat|]. by rewrite Hk.
  - split_and!; done.
Qed.

Lemma bind_assoc {A B C} (m : M A) (f : A → M B) (g : B → M C) (w : world) :
  bind (bind m f) g w = bind m (λ a, bind (f a) g) w.
Proof.
  unfold bind. destruct (out (m w)); cbn [out post trace]; [|done..].
  destruct (out (f a (post (m w)))); cbn [out post trace]; [|done..].
  by rewrite app_assoc.
Qed.

Section inventories.
Context (ext : external).
Context (items : string → answer (list string)).
Context (first_item : string → answer (option string)).
Context (registry_names : string → answer (list (answer string))).
Context (images : string → answer (list (answer (string * string * list string)))).

Local Abbreviation any_event := (λ _ : event, True).
Local Tactic Notation "seq" constr(P) :=
  apply (sound_bind eq any_event (@eq_trans db) P).

Lemma sound_reported {A} (Q : list A → Prop) (body : M (list A)) fmt args :
  Q [] →
  sound eq any_event Q body →
  sound eq any_event Q
    (except_CalledProcessError body
       (Verify.print fmt args ;; Enumeration.print_stderr ;; ret [])).
Proof.
  intros Hnil Hbody. apply sound_except_CalledProcessError; [done|congruence|done|].
  seq (λ _ : unit, True); [by apply sound_emit|]. intros _ _.
  seq (λ _ : unit, True); [by apply sound_emit|]. intros _ _.
  by apply sound_ret.
Qed.

Lemma keeps_files_reported {A} (body : M (list A)) fmt args :
  keeps_files body →
  keeps_files (except_CalledProcessError body
                 (Verify.print fmt args ;; Enumeration.print_stderr ;; ret [])).
Proof. intros Hbody. by apply keeps_files_except. Qed.

Lemma sound_acr_gathering :
  sound eq any_event (Forall (Forall (λ x, ∃ name, acr_entry name x)))
    (acr_names <- Enumeration.get_all_acr_names ext items ;;
     Enumeration.executor_map
       (Enumeration.list_acr_images_with_digests ext items first_item) acr_names).
Proof.
  seq (λ _ : list string, True).
  { unfold Enumeration.get_all_acr_names. apply sound_reported; [done|].
    seq (λ _ : string * string, True); [by apply sound_run|]. intros proc _.
    by apply sound_of_answer. }
  intros names _. apply sound_executor_map. intros name.
  eapply sound_weaken.
  - unfold Enumeration.list_acr_images_with_digests.
    apply (sound_reported (Forall (acr_entry name))); [done|].
    by apply sound_acr_body.
  - intros l Hl. eapply Forall_impl; [exact Hl|]. intros x Hx. by exists name.
Qed.

Lemma keeps_files_acr_gathering :
  keeps_files
    (acr_names <- Enumeration.get_all_acr_names ext items ;;
     Enumeration.executor_map
       (Enumeration.list_acr_images_with_digests ext items first_item) acr_names).
Proof.
  apply keeps_files_bind.
  - apply keeps_files_reported.
    apply keeps_files_bind; [apply keeps_files_run|]. intros proc.
    apply keeps_files_of_answer.
  - intros names. apply keeps_files_executor_map. intros name.
    apply keeps_files_reported, keeps_files_acr_body.
Qed.

Lemma sound_gar_gathering :
  sound eq any_event (Forall (Forall (λ y, ∃ repository_id, gar_entry repository_id y)))
    (registries <- Enumeration.get_all_artifact_registries ext registry_names ;;
     Enumeration.executor_map (Enumeration.process_registry ext images) registries).
Proof.
  seq (λ _ : list (answer string), True).
  { unfold Enumeration.get_all_artifact_registries. apply sound_reported; [done|].
    seq (λ _ : string * string, True); [by apply sound_run|]. intros proc _.
    by apply sound_of_answer. }
  intros registries _. apply sound_executor_map. intros registry.
  unfold Enumeration.process_registry.
  seq (λ _ : string, True); [by apply sound_of_answer|]. intros name _.
  seq (λ _ : string, True);
    [eapply sound_weaken; [by apply sound_index|done]|]. intros location _.
  seq (λ _ : string, True);
    [eapply sound_weaken; [by apply sound_index|done]|]. intros project_id _.
  eapply sound_weaken.
  - unfold Enumeration.list_docker_images_for_repository. cbv zeta.
    apply (sound_reported
             (Forall (gar_entry (Enumeration.last_of (split "/" name))))); [done|].
    by apply sound_gar_body.
  - intros l Hl. eapply Forall_impl; [exact Hl|]. intros y Hy. by eexists.
Qed.

Lemma keeps_files_gar_gathering :
  keeps_files
    (registries <- Enumeration.get_all_artifact_registries ext registry_names ;;
     Enumeration.executor_map (Enumeration.process_registry ext images) registries).
Proof.
  apply keeps_files_bind.
  - apply keeps_files_reported.
    apply keeps_files_bind; [apply keeps_files_run|]. intros proc.
    apply keeps_files_of_answer.
  - intros registries. apply keeps_files_executor_map. intros registry.
    unfold Enumeration.process_registry.
    apply keeps_files_bind; [apply keeps_files_of_answer|]. intros name.
    apply keeps_files_bind; [unfold index; by destruct (_ !! _)|]. intros location.
    apply keeps_files_bind; [unfold index; by destruct (_ !! _)|]. intros project_id.
    apply keeps_files_reported, keeps_files_gar_body.
Qed.
End inventories.

(** X25. [get_acr] and [get_gar] write an inventory or nothing. For
    every outside and every reading of the printed lists, neither touches
    the ledger. When [get_acr] returns, [acr_all_images.txt] holds one
    line per image gathered, each an entry [registry:repo:tag:-digest],
    and the other files are as before; when it raises, because a printed
    list could not be read, no file has changed. The same holds of
    [get_gar] and [gar_all_images.txt], with the entries of the
    destination. *)
Theorem inventories_are_written
    (ext : external) (items : string → answer (list string))
    (first_item : string → answer (option string))
    (registry_names : string → answer (list (answer string)))
    (images : string → answer (list (answer (string * string * list string))))
    (w : world) :
  let a := Enumeration.get_acr ext items first_item w in
  let g := Enumeration.get_gar ext registry_names images w in
  (ledger (post a) = ledger w ∧ (∀ c, out a ≠ Exit c) ∧
   (out a = Ret tt →
    ∃ all_images,
      Forall (λ x, ∃ name, acr_entry name x) all_images ∧
      files (post a) = <[acr_output_file := file_lines all_images]> (files w)) ∧
   (out a ≠ Ret tt → files (post a) = files w)) ∧
  (ledger (post g) = ledger w ∧ (∀ c, out g ≠ Exit c) ∧
   (out g = Ret tt →
    ∃ all_images,
      Forall (λ y, ∃ repository_id, gar_entry repository_id y) all_images ∧
      files (post g) = <[gcr_output_file := file_lines all_images]> (files w)) ∧
   (out g ≠ Ret tt → files (post g) = files w)).
Proof.
  intros a g. split.
  - subst a. unfold Enumeration.get_acr, Verify.get_acr. rewrite <- bind_assoc.
    apply (gathered_then_written _ (λ x, ∃ name, acr_entry name x)).
    + apply sound_acr_gathering.
    + apply keeps_files_acr_gathering.
  - subst g. unfold Enumeration.get_gar, Verify.get_gar. rewrite <- bind_assoc.
    apply (gathered_then_written _ (λ y, ∃ repository_id, gar_entry repository_id y)).
    + apply sound_gar_gathering.
    + apply keeps_files_gar_gathering.
Qed.

(** ** The whole verification *)

Lemma verdict_eval (la lb : list string) (w : world) :
  files w !! acr_output_file = Some la →
  files w !! gcr_output_file = Some lb →
  let missing := diff (images_of_lines la) (images_of_lines lb) in
  out (verdict w) = Ret tt ∧
  ledger (post (verdict w)) = ledger w ∧
  files (post (verdict w)) =
    if bool_decide (missing ≠ ∅)
    then <[difference_output_file := file_lines (elements missing)]> (files w)
    else delete difference_output_file (files w).
Proof.
  intros Ha Hb missing. unfold verdict.
  destruct (compare_registries_eval acr_output_file gcr_output_file difference_output_file
              la lb w Ha Hb) as (Hout & Hledger & _ & Hfiles).
  fold missing in Hout, Hfiles.
  set (c := compare_registries _ _ _ w) in *.
  rewrite (bind_ret_proj _ _ _ _ Hout).
  destruct (bool_decide (missing ≠ ∅)) eqn:Hm.
  - apply bool_decide_eq_true in Hm.
    assert (Hd : files (post c) !! difference_output_file
                 = Some (file_lines (elements missing)))
      by (rewrite Hfiles; apply lookup_insert_eq).
    destruct (getsize_file_lines difference_output_file (elements missing) (post c) Hd)
      as [n Hn].
    { intros He. apply Hm. by apply elements_empty_inv in He as ->%leibniz_equiv. }
    assert (Hsize : (n <- getsize difference_output_file ;; ret (0 <? n)%nat) (post c)
                    = Result (Ret true) (post c) []).
    { eapply (bind_eval _ _ _ _ _ _ _ _ [] Hn). reflexivity. }
    rewrite (bind_eval_proj _ _ _ _ _ _ Hsize). done.
  - rewrite bind_ret_l. done.
Qed.

(** X26. The script on the inventories it gathers. For every outside
    and every reading of the printed lists, the script neither touches the
    ledger nor leaves through [SystemExit]; and when it ends normally,
    its files are those of the run on two lists of images, the entries
    gathered from the source and from the destination: the comparison
    sees nothing of the enumerations but the two files. *)
Theorem script_compares_gathered_inventories
    (ext : external) (items : string → answer (list string))
    (first_item : string → answer (option string))
    (registry_names : string → answer (list (answer string)))
    (images : string → answer (list (answer (string * string * list string))))
    (w : world) :
  let r := Enumeration.main ext items first_item registry_names images w in
  ledger (post r) = ledger w ∧
  (∀ c, out r ≠ Exit c) ∧
  (out r = Ret tt →
   ∃ acr_all_images gar_all_images,
     Forall (λ x, ∃ name, acr_entry name x) acr_all_images ∧
     Forall (λ y, ∃ repository_id, gar_entry repository_id y) gar_all_images ∧
     files (post r) = files (post (Verify.main acr_all_images gar_all_images w))).
Proof.
  intros r.
  destruct (remove_old_files_eval w) as (tr0 & H0 & _).
  set (w0 := World _ _ _) in H0.
  set (a := Enumeration.get_acr ext items first_item w0).
  assert (Ha : ledger (post a) = ledger w0 ∧ (∀ c, out a ≠ Exit c) ∧
               (out a = Ret tt →
                ∃ all_images,
                  Forall (λ x, ∃ name, acr_entry name x) all_images ∧
                  files (post a) = <[acr_output_file := file_lines all_images]> (files w0)) ∧
               (out a ≠ Ret tt → files (post a) = files w0)).
  { subst a. unfold Enumeration.get_acr, Verify.get_acr. rewrite <- bind_assoc.
    apply (gathered_then_written _ (λ x, ∃ name, acr_entry name x)).
    - apply sound_acr_gathering.
    - apply keeps_files_acr_gathering. }
  destruct Ha as (Hla & Hxa & Hfa & _).
  set (g := Enumeration.get_gar ext registry_names images (post a)).
  assert (Hg : ledger (post g) = ledger (post a) ∧ (∀ c, out g ≠ Exit c) ∧
               (out g = Ret tt →
                ∃ all_images,
                  Forall (λ y, ∃ repository_id, gar_entry repository_id y) all_images ∧
                  files (post g)
                  = <[gcr_output_file := file_lines all_images]> (files (post a))) ∧
               (out g ≠ Ret tt → files (post g) = files (post a))).
  { subst g. unfold Enumeration.get_gar, Verify.get_gar. rewrite <- bind_assoc.
    apply (gathered_then_written _ (λ y, ∃ repository_id, gar_entry repository_id y)).
    - apply sound_gar_gathering.
    - apply keeps_files_gar_gathering. }
  destruct Hg as (Hlg & Hxg & Hfg & _).
  assert (Hr : r = (Verify.remove_old_files ;;
                    Enumeration.get_acr ext items first_item ;;
                    Enumeration.get_gar ext registry_names images ;;
                    verdict) w) by done.
  rewrite Hr. clear Hr r.
  rewrite (bind_eval_proj _ _ _ _ _ _ H0). cbn [out post].
  rewrite out_bind, post_bind. fold a.
  destruct (out a) as [[]| |] eqn:Hoa;
    [|by split_and!; [exact Hla|done|done] | by destruct (Hxa code)].
  destruct (Hfa eq_refl) as (la & Hla_entries & Hfiles_a).
  rewrite out_bind, post_bind. fold g.
  destruct (out g) as [[]| |] eqn:Hog;
    [|by split_and!; [rewrite Hlg; exact Hla|done|done] | by destruct (Hxg code)].
  destruct (Hfg eq_refl) as (lb & Hlb_entries & Hfiles_g).
  assert (Hacr : files (post g) !! acr_output_file = Some (file_lines la)).
  { rewrite Hfiles_g, Hfiles_a, lookup_insert_ne by done. apply lookup_insert_eq. }
  assert (Hgcr : files (post g) !! gcr_output_file = Some (file_lines lb)).
  { rewrite Hfiles_g. apply lookup_insert_eq. }
  destruct (verdict_eval _ _ _ Hacr Hgcr) as (Hvo & Hvl & Hvf).
  split_and!; [rewrite Hvl, Hlg; exact Hla|by rewrite Hvo|].
  intros _. exists la, lb. split_and!; [done|done|].
  rewrite Hvf.
  (* the run on the two lists, from the same files *)
  assert (Hm : Verify.main la lb w
               = (Verify.remove_old_files ;; Verify.get_acr la ;; Verify.get_gar lb ;;
                  verdict) w) by done.
  rewrite Hm, (bind_eval_proj _ _ _ _ _ _ H0). cbn [post].
  set (w4 := World (ledger w0) (clock w0) (<[acr_output_file := file_lines la]> (files w0))).
  assert (H4 : Verify.get_acr la w0
               = Result (Ret tt) w4
                   [Print "Image list has been written to {filename}" [AStr acr_output_file]])
    by reflexivity.
  set (w5 := World (ledger w4) (clock w4) (<[gcr_output_file := file_lines lb]> (files w4))).
  assert (H5 : Verify.get_gar lb w4
               = Result (Ret tt) w5
                   [Print "Image list has been written to {filename}" [AStr gcr_output_file]])
    by reflexivity.
  rewrite (bind_eval_proj _ _ _ _ _ _ H4), (bind_eval_proj _ _ _ _ _ _ H5). cbn [post].
  assert (Hsame : files (post g) = files w5) by (by rewrite Hfiles_g, Hfiles_a).
  assert (Hacr5 : files w5 !! acr_output_file = Some (file_lines la))
    by (by rewrite <- Hsame).
  assert (Hgcr5 : files w5 !! gcr_output_file = Some (file_lines lb))
    by (by rewrite <- Hsame).
  destruct (verdict_eval _ _ _ Hacr5 Hgcr5) as (_ & _ & Hvf5).
  by rewrite Hvf5, Hsame.
Qed.

(** ** Replay and scan ask for the same copy *)

Lemma string_app_assoc (a b c : string) : (a +:+ b) +:+ c = a +:+ (b +:+ c).
Proof.
  induction a as [|x a IH]; [done|].
  change (String x ((a +:+ b) +:+ c) = String x (a +:+ (b +:+ c))). by rewrite IH.
Qed.

Lemma copy_command_scan cfg p0 p1 p2 :
  copy_command cfg p0 p1 p2 = scan_copy_command cfg p0 p1 p2.
Proof.
  unfold copy_command, scan_copy_command. by rewrite !string_app_assoc.
Qed.

(** X27. The replay asks [gcrane] for the copies that the full scan
    would ask for. For a difference file whose lines, once stripped, are
    identifiers [registry:repo:tag:-digest] (no colon in the first three
    fields), every command line that [copy_images_to_gcr] starts is the
    copy of an image of the file, from [registry.azurecr.io/repo:tag] to
    the same path under the registry's name in the destination, the very
    command line of [process_repository] for this registry, repository
    and tag. *)
Theorem replay_copies_as_the_scan
    (cfg : config) (ext : external) (path : string) (lines : list string) (w : world) :
  files w !! path = Some lines →
  (∀ line, line ∈ lines → ∃ id, colon_free id ∧ strip line = Verify.image_identifier id) →
  Forall (copies_image_of cfg lines) (trace (copy_images_to_gcr cfg ext path w)).
Proof.
  intros Hfile Hlines.
  destruct (sound_copy_images_to_gcr cfg ext lines path w Hfile) as (_ & Htr & _).
  eapply Forall_impl; [exact Htr|]. intros e He command ->.
  destruct (He command eq_refl)
    as (line & p0 & p1 & p2 & rest & Hline & Hfields & ->).
  destruct (Hlines line Hline) as ([[[reg repo] tag] d] & Hid & Hstrip).
  destruct (split_image_identifier _ Hid) as (h & tl & Hsplit).
  unfold fields in Hfields. rewrite Hstrip, Hsplit in Hfields. cbn [fst snd] in Hfields.
  injection Hfields as <- <- <- _.
  exists reg, repo, tag, d, line. split_and!; [done|done|]. apply copy_command_scan.
Qed.

Lemma replay_copies_as_the_scan_witness :
  Forall (copies_image_of env two_lines)
    (trace (copy_images_to_gcr env (every_process 0 "found" "") "diff.txt"
              with_difference_file)).
Proof.
  apply (replay_copies_as_the_scan env (every_process 0 "found" "") "diff.txt"
           two_lines with_difference_file).
  - reflexivity.
  - intros line [->|[->|[]%elem_of_nil]%elem_of_cons]%elem_of_cons.
    + exists ("acr1", "app", "v1", "sha256:aaa"). by vm_compute.
    + exists ("acr1", "app", "v2", "sha256:bbb"). by vm_compute.
Defined.

(** ** A scan in which every listing succeeds *)

Lemma check_output_eval ext (c : cmd) (o : string) (err : option string) (w : world) :
  ext_run ext c (clock w) = Answer (Completed 0 (Some o) err) →
  check_output ext c w = Result (Ret o) (after_call w) [Spawn c].
Proof.
  intros Hrun. unfold check_output, subprocess_check, subprocess_run, bind, tick, emit.
  simpl. rewrite Hrun. done.
Qed.

Lemma records_ret : records [] (ret tt).
Proof. intros w t Ht. split; [done|]. cbn. rewrite Ht. f_equal. set_solver. Qed.

Lemma records_emit e : records [] (emit e).
Proof. intros w t Ht. split; [done|]. cbn. rewrite Ht. f_equal. set_solver. Qed.

Lemma records_for_each {A} (l : list A) (rows : A → list row) (body : A → M unit) :
  (∀ x, records (rows x) (body x)) → records (l ≫= rows) (for_each l body).
Proof.
  intros Hb. induction l as [|x l IH]; [apply records_ret|].
  intros w t Ht. cbn [for_each]. rewrite out_bind, post_bind.
  destruct (Hb x w t Ht) as [-> Hl].
  destruct (IH _ _ Hl) as [-> Hl']. split; [done|]. rewrite Hl'. f_equal.
  cbn [mbind list_bind]. rewrite list_to_set_app_L. set_solver.
Qed.

Section healthy_scan.
Context (cfg : config) (ext : external) (prints : list string → string).
Hypothesis jobs : 0 < MAX_CONCURRENT_JOBS cfg.
Hypothesis attempts : 0 < RETRY_LIMIT cfg.
Hypothesis az_prints :
  ∀ argv n, ∃ err, ext_run ext (Argv ("az" :: argv)) n
                   = Answer (Completed 0 (Some (prints ("az" :: argv))) err).

Lemma az_output argv w :
  check_output ext (Argv ("az" :: argv)) w
  = Result (Ret (prints ("az" :: argv))) (after_call w) [Spawn (Argv ("az" :: argv))].
Proof. destruct (az_prints argv (clock w)) as [err H]. by eapply check_output_eval. Qed.

Lemma decorated_eval {A} name (func : M A) a w w1 tr :
  func w = Result (Ret a) w1 tr →
  retry cfg name func w = Result (Ret (Some a)) w1 tr.
Proof.
  intros Hf. unfold retry.
  rewrite (wrapper_first_call_returns func name (RETRY_LIMIT cfg) 2 a w attempts);
    by rewrite Hf.
Qed.

Lemma lookup_output argv (h : M (option string)) w :
  except_CalledProcessError
    (s <- check_output ext (Argv ("az" :: argv)) ;; ret (Some (strip s))) h w
  = Result (Ret (Some (strip (prints ("az" :: argv))))) (after_call w)
      [Spawn (Argv ("az" :: argv))].
Proof.
  unfold except_CalledProcessError.
  erewrite try_except_eval; [|erewrite bind_eval_proj; [|apply az_output]; reflexivity].
  done.
Qed.

Lemma get_tag_digest_eval acr_name repo tag w :
  get_tag_digest cfg ext acr_name repo tag w
  = Result (Ret (Some (strip (prints (digest_argv acr_name repo tag))))) (after_call w)
      [Spawn (Argv (digest_argv acr_name repo tag))].
Proof.
  unfold get_tag_digest.
  erewrite bind_eval_proj; [|apply decorated_eval, lookup_output]. done.
Qed.

Lemma get_resource_group_name_eval acr_name w :
  get_resource_group_name cfg ext acr_name w
  = Result (Ret (Some (strip (prints (resource_group_argv acr_name))))) (after_call w)
      [Spawn (Argv (resource_group_argv acr_name))].
Proof.
  unfold get_resource_group_name.
  erewrite bind_eval_proj; [|apply decorated_eval, lookup_output]. done.
Qed.

Lemma listing_output name argv w :
  retry cfg name (s <- check_output ext (Argv ("az" :: argv)) ;; ret (split_ws s)) w
  = Result (Ret (Some (split_ws (prints ("az" :: argv))))) (after_call w)
      [Spawn (Argv ("az" :: argv))].
Proof.
  apply decorated_eval. erewrite bind_eval_proj; [|apply az_output]. done.
Qed.

Lemma records_process_tag acr_name repo tag :
  records (scanned_tag prints acr_name repo tag) (process_tag cfg ext acr_name repo tag).
Proof.
  intros w t Ht. unfold process_tag, scanned_tag.
  rewrite (bind_eval_proj _ _ _ _ _ _ (get_tag_digest_eval acr_name repo tag w)).
  set (d := strip (prints (digest_argv acr_name repo tag))).
  cbn [out post]. destruct (truthy d) eqn:Hd; [|by apply records_emit].
  assert (Hl : ledger (after_call w) = Some t) by done.
  rewrite (bind_eval_proj _ _ _ _ _ _ (check_if_processed_eval _ _ _ _ _ _ Hl)).
  cbn [out post]. destruct (bool_decide _) eqn:Hseen.
  - apply bool_decide_eq_true in Hseen. split; [done|]. cbn [emit post].
    rewrite Hl. f_equal. set_solver.
  - rewrite (bind_eval_proj _ _ _ _ _ _ (ThreadPoolExecutor_eval _ _ jobs)).
    cbn [out post].
    set (src := acr_name +:+ ".azurecr.io/" +:+ repo +:+ ":" +:+ tag).
    set (dst := GCR_REGION cfg +:+ "-docker.pkg.dev/" +:+ GCR_PROJECT_ID cfg +:+ "/"
                  +:+ acr_name +:+ "/" +:+ repo +:+ ":" +:+ tag).
    set (c := copy_image cfg ext src dst (after_call w)).
    destruct (copy_image_keeps_ledger cfg ext src dst (after_call w)) as [Hc_out Hc_ledger].
    rewrite Hl in Hc_ledger. fold c in Hc_out, Hc_ledger.
    assert (Hs : submit (copy_image cfg ext src dst) (after_call w)
                 = Result (Ret (Ret tt)) (post c) (trace c)).
    { unfold submit. fold c. by rewrite Hc_out. }
    rewrite (bind_eval_proj _ _ _ _ _ _ Hs). cbn [out post].
    assert (Hf : future_result (Ret tt) (post c) = Result (Ret tt) (post c) []) by done.
    rewrite (bind_eval_proj _ _ _ _ _ _ Hf). cbn [out post].
    rewrite (insert_processed_eval _ _ _ _ _ _ Hc_ledger). cbn [out post ledger].
    split; [done|]. f_equal. set_solver.
Qed.

Lemma create_gcr_repository_keeps_ledger repo_name w :
  out (create_gcr_repository cfg ext repo_name w) = Ret tt ∧
  ledger (post (create_gcr_repository cfg ext repo_name w)) = ledger w.
Proof.
  split.
  - unfold create_gcr_repository, retry. rewrite out_bind. unfold wrapper.
    destruct (wrapper_run_returns (RETRY_LIMIT cfg) 2 "create_gcr_repository"
                (create_gcr_repository_body ext repo_name) (range (RETRY_LIMIT cfg)) w)
      as [o ->]; [lia | apply create_gcr_repository_body_no_exit | done].
  - by destruct (sound_create_gcr_repository cfg ext eq (λ _, True)) with
      (repo_name := repo_name) (w := w) as (<- & _); try congruence.
Qed.

Lemma records_process_repository acr_name repo :
  records (scanned_repository prints acr_name repo)
    (process_repository cfg ext acr_name repo).
Proof.
  intros w t Ht. unfold process_repository, scanned_repository.
  set (body := bind _ _).
  assert (Hbody : out (body w) = Ret tt ∧
                  ledger (post (body w))
                  = Some (list_to_set (split_ws (prints (tags_argv acr_name repo))
                                         ≫= scanned_tag prints acr_name repo) ∪ t)).
  { subst body. unfold list_tags.
    rewrite (bind_eval_proj _ _ _ _ _ _ (listing_output "list_tags" _ w)). cbn [out post].
    destruct (create_gcr_repository_keeps_ledger acr_name (after_call w)) as [Hc Hcl].
    rewrite out_bind, post_bind, Hc. cbn [the_list]. rewrite bind_ret_l.
    apply (records_for_each _ (scanned_tag prints acr_name repo)).
    - intros tag. apply records_process_tag.
    - by rewrite Hcl. }
  destruct Hbody as [Ho Hl]. unfold try_except. by rewrite Ho.
Qed.

Lemma records_process_acr acr_name :
  records (scanned_registry prints acr_name) (process_acr cfg ext acr_name).
Proof.
  intros w t Ht. unfold process_acr, scanned_registry.
  rewrite (bind_eval_proj _ _ _ _ _ _ (get_resource_group_name_eval acr_name w)).
  cbn [out post from_option].
  destruct (truthy _); [|by apply records_emit].
  unfold list_repositories.
  rewrite (bind_eval_proj _ _ _ _ _ _ (listing_output "list_repositories" _ (after_call w))).
  cbn [out post the_list]. rewrite bind_ret_l.
  apply (records_for_each _ (scanned_repository prints acr_name)).
  - intros repo. apply records_process_repository.
  - done.
Qed.

Lemma submit_all_records (chunk : list string) w t :
  ledger w = Some t →
  ∃ futures,
    out (submit_all (process_acr cfg ext) chunk w) = Ret futures ∧
    Forall (post_ok (λ _, True)) futures ∧
    ledger (post (submit_all (process_acr cfg ext) chunk w))
    = Some (list_to_set (chunk ≫= scanned_registry prints) ∪ t).
Proof.
  revert w t. induction chunk as [|x chunk IH]; intros w t Ht.
  - exists []. split_and!; [done|done|]. cbn. rewrite Ht. f_equal. set_solver.
  - cbn [submit_all].
    destruct (records_process_acr x w t Ht) as [Ho Hl].
    assert (Hs : submit (process_acr cfg ext x) w
                 = Result (Ret (Ret tt)) (post (process_acr cfg ext x w))
                     (trace (process_acr cfg ext x w))).
    { unfold submit. by rewrite Ho. }
    rewrite (bind_eval_proj _ _ _ _ _ _ Hs). cbn [out post].
    destruct (IH _ _ Hl) as (futures & Hfo & Hfs & Hfl).
    exists (Ret tt :: futures). rewrite out_bind, post_bind, Hfo. cbn [ret out post].
    split_and!; [done|by constructor|]. rewrite Hfl. f_equal.
    cbn [mbind list_bind]. rewrite list_to_set_app_L. set_solver.
Qed.

Lemma records_process_chunk (chunk : list string) :
  records (chunk ≫= scanned_registry prints) (process_chunk cfg ext chunk).
Proof.
  intros w t Ht. unfold process_chunk.
  rewrite (bind_eval_proj _ _ _ _ _ _ (ThreadPoolExecutor_eval _ _ jobs)). cbn [out post].
  destruct (submit_all_records chunk w t Ht) as (futures & Hfo & Hfs & Hfl).
  rewrite out_bind, post_bind, Hfo.
  destruct (join_futures_returns futures
              (post (submit_all (process_acr cfg ext) chunk w)) Hfs) as [Ho Hl].
  split; [exact Ho|]. by rewrite Hl.
Qed.
End healthy_scan.

Lemma bind_of_chunks {A B} (chunks : list (list A)) (f : A → list B) :
  chunks ≫= (λ chunk, chunk ≫= f) = concat chunks ≫= f.
Proof.
  induction chunks as [|chunk chunks IH]; [done|].
  cbn [concat]. rewrite bind_app, <- IH. done.
Qed.

(** X28. What a full scan records when every listing succeeds. With
    positive [MAX_CONCURRENT_JOBS] and [RETRY_LIMIT], a client that lists
    the registries and an [az] that ends with status 0 at every call, the
    scan returns and the ledger holds, next to what it held, exactly the
    identities the scan went through: for every registry with a resource
    group, every repository and every tag whose digest is not empty. This
    is so whatever [gcrane] and [gcloud] do: the identities of images
    whose copy failed are recorded as well. *)
Theorem healthy_scan_records_every_image
    (cfg : config) (ext : external) (prints : list string → string)
    (names : list string) (w : world) :
  0 < MAX_CONCURRENT_JOBS cfg →
  0 < RETRY_LIMIT cfg →
  (∀ n, ext_registries ext n = Answer names) →
  (∀ argv n, ∃ err, ext_run ext (Argv ("az" :: argv)) n
                    = Answer (Completed 0 (Some (prints ("az" :: argv))) err)) →
  let r := full_scan cfg ext w in
  out r = Ret tt ∧
  ∃ t0 : gset row,
    snd (init_db (ledger w)) = Some t0 ∧
    ledger (post r) = Some (list_to_set (scanned prints names) ∪ t0) ∧
    ∀ acr_name repo tag digest,
      (acr_name, repo, tag, digest) ∈ scanned prints names →
      fst (check_if_processed acr_name repo tag digest (ledger (post r))) = Ret true.
Proof.
  intros jobs attempts Hnames Haz r.
  destruct (init_db_eval w) as (Hinit & Hl0 & t0 & Ht0).
  cut (out r = Ret tt ∧
       ledger (post r) = Some (list_to_set (scanned prints names) ∪ t0)).
  { intros [Ho Hl]. split; [done|]. exists t0. split_and!; [done|done|].
    intros a rp tg d Hin. rewrite Hl. cbn [check_if_processed fst].
    rewrite bool_decide_eq_true_2; [done|]. set_solver. }
  subst r. unfold full_scan.
  rewrite (bind_ret_proj _ _ _ _ Hinit).
  set (w0 := post (with_ledger init_db w)) in *.
  assert (Hw0 : ledger w0 = Some t0) by congruence.
  assert (Hlist : list_acr_registries cfg ext w0
                  = Result (Ret (Some names)) (after_call w0) [ListRegistries]).
  { unfold list_acr_registries. apply decorated_eval; [done|].
    unfold bind, tick, emit. cbn [out post trace]. rewrite Hnames. done. }
  rewrite (bind_eval_proj _ _ _ _ _ _ Hlist). cbn [out post the_list].
  rewrite bind_ret_l.
  rewrite (chunkify_chunks names _ jobs). cbn [of_answer]. rewrite bind_ret_l.
  set (chunks := (λ j, slice names j (j + MAX_CONCURRENT_JOBS cfg))
                   <$> range_from (length names) 0 (Z.of_nat (length names))
                         (MAX_CONCURRENT_JOBS cfg)).
  assert (Hconcat : concat chunks = names).
  { subst chunks. rewrite (range_from_concat names _ jobs) by lia. done. }
  destruct (records_for_each chunks (λ chunk, chunk ≫= scanned_registry prints)
              (process_chunk cfg ext)
              (records_process_chunk cfg ext prints jobs attempts Haz)
              (after_call w0) t0 Hw0) as [Ho Hl].
  rewrite bind_of_chunks, Hconcat in Hl. fold (scanned prints names) in Hl.
  rewrite out_bind, post_bind, Ho.
  set (w1 := post (for_each chunks (process_chunk cfg ext) (after_call w0))) in *.
  assert (He : ∀ e, emit e w1 = Result (Ret tt) w1 [e]) by done.
  rewrite (bind_eval_proj _ _ _ _ _ _ (He _)). cbn [out post].
  rewrite (bind_eval_proj _ _ _ _ _ _ (get_all_processed_eval _ _ Hl)). cbn [out post].
  unfold Migration.print. rewrite for_each_emit_print_eval. done.
Qed.

Lemma healthy_scan_records_every_image_witness :
  out (full_scan env copies_fail fresh) = Ret tt ∧
  fst (check_if_processed "acr1" "app" "v2" "sha256:d1"
         (ledger (post (full_scan env copies_fail fresh)))) = Ret true.
Proof.
  assert (H1 : 0 < MAX_CONCURRENT_JOBS env) by reflexivity.
  assert (H2 : 0 < RETRY_LIMIT env) by reflexivity.
  assert (H3 : ∀ n, ext_registries copies_fail n = Answer ["acr1"]) by reflexivity.
  assert (H4 : ∀ argv n, ∃ err, ext_run copies_fail (Argv ("az" :: argv)) n
                    = Answer (Completed 0 (Some (az_tsv ("az" :: argv))) err))
    by (intros argv n; by eexists).
  destruct (healthy_scan_records_every_image env copies_fail az_tsv ["acr1"] fresh
              H1 H2 H3 H4) as (Ho & t0 & _ & _ & Hin).
  split; [exact Ho|].
  apply (Hin "acr1" "app" "v2" "sha256:d1").
  vm_compute. apply list_elem_of_further, list_elem_of_here.
Defined.

(** ** Lines with fewer than three fields *)







(** ** The same image on both sides *)

(** C5. The difference is not the subtraction of the sets of identities.
    For the identity [(acr1, app, v1, sha256:aaa)] held by both
    registries, the enumeration of the source gives the entry
    [acr1:app:v1:-sha256:aaa] and the enumeration of the destination the
    entry [acr1/app:v1:-sha256:aaa], with a slash after the first name
    (the entry of an image without tag has a colon there, as the entries
    of the source have).
    Read back from the two files, the entries are different strings: the
    difference of the two inventories holds the entry of the source, and
    [compare_registries] answers [True] and writes it to the difference
    file, although the sets of identities are equal. *)
Theorem same_identity_is_not_subtracted :
  out (Enumeration.list_acr_images_with_digests same_image printed_words
         first_printed_word "acr1" fresh)
  = Ret [image_identifier ("acr1", "app", "v1", "sha256:aaa")] ∧
  out (Enumeration.list_docker_images_for_repository same_image one_image
         "us" "abc-2" "acr1" fresh)
  = Ret [Enumeration.tagged "acr1" "app" "v1" "sha256:aaa"] ∧
  Enumeration.untagged "acr1" "app" "sha256:aaa" = "acr1:app:<no-tag>:-sha256:aaa" ∧
  elements (diff (inventory [image_identifier ("acr1", "app", "v1", "sha256:aaa")])
                 (inventory [Enumeration.tagged "acr1" "app" "v1" "sha256:aaa"]))
  = ["acr1:app:v1:-sha256:aaa"] ∧
  out (compare_registries acr_output_file gcr_output_file difference_output_file
         same_image_inventories) = Ret true ∧
  files (post (compare_registries acr_output_file gcr_output_file difference_output_file
                 same_image_inventories)) !! difference_output_file
  = Some ["acr1:app:v1:-sha256:aaa
"].
Proof. vm_compute. repeat split. Qed.

(** C8. Registries that hold the same images are reported as different.
    In the outside where the source and the destination hold the one
    image [app:v1] of digest [sha256:aaa], and from a state in which an
    earlier run left a difference file, the script ends normally with the
    two inventories written, its entry of the source [acr1:app:...] and
    its entry of the destination [acr1/app:...]; the comparison finds the
    image of the source missing, the difference file of the earlier run
    is replaced by one that holds this image, and the script announces a
    difference, for the migration to replay. *)
Theorem same_images_are_reported_missing :
  let r := Enumeration.main same_image printed_words first_printed_word
             one_registry one_image with_stale_difference in
  out r = Ret tt ∧
  files (post r) !! acr_output_file = Some ["acr1:app:v1:-sha256:aaa
"] ∧
  files (post r) !! gcr_output_file = Some ["acr1/app:v1:-sha256:aaa
"] ∧
  files (post r) !! difference_output_file = Some ["acr1:app:v1:-sha256:aaa
"] ∧
  last (trace r)
  = Some (Print "
**** Difference in ACR to GAR Found. Content stored in {difference_output_file}"
            [AStr difference_output_file]).
Proof. vm_compute. repeat split. Qed.
